(** * webllm-svg: the generation loop of [svg-generator.tsx] and the
      engine hook [use-webllm.ts]

    A shallow embedding of the retry loop [handleGenerate], its stop and
    skip handlers, the SVG extraction it performs on the model output, and
    the engine and cache operations of the [useWebLLM] hook; and, beside
    the loop, of the prompt field with its history and key handling, the
    loading of the model list, and the lines of the debug log.

    JavaScript strings are lists of code units ([list ascii]); the regular
    expressions of the source only inspect ASCII characters.  React state
    and refs are fields of explicit state records.  What lies outside the
    repository is an input: every [await]ed adapter call takes its result
    from an environment, which also says what the user does while the
    engine is created and while the stream runs: pressing the stop or the
    retry button, or selecting another model.  How the adapter ends a
    stream that was interrupted (normally, or with an error) is left to
    it. *)

From Stdlib Require Import Ascii String List ZArith Lia Bool.
From stdpp Require Import base gmap strings list.
Import ListNotations.

Set Default Proof Using "Type".
Local Open Scope list_scope.

(** ** JavaScript strings *)

Abbreviation jsstring := (list ascii).

Definition js (s : string) : jsstring := list_ascii_of_string s.

(** [Canonicalize] of a case-insensitive, non-unicode RegExp: ASCII
    lower-case letters are mapped to upper case; no character outside ASCII
    canonicalizes to an ASCII one. *)
Definition canonicalize (c : ascii) : ascii :=
  let n := nat_of_ascii c in
  if (97 <=? n)%nat && (n <=? 122)%nat then ascii_of_nat (n - 32) else c.

Definition ci_eqb (a b : ascii) : bool :=
  Ascii.eqb (canonicalize a) (canonicalize b).

(** White space of the RegExp class [\s] among the first 256 code units. *)
Definition is_ws (c : ascii) : bool :=
  let n := nat_of_ascii c in
  ((9 <=? n)%nat && (n <=? 13)%nat) || (n =? 32)%nat || (n =? 160)%nat.

Definition is_quote (c : ascii) : bool :=
  (nat_of_ascii c =? 34)%nat || (nat_of_ascii c =? 39)%nat.

Definition str_eqb (a b : jsstring) : bool := bool_decide (a = b).

(** [s.startsWith(p)], returning the remainder. *)
Fixpoint strip_prefix (p s : jsstring) : option jsstring :=
  match p, s with
  | [], _ => Some s
  | _ :: _, [] => None
  | a :: p', b :: s' => if Ascii.eqb a b then strip_prefix p' s' else None
  end.

(** [s.includes(p)] *)
Fixpoint includes (s p : jsstring) : bool :=
  match strip_prefix p s with
  | Some _ => true
  | None => match s with [] => false | _ :: s' => includes s' p end
  end.

(** [s.trim() === ""]: what [!prompt.trim()] tests. *)
Definition is_blank (s : jsstring) : bool := forallb is_ws s.

(** ** The regular expressions of the source *)

(** A literal of a case-insensitive pattern matched at the start of [s]:
    the text it matched (in the case of the input) and what follows. *)
Fixpoint match_lit (p s : jsstring) : option (jsstring * jsstring) :=
  match p with
  | [] => Some ([], s)
  | pc :: p' =>
      match s with
      | [] => None
      | c :: s' =>
          if ci_eqb pc c then
            match match_lit p' s' with
            | Some (m, r) => Some (c :: m, r)
            | None => None
            end
          else None
      end
  end.

(** The lazy [[\s\S]*?] followed by the literal [p]: the quantifier takes
    as few characters as a match of [p] allows. *)
Fixpoint match_lazy_until (p s : jsstring) : option (jsstring * jsstring) :=
  match match_lit p s with
  | Some (m, r) => Some (m, r)
  | None =>
      match s with
      | [] => None
      | c :: s' =>
          match match_lazy_until p s' with
          | Some (m, r) => Some (c :: m, r)
          | None => None
          end
      end
  end.

Definition svg_open : jsstring := js "<svg".
Definition svg_close : jsstring := js "</svg>".

(** [/<svg[\s\S]*?<\/svg>/i] anchored at the start of [s]. *)
Definition svg_here (s : jsstring) : option (jsstring * jsstring) :=
  match match_lit svg_open s with
  | None => None
  | Some (o, s1) =>
      match match_lazy_until svg_close s1 with
      | None => None
      | Some (m, r) => Some (o ++ m, r)
      end
  end.

(** One [exec]: the leftmost start position at which the pattern matches.
    Returns the skipped text, the match and the remainder. *)
Fixpoint svg_exec (s : jsstring) : option (jsstring * jsstring * jsstring) :=
  match svg_here s with
  | Some (m, r) => Some ([], m, r)
  | None =>
      match s with
      | [] => None
      | c :: s' =>
          match svg_exec s' with
          | Some (pre, m, r) => Some (c :: pre, m, r)
          | None => None
          end
      end
  end.

(** The matches of the global pattern: after each match the search resumes
    at its end.  Every match is at least ten characters long, so the length
    of the input bounds the number of rounds. *)
Fixpoint svg_matches_from (fuel : nat) (s : jsstring) : list jsstring :=
  match fuel with
  | O => []
  | S fuel' =>
      match svg_exec s with
      | None => []
      | Some (_, m, r) => m :: svg_matches_from fuel' r
      end
  end.

Definition svg_matches (s : jsstring) : list jsstring :=
  svg_matches_from (length s) s.

(** [s.match(/<svg[\s\S]*?<\/svg>/gi)]: [null] when nothing matches. *)
Definition match_svg (s : jsstring) : option (list jsstring) :=
  match svg_matches s with
  | [] => None
  | ms => Some ms
  end.

(** The viewBox pattern of the source, case-insensitive: the literal
    [viewBox=], a single or double quote, one or more characters that are
    not quotes (the capture group), and a quote.  The result is the capture
    group of the first match. *)
Fixpoint span_nonquote (s : jsstring) : jsstring * jsstring :=
  match s with
  | [] => ([], [])
  | c :: s' =>
      if is_quote c then ([], s)
      else let '(v, r) := span_nonquote s' in (c :: v, r)
  end.

Definition viewBox_here (s : jsstring) : option jsstring :=
  match match_lit (js "viewBox=") s with
  | Some (_, q :: s2) =>
      if is_quote q then
        match span_nonquote s2 with
        | (c :: v, _ :: _) => Some (c :: v)
        | _ => None
        end
      else None
  | _ => None
  end.

Fixpoint match_viewBox (s : jsstring) : option jsstring :=
  match viewBox_here s with
  | Some v => Some v
  | None => match s with [] => None | _ :: s' => match_viewBox s' end
  end.

(** [v.split(/\s+/)] *)
Fixpoint split_ws_from (s cur : jsstring) (prev_ws : bool) : list jsstring :=
  match s with
  | [] => [rev cur]
  | c :: s' =>
      if is_ws c then
        if prev_ws then split_ws_from s' cur true
        else rev cur :: split_ws_from s' [] true
      else split_ws_from s' (c :: cur) false
  end.

Definition split_ws (s : jsstring) : list jsstring := split_ws_from s [] false.

(** ** Errors and adapter results *)

(** A thrown value: whether it is an [instanceof Error], its [name] and its
    [message]. *)
Record JsError := {
  instanceofError : bool;
  err_name : jsstring;
  err_message : jsstring
}.

Inductive Result (A : Type) : Type :=
| Ok (a : A)
| Throw (e : JsError).
Arguments Ok {A} a.
Arguments Throw {A} e.

(** [new DOMException("Aborted", "AbortError")] *)
Definition AbortedException : JsError :=
  {| instanceofError := true;
     err_name := js "AbortError";
     err_message := js "Aborted" |}.

(** The test of both [catch] blocks:
    [error instanceof Error && (error.name === "AbortError" ||
     error.message.includes("Aborted"))]. *)
Definition isAbortError (e : JsError) : bool :=
  instanceofError e &&
  (str_eqb (err_name e) (js "AbortError") || includes (err_message e) (js "Aborted")).

(** An [AbortController]; no code of the repository calls [abort()], so
    [signal.aborted] keeps the value the controller was created with. *)
Record AbortController := {
  ctrl_id : nat;
  ctrl_aborted : bool
}.

(** [abortSignal?.aborted] *)
Definition signal_aborted (c : option AbortController) : bool :=
  match c with
  | Some c => ctrl_aborted c
  | None => false
  end.

(** ** The hook [useWebLLM] *)

Abbreviation Engine := nat.

(** Calls that reach the inference adapter, in order. *)
Inductive AdapterCall :=
| CreateMLCEngine (modelId : jsstring)
| ChatCompletionsCreate (engine : Engine)
| InterruptGenerate (engine : Engine).

Record Hook := {
  engineRef : option Engine;
  currentModelRef : option jsstring;
  isInitializing : bool;
  isGenerating : bool;
  adapterCalls : list AdapterCall
}.

Definition hook_init : Hook :=
  {| engineRef := None; currentModelRef := None;
     isInitializing := false; isGenerating := false; adapterCalls := [] |}.

Definition set_refs (e : option Engine) (m : option jsstring) (h : Hook) : Hook :=
  {| engineRef := e; currentModelRef := m;
     isInitializing := isInitializing h; isGenerating := isGenerating h;
     adapterCalls := adapterCalls h |}.

Definition set_isInitializing (b : bool) (h : Hook) : Hook :=
  {| engineRef := engineRef h; currentModelRef := currentModelRef h;
     isInitializing := b; isGenerating := isGenerating h;
     adapterCalls := adapterCalls h |}.

Definition set_isGenerating (b : bool) (h : Hook) : Hook :=
  {| engineRef := engineRef h; currentModelRef := currentModelRef h;
     isInitializing := isInitializing h; isGenerating := b;
     adapterCalls := adapterCalls h |}.

Definition record_call (c : AdapterCall) (h : Hook) : Hook :=
  {| engineRef := engineRef h; currentModelRef := currentModelRef h;
     isInitializing := isInitializing h; isGenerating := isGenerating h;
     adapterCalls := adapterCalls h ++ [c] |}.

(** [engineRef.current && currentModelRef.current === modelId] *)
Definition reusable_engine (h : Hook) (modelId : jsstring) : option Engine :=
  match engineRef h, currentModelRef h with
  | Some e, Some m => if str_eqb m modelId then Some e else None
  | _, _ => None
  end.

(** What the adapter does when asked to create an engine: the texts of the
    progress reports it makes, then the engine or an error. *)
Record CreateEnv := {
  create_progress : list jsstring;
  create_result : Result Engine
}.

(** [initializeEngine].  The second component of the result lists the
    progress texts handed to the [onProgress] callback of the caller. *)
Definition initializeEngine (env : CreateEnv) (modelId : jsstring)
    (abortSignal : option AbortController) (h : Hook)
    : Hook * list jsstring * Result Engine :=
  match reusable_engine h modelId with
  | Some e => (h, [], Ok e)
  | None =>
      if signal_aborted abortSignal then (h, [], Throw AbortedException)
      else
        let h1 := record_call (CreateMLCEngine modelId) (set_isInitializing true h) in
        match create_result env with
        | Ok engine =>
            (set_isInitializing false (set_refs (Some engine) (Some modelId) h1),
             create_progress env, Ok engine)
        | Throw e =>
            let h2 := if isAbortError e then h1 else set_refs None None h1 in
            (set_isInitializing false h2, create_progress env, Throw e)
        end
  end.

Definition resetEngine (h : Hook) : Hook := set_refs None None h.

Definition interruptGenerate (h : Hook) : Hook :=
  match engineRef h with
  | Some e => record_call (InterruptGenerate e) h
  | None => h
  end.

(** *** Cache operations of the hook *)

(** The storage layer as the cache operations see it.  Every call may
    throw; [*_defined] are the [typeof x !== "undefined"] tests.
    [indexedDB.deleteDatabase(name)] returns a request at once, or throws;
    the request reports later that the database is deleted, or an error. *)
Record CacheEnv := {
  adapter_hasModelInCache : jsstring -> Result bool;
  adapter_deleteModelInCache : jsstring -> Result unit;
  caches_defined : bool;
  caches_keys : Result (list jsstring);
  caches_delete : jsstring -> Result bool;
  indexedDB_defined : bool;
  indexedDB_databases : Result (list jsstring);
  indexedDB_deleteDatabase : jsstring -> Result (Result unit);
  localStorage_defined : bool;
  localStorage_clear : Result unit;
  sessionStorage_defined : bool;
  sessionStorage_clear : Result unit;
  serviceWorker_defined : bool;
  serviceWorker_getRegistrations : Result (list nat);
  registration_unregister : nat -> Result bool
}.

Definition bind {A B} (r : Result A) (k : A -> Result B) : Result B :=
  match r with
  | Ok a => k a
  | Throw e => Throw e
  end.

Notation "'do' x <- r ; k" := (bind r (fun x => k))
  (at level 10, x name, r at level 100, k at level 200).

(** [for (const x of xs) { await f(x) }] *)
Fixpoint for_each {A B} (f : A -> Result B) (xs : list A) : Result unit :=
  match xs with
  | [] => Ok tt
  | x :: xs' => do _u <- f x; for_each f xs'
  end.

(** [try { return await hasModelInCache(modelId) } catch { return false }] *)
Definition hasModelInCache (env : CacheEnv) (modelId : jsstring) : Result bool :=
  match adapter_hasModelInCache env modelId with
  | Ok b => Ok b
  | Throw _ => Ok false
  end.

(** The [catch] of [deleteModelCache] and [deleteAllModelCache] logs to the
    console and rethrows. *)
Definition rethrow {A} (r : Result A) : Result A :=
  match r with
  | Ok a => Ok a
  | Throw e => Throw e
  end.

Definition deleteModelCache (env : CacheEnv) (modelId : jsstring) : Result unit :=
  rethrow (
    do _u <- adapter_deleteModelInCache env modelId;
    if caches_defined env then
      do cacheNames <- caches_keys env;
      for_each (fun cacheName =>
                  if includes cacheName modelId
                  then do _b <- caches_delete env cacheName; Ok tt
                  else Ok tt) cacheNames
    else Ok tt).

(** The five storage categories that [deleteAllModelCache] clears.  The
    requests of [indexedDB.deleteDatabase] are not awaited and get no
    handler: what they report is dropped. *)
Definition clearIndexedDB (env : CacheEnv) : Result unit :=
  if indexedDB_defined env then
    do databases <- indexedDB_databases env;
    for_each (indexedDB_deleteDatabase env) databases
  else Ok tt.

Definition clearCacheStorage (env : CacheEnv) : Result unit :=
  if caches_defined env then
    do cacheNames <- caches_keys env;
    for_each (caches_delete env) cacheNames
  else Ok tt.

Definition clearLocalStorage (env : CacheEnv) : Result unit :=
  if localStorage_defined env then localStorage_clear env else Ok tt.

Definition clearSessionStorage (env : CacheEnv) : Result unit :=
  if sessionStorage_defined env then sessionStorage_clear env else Ok tt.

Definition unregisterServiceWorkers (env : CacheEnv) : Result unit :=
  if serviceWorker_defined env then
    do registrations <- serviceWorker_getRegistrations env;
    for_each (registration_unregister env) registrations
  else Ok tt.

Definition deleteAllModelCache (env : CacheEnv) : Result unit :=
  rethrow (
    do _a <- clearIndexedDB env;
    do _b <- clearCacheStorage env;
    do _c <- clearLocalStorage env;
    do _d <- clearSessionStorage env;
    unregisterServiceWorkers env).

(** ** The component [SVGGenerator] *)

Definition maxRetries : nat := 10.

(** What the user can do while [generateSVG] runs: the stop and the retry
    button are shown while the hook is busy, and the model select is never
    disabled. *)
Inductive UserAction :=
| PressStop                        (* the stop button: [handleStop] *)
| PressRetry                       (* the retry button: [handleRetry] *)
| SelectModel (value : jsstring).  (* the model select: [handleModelChange] *)

(** What the adapter and the user do once [chat.completions.create] has
    been called. *)
Inductive StreamEvent :=
| Chunk (content : jsstring)   (* the stream yields [delta.content || ""] *)
| User (a : UserAction).

Abbreviation UserStop := (User PressStop).
Abbreviation UserSkip := (User PressRetry).
Abbreviation UserChangeModel value := (User (SelectModel value)).

(** What happens while [CreateMLCEngine] is awaited. *)
Inductive CreationEvent :=
| Report (text : jsstring)     (* [initProgressCallback] is called *)
| Acted (a : UserAction).

(** What the adapter and the user do during one call of [generateSVG]. *)
Record AttemptEnv := {
  creation : list CreationEvent;
  creation_result : Result Engine;      (* [CreateMLCEngine] returns, or throws *)
  chat_create_error : option JsError;   (* [chat.completions.create] throws *)
  stream_events : list StreamEvent;
  stream_end : option JsError           (* the iterator ends, or throws *)
}.

Fixpoint reports (events : list CreationEvent) : list jsstring :=
  match events with
  | [] => []
  | Report text :: events' => text :: reports events'
  | Acted _ :: events' => reports events'
  end.

(** What the adapter does when the attempt asks it for an engine. *)
Definition attempt_create (env : AttemptEnv) : CreateEnv :=
  {| create_progress := reports (creation env);
     create_result := creation_result env |}.

Inductive Toast :=
| ToastPromptRequired
| ToastModelRequired
| ToastExtractFailed
| ToastNoValidSvg
| ToastGenerated (count : nat) (attempt : option nat)
| ToastError (e : JsError)
| ToastMaxRetries
| ToastStopped
| ToastSkipping.

(** The [return] statements of [handleGenerate] and the fall-through after
    its loop. *)
Inductive Exit :=
| ExitPromptRequired
| ExitModelRequired
| ExitStoppedAtEntry
| ExitNoSvgFound
| ExitNoValidSvg
| ExitSuccess
| ExitStoppedOnAbort
| ExitFailed (e : JsError)
| ExitMaxRetries.

(** What the component imports: the package [is-svg], and JavaScript
    numbers with [Number.parseFloat] (applied to a string or to
    [undefined]) and [!==]. *)
Class Externals := {
  isSvg : jsstring -> bool;
  Number : Type;
  parseFloat : option jsstring -> Number;
  strict_ne : Number -> Number -> bool
}.

Section Generator.

Context `{Externals}.

Inductive LogEntry :=
| LogStarting
| LogPrompt (prompt : jsstring)
| LogModel (model : jsstring)
| LogSize (size : Number)
| LogCurrentColor (enabled : bool)
| LogStoppedByUser
| LogRetryAttempt (attempt : nat)
| LogResetOutput (chars : nat)
| LogStartingAttempt (attempt : nat) (controller_valid : bool)
| LogProgress (text : jsstring)
| LogStreamStarted (attempt : nat)
| LogStreamEnded (attempt : nat)
| LogCompleted
| LogTagNotFound
| LogRetrying
| LogInvalidSvg
| LogSizeMismatch (size width height : Number)
| LogNoValidSvg
| LogValidationPassed (count : nat)
| LogSkipping
| LogFailed (attempt : nat) (e : JsError)
| LogStopRequested
| LogSkipRequested
| LogModelChanged (model : jsstring).

(** The values [handleGenerate] closes over. *)
Record Params := {
  prompt : jsstring;
  selectedModel : jsstring;
  size : Number;
  maxTokens : Number;
  temperature : Number;
  useCurrentColor : bool
}.

(** State and refs of the component, the hook it uses, and the two local
    variables of [handleGenerate] that its callbacks share.  Timers, prompt
    history and local storage play no part in the loop and are left out. *)
Record State := {
  hook : Hook;
  shouldStopRef : bool;
  abortControllerRef : option AbortController;
  nextControllerId : nat;
  attempt : nat;
  currentOutput : jsstring;
  aiRawOutput : jsstring;
  extractedSVGs : list jsstring;
  selectedSVGIndex : Z;
  cachedModels : gset jsstring;
  debugLogs : list LogEntry;
  toasts : list Toast
}.

Definition set_hook (f : Hook -> Hook) (s : State) : State :=
  {| hook := f (hook s); shouldStopRef := shouldStopRef s;
     abortControllerRef := abortControllerRef s;
     nextControllerId := nextControllerId s; attempt := attempt s;
     currentOutput := currentOutput s; aiRawOutput := aiRawOutput s;
     extractedSVGs := extractedSVGs s; selectedSVGIndex := selectedSVGIndex s;
     cachedModels := cachedModels s; debugLogs := debugLogs s;
     toasts := toasts s |}.

Definition set_shouldStop (b : bool) (s : State) : State :=
  {| hook := hook s; shouldStopRef := b;
     abortControllerRef := abortControllerRef s;
     nextControllerId := nextControllerId s; attempt := attempt s;
     currentOutput := currentOutput s; aiRawOutput := aiRawOutput s;
     extractedSVGs := extractedSVGs s; selectedSVGIndex := selectedSVGIndex s;
     cachedModels := cachedModels s; debugLogs := debugLogs s;
     toasts := toasts s |}.

Definition set_controller (c : option AbortController) (s : State) : State :=
  {| hook := hook s; shouldStopRef := shouldStopRef s;
     abortControllerRef := c;
     nextControllerId := nextControllerId s; attempt := attempt s;
     currentOutput := currentOutput s; aiRawOutput := aiRawOutput s;
     extractedSVGs := extractedSVGs s; selectedSVGIndex := selectedSVGIndex s;
     cachedModels := cachedModels s; debugLogs := debugLogs s;
     toasts := toasts s |}.

(** [abortControllerRef.current = new AbortController()] *)
Definition new_controller (s : State) : State :=
  {| hook := hook s; shouldStopRef := shouldStopRef s;
     abortControllerRef :=
       Some {| ctrl_id := nextControllerId s; ctrl_aborted := false |};
     nextControllerId := S (nextControllerId s); attempt := attempt s;
     currentOutput := currentOutput s; aiRawOutput := aiRawOutput s;
     extractedSVGs := extractedSVGs s; selectedSVGIndex := selectedSVGIndex s;
     cachedModels := cachedModels s; debugLogs := debugLogs s;
     toasts := toasts s |}.

Definition set_attempt (n : nat) (s : State) : State :=
  {| hook := hook s; shouldStopRef := shouldStopRef s;
     abortControllerRef := abortControllerRef s;
     nextControllerId := nextControllerId s; attempt := n;
     currentOutput := currentOutput s; aiRawOutput := aiRawOutput s;
     extractedSVGs := extractedSVGs s; selectedSVGIndex := selectedSVGIndex s;
     cachedModels := cachedModels s; debugLogs := debugLogs s;
     toasts := toasts s |}.

(** [currentOutput = o; setAiRawOutput(o)] *)
Definition set_output (o : jsstring) (s : State) : State :=
  {| hook := hook s; shouldStopRef := shouldStopRef s;
     abortControllerRef := abortControllerRef s;
     nextControllerId := nextControllerId s; attempt := attempt s;
     currentOutput := o; aiRawOutput := o;
     extractedSVGs := extractedSVGs s; selectedSVGIndex := selectedSVGIndex s;
     cachedModels := cachedModels s; debugLogs := debugLogs s;
     toasts := toasts s |}.

Definition setExtractedSVGs (l : list jsstring) (s : State) : State :=
  {| hook := hook s; shouldStopRef := shouldStopRef s;
     abortControllerRef := abortControllerRef s;
     nextControllerId := nextControllerId s; attempt := attempt s;
     currentOutput := currentOutput s; aiRawOutput := aiRawOutput s;
     extractedSVGs := l; selectedSVGIndex := selectedSVGIndex s;
     cachedModels := cachedModels s; debugLogs := debugLogs s;
     toasts := toasts s |}.

Definition setSelectedSVGIndex (i : Z) (s : State) : State :=
  {| hook := hook s; shouldStopRef := shouldStopRef s;
     abortControllerRef := abortControllerRef s;
     nextControllerId := nextControllerId s; attempt := attempt s;
     currentOutput := currentOutput s; aiRawOutput := aiRawOutput s;
     extractedSVGs := extractedSVGs s; selectedSVGIndex := i;
     cachedModels := cachedModels s; debugLogs := debugLogs s;
     toasts := toasts s |}.

Definition setCachedModels (f : gset jsstring -> gset jsstring) (s : State) : State :=
  {| hook := hook s; shouldStopRef := shouldStopRef s;
     abortControllerRef := abortControllerRef s;
     nextControllerId := nextControllerId s; attempt := attempt s;
     currentOutput := currentOutput s; aiRawOutput := aiRawOutput s;
     extractedSVGs := extractedSVGs s; selectedSVGIndex := selectedSVGIndex s;
     cachedModels := f (cachedModels s); debugLogs := debugLogs s;
     toasts := toasts s |}.

Definition setDebugLogs (f : list LogEntry -> list LogEntry) (s : State) : State :=
  {| hook := hook s; shouldStopRef := shouldStopRef s;
     abortControllerRef := abortControllerRef s;
     nextControllerId := nextControllerId s; attempt := attempt s;
     currentOutput := currentOutput s; aiRawOutput := aiRawOutput s;
     extractedSVGs := extractedSVGs s; selectedSVGIndex := selectedSVGIndex s;
     cachedModels := cachedModels s; debugLogs := f (debugLogs s);
     toasts := toasts s |}.

Definition addLog (m : LogEntry) : State -> State :=
  setDebugLogs (fun prev => prev ++ [m]).

Definition toast (t : Toast) (s : State) : State :=
  {| hook := hook s; shouldStopRef := shouldStopRef s;
     abortControllerRef := abortControllerRef s;
     nextControllerId := nextControllerId s; attempt := attempt s;
     currentOutput := currentOutput s; aiRawOutput := aiRawOutput s;
     extractedSVGs := extractedSVGs s; selectedSVGIndex := selectedSVGIndex s;
     cachedModels := cachedModels s; debugLogs := debugLogs s;
     toasts := toasts s ++ [t] |}.

(** *** The stop and retry buttons *)

Definition handleStop (s : State) : State :=
  match abortControllerRef s with
  | Some _ =>
      let s := set_shouldStop true s in
      let s := addLog LogStopRequested s in
      let s := set_hook interruptGenerate s in
      let s := set_controller None s in
      toast ToastStopped s
  | None => s
  end.

Definition handleRetry (s : State) : State :=
  match abortControllerRef s with
  | Some _ =>
      let s := addLog LogSkipRequested s in
      let s := set_hook interruptGenerate s in
      toast ToastSkipping s
  | None => s
  end.

(** [handleModelChange], as far as the generation sees it: the engine is
    reset.  The model that a running [handleGenerate] uses is the one of
    its closure, [selectedModel p]. *)
Definition handleModelChange (value : jsstring) (s : State) : State :=
  addLog (LogModelChanged value) (set_hook resetEngine s).

Definition userAction (a : UserAction) (s : State) : State :=
  match a with
  | PressStop => handleStop s
  | PressRetry => handleRetry s
  | SelectModel value => handleModelChange value s
  end.

(** *** The callbacks passed to [generateSVG] *)

Definition onChunk (chunk : jsstring) (s : State) : State :=
  match chunk with
  | [] => s
  | _ :: _ =>
      let s := set_output (currentOutput s ++ chunk) s in
      match match_svg (currentOutput s) with
      | Some matches =>
          if (0 <? length matches)%nat
          then setExtractedSVGs (List.filter isSvg matches) s
          else s
      | None => s
      end
  end.

Definition onProgress (text : jsstring) (s : State) : State :=
  addLog (LogProgress text) s.

Definition onGenerationStart (s : State) : State :=
  addLog (LogStreamStarted (attempt s)) s.

Definition onGenerationEnd (s : State) : State :=
  addLog (LogStreamEnded (attempt s)) s.

(** *** [generateSVG] *)

(** The [for await] loop over the stream.  Before the first fragment,
    between two fragments and after the last the user may act. *)
Fixpoint run_stream (abortSignal : option AbortController)
    (events : list StreamEvent) (ending : option JsError)
    (fullResponse : jsstring) (s : State) : State * Result jsstring :=
  match events with
  | [] =>
      match ending with
      | None => (s, Ok fullResponse)
      | Some e => (s, Throw e)
      end
  | Chunk content :: events' =>
      if signal_aborted abortSignal then (s, Throw AbortedException)
      else run_stream abortSignal events' ending (fullResponse ++ content)
             (onChunk content s)
  | User a :: events' =>
      run_stream abortSignal events' ending fullResponse (userAction a s)
  end.

(** What the user does while [chat.completions.create] is awaited and
    then throws: no stream is opened, so no fragment is yielded. *)
Fixpoint run_waiting (events : list StreamEvent) (s : State) : State :=
  match events with
  | [] => s
  | Chunk _ :: events' => run_waiting events' s
  | User a :: events' => run_waiting events' (userAction a s)
  end.

(** The progress reports and the user's actions while [CreateMLCEngine]
    is awaited, in their order. *)
Fixpoint run_creation (events : list CreationEvent) (s : State) : State :=
  match events with
  | [] => s
  | Report text :: events' => run_creation events' (onProgress text s)
  | Acted a :: events' => run_creation events' (userAction a s)
  end.

(** [await initializeEngine(modelId, onProgress, abortSignal)] as the
    component runs it: the statements of the hook's [initializeEngine],
    with what happens while [CreateMLCEngine] is awaited between the call
    and its result.  The user's actions then see the refs as they were
    before the call, and the result is written over what they leave. *)
Definition initializeEngine_await (env : AttemptEnv) (modelId : jsstring)
    (abortSignal : option AbortController) (s : State) : State * Result Engine :=
  match reusable_engine (hook s) modelId with
  | Some e => (s, Ok e)
  | None =>
      if signal_aborted abortSignal then (s, Throw AbortedException)
      else
        let s :=
          set_hook (fun h => record_call (CreateMLCEngine modelId)
                               (set_isInitializing true h)) s in
        let s := run_creation (creation env) s in
        match creation_result env with
        | Ok engine =>
            (set_hook (fun h => set_isInitializing false
                                  (set_refs (Some engine) (Some modelId) h)) s,
             Ok engine)
        | Throw e =>
            (set_hook (fun h => set_isInitializing false
                                  (if isAbortError e then h else set_refs None None h)) s,
             Throw e)
        end
  end.

Definition generateSVG (env : AttemptEnv) (p : Params)
    (abortSignal : option AbortController) (s : State) : State * Result jsstring :=
  let s := set_hook (set_isGenerating true) s in
  let '(s, res) :=
    let '(s, r) := initializeEngine_await env (selectedModel p) abortSignal s in
    match r with
    | Throw e => (s, Throw e)
    | Ok engine =>
        if signal_aborted abortSignal then (s, Throw AbortedException)
        else
          let s := onGenerationStart s in
          let s := set_hook (record_call (ChatCompletionsCreate engine)) s in
          match chat_create_error env with
          | Some e => (run_waiting (stream_events env) s, Throw e)
          | None =>
              match run_stream abortSignal (stream_events env) (stream_end env) [] s with
              | (s, Ok fullResponse) => (onGenerationEnd s, Ok fullResponse)
              | (s, Throw e) => (s, Throw e)
              end
          end
    end in
  (set_hook (set_isGenerating false) s, res).

(** *** Validation of the extracted blocks *)

(** The size check of one block: the warning it logs, if any. *)
Definition sizeWarning (size : Number) (svg : jsstring) : option LogEntry :=
  match match_viewBox svg with
  | Some viewBox =>
      let viewBoxValues := split_ws viewBox in
      let svgWidth := parseFloat (viewBoxValues !! 2%nat) in
      let svgHeight := parseFloat (viewBoxValues !! 3%nat) in
      if strict_ne svgWidth size || strict_ne svgHeight size
      then Some (LogSizeMismatch size svgWidth svgHeight)
      else None
  | None => None
  end.

(** [for (const svg of svgMatches) { ... validSVGs.push(svg) }] *)
Fixpoint validateAll (size : Number) (svgMatches validSVGs : list jsstring)
    (s : State) : list jsstring * State :=
  match svgMatches with
  | [] => (validSVGs, s)
  | svg :: rest =>
      if negb (isSvg svg) then validateAll size rest validSVGs (addLog LogInvalidSvg s)
      else
        let s :=
          match sizeWarning size svg with
          | Some warning => addLog warning s
          | None => s
          end in
        validateAll size rest (validSVGs ++ [svg]) s
  end.

(** *** The retry loop of [handleGenerate] *)

Inductive Step :=
| Return (e : Exit) (s : State)
| Continue (s : State).

(** The statements of one iteration up to the [try]: the stop check, the
    increment of [attempt] and the reset of the buffer.  [None] is the
    [return] of the stop check. *)
Definition beginAttempt (s : State) : option State :=
  if shouldStopRef s then None
  else
    let s := set_attempt (S (attempt s)) s in
    let s :=
      if (1 <? attempt s)%nat then
        let s := addLog (LogRetryAttempt (attempt s)) s in
        let s := addLog (LogResetOutput (length (currentOutput s))) s in
        set_output [] s
      else s in
    Some (addLog (LogStartingAttempt (attempt s)
                    (bool_decide (is_Some (abortControllerRef s)))) s).

Definition stopped (s : State) : State :=
  set_shouldStop false (set_controller None (addLog LogStoppedByUser s)).

(** [if (attempt < maxRetries) { ...; continue } toast.error(...); return] *)
Definition retryOrGiveUp (e : Exit) (t : Toast) (s : State) : Step :=
  if (attempt s <? maxRetries)%nat then Continue (addLog LogRetrying s)
  else Return e (toast t s).

Definition noSvgFound (s : State) : Step :=
  retryOrGiveUp ExitNoSvgFound ToastExtractFailed (addLog LogTagNotFound s).

Definition succeed (p : Params) (validSVGs : list jsstring) (s : State) : State :=
  let s := addLog (LogValidationPassed (length validSVGs)) s in
  let s := setExtractedSVGs validSVGs s in
  let s := setSelectedSVGIndex (Z.of_nat (length validSVGs) - 1) s in
  let s := setCachedModels (fun prev => prev ∪ {[ selectedModel p ]}) s in
  let s := set_controller None s in
  toast (ToastGenerated (length validSVGs)
           (if (1 <? attempt s)%nat then Some (attempt s) else None)) s.

(** The body of the [try] after [generateSVG] has returned. *)
Definition onResponse (p : Params) (fullResponse : jsstring) (s : State) : Step :=
  let s := addLog LogCompleted s in
  match match_svg fullResponse with
  | None => noSvgFound s
  | Some svgMatches =>
      if (length svgMatches =? 0)%nat then noSvgFound s
      else
        let '(validSVGs, s) := validateAll (size p) svgMatches [] s in
        if (length validSVGs =? 0)%nat then
          retryOrGiveUp ExitNoValidSvg ToastNoValidSvg (addLog LogNoValidSvg s)
        else Return ExitSuccess (succeed p validSVGs s)
  end.

(** The [catch] block. *)
Definition onError (error : JsError) (s : State) : Step :=
  if isAbortError error then
    if shouldStopRef s then Return ExitStoppedOnAbort (stopped s)
    else Continue (new_controller (addLog LogSkipping s))
  else
    let s := addLog (LogFailed (attempt s) error) s in
    if (maxRetries <=? attempt s)%nat
    then Return (ExitFailed error) (toast (ToastError error) (set_controller None s))
    else Continue (addLog LogRetrying s).

Definition iteration (env : AttemptEnv) (p : Params) (s : State) : Step :=
  match beginAttempt s with
  | None => Return ExitStoppedAtEntry (stopped s)
  | Some s =>
      match generateSVG env p (abortControllerRef s) s with
      | (s, Ok fullResponse) => onResponse p fullResponse s
      | (s, Throw error) => onError error s
      end
  end.

(** The statements after the loop. *)
Definition afterLoop (s : State) : State :=
  set_controller None (toast ToastMaxRetries s).

(** [while (attempt < maxRetries) { ... }]; [envs n] is what the adapter
    and the user do during attempt [n]. *)
Fixpoint generateLoop (fuel : nat) (envs : nat -> AttemptEnv) (p : Params)
    (s : State) : option (Exit * State) :=
  match fuel with
  | O => None
  | S fuel' =>
      if (attempt s <? maxRetries)%nat then
        match iteration (envs (S (attempt s))) p s with
        | Return e s' => Some (e, s')
        | Continue s' => generateLoop fuel' envs p s'
        end
      else Some (ExitMaxRetries, afterLoop s)
  end.

(** The statements of [handleGenerate] before the loop. *)
Definition startGeneration (p : Params) (s : State) : State :=
  let s := set_shouldStop false s in
  let s := new_controller s in
  let s := set_output [] s in
  let s := setExtractedSVGs [] s in
  let s := setSelectedSVGIndex 0 s in
  let s := setDebugLogs (fun _ => []) s in
  let s := addLog LogStarting s in
  let s := addLog (LogPrompt (prompt p)) s in
  let s := addLog (LogModel (selectedModel p)) s in
  let s := addLog (LogSize (size p)) s in
  let s := addLog (LogCurrentColor (useCurrentColor p)) s in
  set_attempt 0 s.

Definition handleGenerate (envs : nat -> AttemptEnv) (p : Params) (s : State)
    : option (Exit * State) :=
  if is_blank (prompt p) then Some (ExitPromptRequired, toast ToastPromptRequired s)
  else if bool_decide (selectedModel p = []) then
    Some (ExitModelRequired, toast ToastModelRequired s)
  else generateLoop (S maxRetries) envs p (startGeneration p s).

End Generator.

(** ** An instance of the imports, for running the model

    Numbers are integers or [NaN]; [parseFloat] reads leading decimal
    digits; a text is an SVG when it is exactly one block. *)

Definition digit_of (c : ascii) : option Z :=
  let n := nat_of_ascii c in
  if (48 <=? n)%nat && (n <=? 57)%nat then Some (Z.of_nat (n - 48)) else None.

Fixpoint parse_digits (acc : option Z) (s : jsstring) : option Z :=
  match s with
  | [] => acc
  | c :: s' =>
      match digit_of c with
      | Some d => parse_digits (Some (10 * default 0%Z acc + d)%Z) s'
      | None => acc
      end
  end.

Definition simple_externals : Externals :=
  {| isSvg := fun s => bool_decide (svg_matches s = [s]);
     Number := option Z;
     parseFloat := fun o => match o with Some s => parse_digits None s | None => None end;
     strict_ne := fun a b =>
       match a, b with
       | Some x, Some y => negb (x =? y)%Z
       | _, _ => true
       end |}.

Definition quiet_create : CreateEnv :=
  {| create_progress := []; create_result := Ok 1%nat |}.

(** An attempt in which the stream yields the given events and ends. *)
Definition streaming (events : list StreamEvent) (ending : option JsError) : AttemptEnv :=
  {| creation := []; creation_result := Ok 1%nat; chat_create_error := None;
     stream_events := events; stream_end := ending |}.

Definition state_init `{Externals} : State :=
  {| hook := hook_init; shouldStopRef := false; abortControllerRef := None;
     nextControllerId := 0; attempt := 0; currentOutput := [];
     aiRawOutput := []; extractedSVGs := []; selectedSVGIndex := 0;
     cachedModels := ∅; debugLogs := []; toasts := [] |}.

Definition params_of `{Externals} (prompt model : string) (size : Number) : Params :=
  {| prompt := js prompt; selectedModel := js model; size := size;
     maxTokens := size; temperature := size; useCurrentColor := true |}.

(** *** Sample runs *)

(** A size in pixels, as a number of the instance. *)
Definition px (n : Z) : @Number simple_externals := Some n.

Definition sample_params : @Params simple_externals :=
  @params_of simple_externals "a circle" "m1" (px 64).

Definition sample_start : @State simple_externals :=
  @startGeneration simple_externals sample_params (@state_init simple_externals).

(** The state in which the first attempt of a sample run calls
    [generateSVG], and the state in which that call returns. *)
Definition sample_begun : @State simple_externals :=
  default sample_start (@beginAttempt simple_externals sample_start).

Definition sample_streamed (env : AttemptEnv) : @State simple_externals :=
  fst (@generateSVG simple_externals env sample_params
         (abortControllerRef sample_begun) sample_begun).

Definition first_controller : AbortController :=
  {| ctrl_id := 0; ctrl_aborted := false |}.

Definition network_error : JsError :=
  {| instanceofError := true; err_name := js "Error"; err_message := js "network" |}.

(** The model answers without any graphics, every time. *)
Definition no_graphics (_ : nat) : AttemptEnv :=
  streaming [Chunk (js "no graphics here")] None.

(** A block whose viewBox is 32 wide while 64 is asked for. *)
Definition small_viewBox : jsstring := js "<svg viewBox='0 0 32 32'></svg>".

Definition small_viewBox_run (_ : nat) : AttemptEnv :=
  streaming [Chunk small_viewBox] None.

(** Two blocks in one response, in two fragments. *)
Definition two_blocks_run (_ : nat) : AttemptEnv :=
  streaming [Chunk (js "Here: <svg>1</svg> or <SVG>"); Chunk (js "2</svg>.")] None.

(** Stop is pressed in the middle of a block; the stream aborts. *)
Definition stop_midway (_ : nat) : AttemptEnv :=
  streaming [Chunk (js "<svg><circ"); UserStop] (Some AbortedException).

(** Stop is pressed after a whole block has arrived; the interrupted
    stream ends normally. *)
Definition stop_after_block (_ : nat) : AttemptEnv :=
  streaming [Chunk (js "<svg></svg>"); UserStop] None.

(** Stop is pressed after a whole block and the beginning of a second
    one; the stream aborts. *)
Definition stop_in_second_block (_ : nat) : AttemptEnv :=
  streaming [Chunk (js "<svg></svg>"); Chunk (js "<svg><circ"); UserStop]
    (Some AbortedException).

(** The retry button is pressed in the middle of a block; the stream
    aborts. *)
Definition skip_midway (_ : nat) : AttemptEnv :=
  streaming [Chunk (js "<svg><circ"); UserSkip] (Some AbortedException).

(** Nine attempts without graphics, and the retry button in the tenth. *)
Definition skip_in_tenth (n : nat) : AttemptEnv :=
  if (n <? 10)%nat then no_graphics n else skip_midway n.

(** The retry button is pressed in the middle of a block; the interrupted
    stream ends normally. *)
Definition skip_then_end (_ : nat) : AttemptEnv :=
  streaming [Chunk (js "<svg><circ"); UserSkip] None.

Definition transport_failure : AttemptEnv :=
  streaming [Chunk (js "<svg>")] (Some network_error).



Definition is_chat_call (c : AdapterCall) : bool :=
  match c with ChatCompletionsCreate _ => true | _ => false end.

(** A hook that holds engine 7 for model m1. *)
Definition loaded_hook : Hook :=
  {| engineRef := Some 7%nat; currentModelRef := Some (js "m1");
     isInitializing := false; isGenerating := false;
     adapterCalls := [CreateMLCEngine (js "m1")] |}.

(** A storage layer in which every call throws. *)
Definition broken_storage : CacheEnv :=
  {| adapter_hasModelInCache := fun _ => Throw network_error;
     adapter_deleteModelInCache := fun _ => Throw network_error;
     caches_defined := true;
     caches_keys := Throw network_error;
     caches_delete := fun _ => Throw network_error;
     indexedDB_defined := true;
     indexedDB_databases := Throw network_error;
     indexedDB_deleteDatabase := fun _ => Throw network_error;
     localStorage_defined := true;
     localStorage_clear := Throw network_error;
     sessionStorage_defined := true;
     sessionStorage_clear := Throw network_error;
     serviceWorker_defined := true;
     serviceWorker_getRegistrations := Throw network_error;
     registration_unregister := fun _ => Throw network_error |}.

(** Two blocks with text around them, and an opening tag that is never
    closed. *)
Definition sample_parts : list (jsstring * jsstring) :=
  [(js "a", js "<SVG x>1</svg>"); (js "b</svg>", js "<svg>2</sVg>")].

Definition sample_tail : jsstring := js "c<svg".

(** ** What a block is

    The vocabulary in which the properties of the extraction are stated. *)

(** [m] is the literal [p] up to the case of ASCII letters. *)
Definition ci_equal (p m : jsstring) : Prop :=
  Forall2 (fun x y => ci_eqb x y = true) p m.

(** The literal [p] occurs in [s]. *)
Definition occurs (p s : jsstring) : Prop :=
  exists pre m post, s = pre ++ m ++ post /\ ci_equal p m.

(** The only closing tag in [t] is at its end. *)
Definition first_close (t : jsstring) : Prop :=
  forall pre m post, t = pre ++ m ++ post -> ci_equal svg_close m -> post = [].

(** An opening tag, any text, and a closing tag that is the first closing
    tag after the opening one. *)
Definition svg_block (b : jsstring) : Prop :=
  exists o body c,
    b = o ++ body ++ c /\ ci_equal svg_open o /\ ci_equal svg_close c /\
    first_close (body ++ c).

(** No part of [s] is a block. *)
Definition no_block (s : jsstring) : Prop :=
  forall pre b post, s = pre ++ b ++ post -> ~ svg_block b.

(** A buffer made of blocks, each preceded by a gap, and a tail. *)
Fixpoint assemble (parts : list (jsstring * jsstring)) (tail : jsstring) : jsstring :=
  match parts with
  | [] => tail
  | (gap, block) :: parts' => gap ++ block ++ assemble parts' tail
  end.

(** The text of the fragments a stream yields. *)
Fixpoint streamed_text (events : list StreamEvent) : jsstring :=
  match events with
  | [] => []
  | Chunk content :: events' => content ++ streamed_text events'
  | _ :: events' => streamed_text events'
  end.

(** Search for a literal, to decide [occurs]. *)
Fixpoint find_lit (p s : jsstring) : bool :=
  match match_lit p s with
  | Some _ => true
  | None => match s with [] => false | _ :: s' => find_lit p s' end
  end.

(** ** What an attempt amounts to

    The vocabulary in which the properties of the loop are stated. *)

(** Why an attempt has to be repeated. *)
Inductive Cause :=
| NoMatchFound
| NoValidMatch
| TransportFailure (e : JsError).

Definition cause_exit (c : Cause) : Exit :=
  match c with
  | NoMatchFound => ExitNoSvgFound
  | NoValidMatch => ExitNoValidSvg
  | TransportFailure e => ExitFailed e
  end.

Definition cause_toast (c : Cause) : Toast :=
  match c with
  | NoMatchFound => ToastExtractFailed
  | NoValidMatch => ToastNoValidSvg
  | TransportFailure e => ToastError e
  end.

Definition stopped_exit (e : Exit) : Prop :=
  e = ExitStoppedAtEntry \/ e = ExitStoppedOnAbort.

Section Vocabulary.

Context `{Externals}.

(** The blocks of a text that pass [isSvg]. *)
Definition valid_blocks (text : jsstring) : list jsstring :=
  List.filter isSvg (svg_matches text).

(** The cause for which the result of [generateSVG] is not accepted, if
    there is one that retrying can cure. *)
Definition attempt_cause (r : Result jsstring) : option Cause :=
  match r with
  | Throw e => if isAbortError e then None else Some (TransportFailure e)
  | Ok fullResponse =>
      match svg_matches fullResponse with
      | [] => Some NoMatchFound
      | _ :: _ =>
          match valid_blocks fullResponse with
          | [] => Some NoValidMatch
          | _ :: _ => None
          end
      end
  end.

(** An attempt in which nobody presses stop and which ends without a valid
    block or with an error that is not an abort. *)
Definition recoverable (env : AttemptEnv) : Prop :=
  (~ In UserStop (stream_events env) /\ ~ In (Acted PressStop) (creation env)) /\
  (forall e, create_result (attempt_create env) = Throw e -> isAbortError e = false) /\
  (forall e, chat_create_error env = Some e -> isAbortError e = false) /\
  match stream_end env with
  | Some e => isAbortError e = false
  | None => valid_blocks (streamed_text (stream_events env)) = []
  end.

(** The state at the head of the loop after [n] iterations that all ended
    in [continue]. *)
Fixpoint retried (n : nat) (envs : nat -> AttemptEnv) (p : Params) (s : State)
    : option State :=
  match n with
  | O => Some s
  | S n' =>
      match retried n' envs p s with
      | Some s' =>
          match iteration (envs (S (attempt s'))) p s' with
          | Continue s'' => Some s''
          | Return _ _ => None
          end
      | None => None
      end
  end.

(** The two refs of the hook are set and cleared together. *)
Definition hook_wf (h : Hook) : Prop :=
  engineRef h = None <-> currentModelRef h = None.

(** The attempt gets as far as the stream: the engine is there (reused
    or created) and opening the chat completion does not throw. *)
Definition stream_opens (env : AttemptEnv) (p : Params) (s : State)
    (engine : Engine) : Prop :=
  snd (initializeEngine (attempt_create env) (selectedModel p)
         (abortControllerRef s) (hook s)) = Ok engine /\
  chat_create_error env = None.

(** What [generateSVG] returns once the stream has opened. *)
Definition stream_result (env : AttemptEnv) : Result jsstring :=
  match stream_end env with
  | None => Ok (streamed_text (stream_events env))
  | Some e => Throw e
  end.

(** How [generateSVG] ends once the stream has run. *)
Definition finish_stream (r : Result jsstring) (s : State) : State :=
  set_hook (set_isGenerating false)
    (match r with Ok _ => onGenerationEnd s | Throw _ => s end).

(** The part of the state that only the loop itself writes. *)
Definition loop_view (s : State) : nat * nat * Z * gset jsstring :=
  (attempt s, nextControllerId s, selectedSVGIndex s, cachedModels s).

(** The stop flag and the controller: written by the loop and by the stop
    button. *)
Definition stop_view (s : State) : bool * option AbortController :=
  (shouldStopRef s, abortControllerRef s).

End Vocabulary.

(** ** What reaches the adapter *)

Definition is_create_call (c : AdapterCall) : bool :=
  match c with CreateMLCEngine _ => true | _ => false end.

Definition is_interrupt_call (c : AdapterCall) : bool :=
  match c with InterruptGenerate _ => true | _ => false end.

(** The number of calls of a kind in a trace. *)
Definition count_calls (kind : AdapterCall -> bool) (l : list AdapterCall) : nat :=
  length (List.filter kind l).
Arguments count_calls : simpl never.

(** The call that a press of the stop or the retry button makes: the
    handlers call [interruptGenerate] while the controller of the attempt is
    in place ([armed]), and the hook passes the call on when it holds an
    engine. *)
Definition interrupt_call (engine : option Engine) (armed : bool) : list AdapterCall :=
  match engine with
  | Some e => if armed then [InterruptGenerate e] else []
  | None => []
  end.

(** The calls that the user's actions during a stream make, in order.  The
    stop button takes the controller away; a change of the model takes the
    engine away. *)
Fixpoint button_calls (engine : option Engine) (armed : bool)
    (events : list StreamEvent) : list AdapterCall :=
  match events with
  | [] => []
  | Chunk _ :: events' => button_calls engine armed events'
  | User PressStop :: events' =>
      interrupt_call engine armed ++ button_calls engine false events'
  | User PressRetry :: events' =>
      interrupt_call engine armed ++ button_calls engine armed events'
  | User (SelectModel _) :: events' => button_calls None armed events'
  end.

(** *** Vocabulary for a run of the loop *)

Section RunVocabulary.

Context `{Externals}.



(** At the head of the loop the buffer is empty or about to be reset. *)
Definition buffer_reset (s : State) : Prop :=
  attempt s = 0%nat -> currentOutput s = [] /\ aiRawOutput s = [].

(** The hooks of two states show the same busy flags, and the second has
    made the calls [l] after those of the first. *)
Definition hook_extends (s s' : State) (l : list AdapterCall) : Prop :=
  adapterCalls (hook s') = adapterCalls (hook s) ++ l /\
  isInitializing (hook s') = isInitializing (hook s) /\
  isGenerating (hook s') = isGenerating (hook s).

(** The hooks of two states hold the same engine for the same model. *)
Definition refs_kept (s s' : State) : Prop :=
  engineRef (hook s') = engineRef (hook s) /\
  currentModelRef (hook s') = currentModelRef (hook s).

(** The user does not change the model while the attempt streams. *)
Definition model_kept (events : list StreamEvent) : Prop :=
  forall value, ~ In (UserChangeModel value) events.

(** The calls of one [generateSVG]: at most one creation of an engine, for
    the selected model and only when none can be reused, and at most one
    chat completion.  An engine that is reused is still held afterwards if
    [kept] holds. *)
Definition attempt_trace (p : Params) (kept : Prop) (s s' : State)
    (l : list AdapterCall) : Prop :=
  adapterCalls (hook s') = adapterCalls (hook s) ++ l /\
  (count_calls is_chat_call l <= 1)%nat /\
  (count_calls is_create_call l <= 1)%nat /\
  Forall (fun c => is_create_call c = true -> c = CreateMLCEngine (selectedModel p)) l /\
  forall e0, reusable_engine (hook s) (selectedModel p) = Some e0 ->
             count_calls is_create_call l = 0%nat /\
             (kept -> reusable_engine (hook s') (selectedModel p) = Some e0).

End RunVocabulary.

(** ** The prompt field, its history and [localStorage]

    The part of the component that the retry loop does not touch: the
    text of the prompt field, the history of submitted prompts with the
    index used to browse it, and the three items the component keeps in
    [localStorage].  The history item holds [JSON.stringify] of an array
    of strings, written by the component only; [JSON.parse] reads the
    same array back, so the item is kept as the array. *)

Definition MAX_HISTORY : nat := 50.

Record Storage := {
  history_item : option (list jsstring);   (* svg-generator-prompt-history *)
  model_item : option jsstring;            (* svg-generator-selected-model *)
  prompt_item : option jsstring            (* svg-generator-current-prompt *)
}.

Definition storage_empty : Storage :=
  {| history_item := None; model_item := None; prompt_item := None |}.

Inductive Key := Enter | ArrowUp | ArrowDown | OtherKey.

(** What [handlePromptKeyDown] reads of the event and of the text area. *)
Record KeyboardEvent := {
  key : Key;
  ctrlKey : bool;
  value : jsstring;
  selectionStart : nat
}.

Definition newline : ascii := ascii_of_nat 10.

(** [s.split(sep)] for a separator of one character. *)
Fixpoint split_on (sep : ascii) (s : jsstring) : list jsstring :=
  match s with
  | [] => [[]]
  | c :: s' =>
      if Ascii.eqb c sep then [] :: split_on sep s'
      else match split_on sep s' with
           | l :: ls => (c :: l) :: ls
           | [] => [[c]]
           end
  end.

(** [textarea.value.substring(0, cursorPosition).split(newline).length] *)
Definition currentLineNumber (ev : KeyboardEvent) : nat :=
  length (split_on newline (take (selectionStart ev) (value ev))).

(** [xs.filter((_, i) => keep(i))], the index counted from [i]. *)
Fixpoint filter_index {A} (keep : nat -> bool) (i : nat) (xs : list A) : list A :=
  match xs with
  | [] => []
  | x :: xs' =>
      if keep i then x :: filter_index keep (S i) xs' else filter_index keep (S i) xs'
  end.

(** [xs[i]] for a number [i] that may be negative: [None] is [undefined]. *)
Definition at_index {A} (xs : list A) (i : Z) : option A :=
  if (i <? 0)%Z then None else xs !! Z.to_nat i.

(** [new TypeError(...)], as thrown by a property access on [undefined]. *)
Definition TypeError : JsError :=
  {| instanceofError := true;
     err_name := js "TypeError";
     err_message := js "Cannot read properties of undefined" |}.

(** The values of [prompt] and [selectedModel] that a [handleGenerate]
    reads: those of the render in which it was created. *)
Record Render := {
  render_prompt : option jsstring;
  render_model : jsstring
}.

Inductive EditorToast :=
| ToastHistoryCleared
| ToastHistoryApplied
| ToastPromptMissing
| ToastModelMissing.

Module Editor.

(** [prompt] has the type [string] in the source; [None] is the value
    [undefined], which an index outside the history yields. *)
Record T := {
  prompt : option jsstring;
  promptHistory : list jsstring;
  historyIndex : Z;
  isHistoryModalOpen : bool;
  localStorage : Storage;
  toasts : list EditorToast
}.

Definition setPrompt (v : option jsstring) (e : T) : T :=
  {| prompt := v; promptHistory := promptHistory e; historyIndex := historyIndex e;
     isHistoryModalOpen := isHistoryModalOpen e; localStorage := localStorage e;
     toasts := toasts e |}.

Definition setPromptHistory (v : list jsstring) (e : T) : T :=
  {| prompt := prompt e; promptHistory := v; historyIndex := historyIndex e;
     isHistoryModalOpen := isHistoryModalOpen e; localStorage := localStorage e;
     toasts := toasts e |}.

Definition setHistoryIndex (v : Z) (e : T) : T :=
  {| prompt := prompt e; promptHistory := promptHistory e; historyIndex := v;
     isHistoryModalOpen := isHistoryModalOpen e; localStorage := localStorage e;
     toasts := toasts e |}.

Definition setIsHistoryModalOpen (v : bool) (e : T) : T :=
  {| prompt := prompt e; promptHistory := promptHistory e; historyIndex := historyIndex e;
     isHistoryModalOpen := v; localStorage := localStorage e;
     toasts := toasts e |}.

Definition setStorage (f : Storage -> Storage) (e : T) : T :=
  {| prompt := prompt e; promptHistory := promptHistory e; historyIndex := historyIndex e;
     isHistoryModalOpen := isHistoryModalOpen e; localStorage := f (localStorage e);
     toasts := toasts e |}.

Definition toast (t : EditorToast) (e : T) : T :=
  {| prompt := prompt e; promptHistory := promptHistory e; historyIndex := historyIndex e;
     isHistoryModalOpen := isHistoryModalOpen e; localStorage := localStorage e;
     toasts := toasts e ++ [t] |}.

Definition store_history (v : option (list jsstring)) (st : Storage) : Storage :=
  {| history_item := v; model_item := model_item st; prompt_item := prompt_item st |}.

Definition store_prompt (v : jsstring) (st : Storage) : Storage :=
  {| history_item := history_item st; model_item := model_item st;
     prompt_item := Some v |}.

Definition store_model (v : jsstring) (st : Storage) : Storage :=
  {| history_item := history_item st; model_item := Some v;
     prompt_item := prompt_item st |}.

(** The state of a component that has just been created over a storage. *)
Definition initial (st : Storage) : T :=
  {| prompt := Some []; promptHistory := []; historyIndex := (-1)%Z;
     isHistoryModalOpen := false; localStorage := st; toasts := [] |}.

(** The effect that runs once after the first render: the history and the
    last prompt are read back; an item that is absent or the empty string
    is falsy and skipped. *)
Definition mount (st : Storage) : T :=
  let e := initial st in
  let e :=
    match history_item st with
    | Some saved => setPromptHistory saved e
    | None => e
    end in
  match prompt_item st with
  | Some (c :: savedPrompt) => setPrompt (Some (c :: savedPrompt)) e
  | _ => e
  end.

Definition saveToHistory (newPrompt : jsstring) (e : T) : T :=
  if is_blank newPrompt then e
  else
    let filtered := List.filter (fun p => negb (str_eqb p newPrompt)) (promptHistory e) in
    let updated := take MAX_HISTORY (newPrompt :: filtered) in
    let e := setStorage (store_history (Some updated)) e in
    let e := setPromptHistory updated e in
    setHistoryIndex (-1) e.

Definition deleteHistoryItem (index : nat) (e : T) : T :=
  let updated := filter_index (fun i => negb (i =? index)%nat) 0 (promptHistory e) in
  let e := setStorage (store_history (Some updated)) e in
  setPromptHistory updated e.

Definition clearHistory (e : T) : T :=
  let e := setPromptHistory [] e in
  let e := setStorage (store_history None) e in
  let e := setHistoryIndex (-1) e in
  toast ToastHistoryCleared e.

(** The statements of [handleGenerate] that concern the prompt field, up
    to the creation of the abort controller.  The [prompt] of its render
    is read with [prompt.trim()], which throws on [undefined].  The second
    component tells whether the retry loop is entered. *)
Definition handleGenerate_prompt (r : Render) (e : T) : Result (T * bool) :=
  match render_prompt r with
  | None => Throw TypeError
  | Some currentPrompt =>
      if is_blank currentPrompt then Ok (toast ToastPromptMissing e, false)
      else if bool_decide (render_model r = []) then Ok (toast ToastModelMissing e, false)
      else
        let e := saveToHistory currentPrompt e in
        let e := setPrompt (Some []) e in
        let e := setStorage (store_prompt []) e in
        Ok (e, true)
  end.

(** The [handleGenerate] of the present render, as the button calls it. *)
Definition present (selectedModel : jsstring) (e : T) : Render :=
  {| render_prompt := prompt e; render_model := selectedModel |}.

(** [handlePromptKeyDown].  The callback is memoized on [promptHistory],
    [historyIndex] and the two busy flags, not on [handleGenerate]: the
    [handleGenerate] it calls is the one of the render in which one of
    these last changed, and reads the [prompt] and [selectedModel] of that
    render, given here as [held].  [handleGenerate] is asynchronous: what
    it throws rejects its promise and does not reach the handler. *)
Definition handlePromptKeyDown (isInitializing isGenerating : bool)
    (held : Render) (ev : KeyboardEvent) (e : T) : T :=
  match key ev, ctrlKey ev with
  | Enter, true =>
      if negb isInitializing && negb isGenerating then
        match handleGenerate_prompt held e with
        | Ok (e', _) => e'
        | Throw _ => e
        end
      else e
  | _, _ =>
      let length := Z.of_nat (length (promptHistory e)) in
      match key ev with
      | ArrowUp =>
          if (currentLineNumber ev =? 1)%nat && (0 <? length)%Z then
            let newIndex := Z.min (historyIndex e + 1) (length - 1) in
            let e := setHistoryIndex newIndex e in
            setPrompt (at_index (promptHistory e) newIndex) e
          else e
      | ArrowDown =>
          if (-1 <? historyIndex e)%Z then
            let newIndex := (historyIndex e - 1)%Z in
            let e := setHistoryIndex newIndex e in
            setPrompt (if (newIndex =? -1)%Z then Some []
                       else at_index (promptHistory e) newIndex) e
          else e
      | _ => e
      end
  end.

(** [onChange] of the text area. *)
Definition onChange (newPrompt : jsstring) (e : T) : T :=
  setStorage (store_prompt newPrompt) (setPrompt (Some newPrompt) e).

(** The click on an entry of the history dialog. *)
Definition applyHistory (historyPrompt : jsstring) (e : T) : T :=
  toast ToastHistoryApplied (setIsHistoryModalOpen false (setPrompt (Some historyPrompt) e)).

(** What the user can do with the prompt field and the history dialog.
    The dialog has a row, with its two buttons, for each entry of the
    history, and the button that clears the history when there is one. *)
Inductive Action :=
| Type_ (newPrompt : jsstring)
| KeyDown (isInitializing isGenerating : bool) (held : Render) (ev : KeyboardEvent)
| ClickGenerate (selectedModel : jsstring)
| ClickEntry (index : nat)
| ClickDelete (index : nat)
| ClickClear
| Reload.

Definition act (a : Action) (e : T) : T :=
  match a with
  | Type_ newPrompt => onChange newPrompt e
  | KeyDown isInitializing isGenerating held ev =>
      handlePromptKeyDown isInitializing isGenerating held ev e
  | ClickGenerate selectedModel =>
      match handleGenerate_prompt (present selectedModel e) e with
      | Ok (e', _) => e'
      | Throw _ => e
      end
  | ClickEntry index =>
      match promptHistory e !! index with
      | Some historyPrompt => applyHistory historyPrompt e
      | None => e
      end
  | ClickDelete index =>
      if (index <? length (promptHistory e))%nat then deleteHistoryItem index e else e
  | ClickClear =>
      match promptHistory e with
      | [] => e
      | _ :: _ => clearHistory e
      end
  | Reload => mount (localStorage e)
  end.

Definition run (actions : list Action) (e : T) : T := fold_left (fun e a => act a e) actions e.

End Editor.

(** *** Vocabulary for the prompt history *)

(** The history as a reload of the page would show it. *)
Definition persisted_history (st : Storage) : list jsstring :=
  Editor.promptHistory (Editor.mount st).

(** No entry twice, at most [MAX_HISTORY] entries, none of them blank, and
    the stored copy is the history shown. *)
Definition history_ok (e : Editor.T) : Prop :=
  NoDup (Editor.promptHistory e) /\
  (length (Editor.promptHistory e) <= MAX_HISTORY)%nat /\
  Forall (fun p => is_blank p = false) (Editor.promptHistory e) /\
  persisted_history (Editor.localStorage e) = Editor.promptHistory e.

(** The browsing index is [-1] (the field is the user's own text) or the
    position of an entry. *)
Definition index_ok (e : Editor.T) : Prop :=
  (-1 <= Editor.historyIndex e < Z.of_nat (length (Editor.promptHistory e)))%Z.

(** An arrow key pressed with the cursor in the first line of the field. *)
Definition first_line (k : Key) (ev : KeyboardEvent) : Prop :=
  key ev = k /\ currentLineNumber ev = 1%nat.

(** What the field shows while the index is [i]. *)
Definition shown_at (history : list jsstring) (i : Z) : option jsstring :=
  if (i =? -1)%Z then Some [] else at_index history i.

(** ** The lines of the debug log

    [addLog] stores each message behind its time stamp; the log view reads
    the line back with [/^\[([^\]]+)\] (.+)$/], picks the mark of the
    level with a cascade of [startsWith] and removes the level with
    [/^(error|success|warning|progress|info):\s*/]. *)

Definition bracket_open : ascii := ascii_of_nat 91.
Definition bracket_close : ascii := ascii_of_nat 93.
Definition space : ascii := ascii_of_nat 32.
Definition colon : ascii := ascii_of_nat 58.

(** The template literal of [addLog]. *)
Definition addLog_line (timestamp message : jsstring) : jsstring :=
  bracket_open :: timestamp ++ bracket_close :: space :: message.

(** The characters that [.] does not match, among the first 256 code
    units: line feed and carriage return. *)
Definition is_line_terminator (c : ascii) : bool :=
  (nat_of_ascii c =? 10)%nat || (nat_of_ascii c =? 13)%nat.

(** The greedy class [[^\]]+]: the characters up to the first closing
    bracket.  A shorter run is followed by a character of the class, not
    by the bracket the pattern asks for next, so backtracking into the
    run cannot succeed. *)
Fixpoint not_bracket_run (s : jsstring) : jsstring * jsstring :=
  match s with
  | [] => ([], [])
  | c :: s' =>
      if Ascii.eqb c bracket_close then ([], s)
      else let '(run, rest) := not_bracket_run s' in (c :: run, rest)
  end.

(** [log.match(/^\[([^\]]+)\] (.+)$/)]: the two groups, or [None] for
    [null]. *)
Definition timestampMatch (log : jsstring) : option (jsstring * jsstring) :=
  match log with
  | c :: s =>
      if Ascii.eqb c bracket_open then
        match not_bracket_run s with
        | (t :: timestamp, b :: sp :: m :: message) =>
            if Ascii.eqb b bracket_close && Ascii.eqb sp space &&
               forallb (fun c => negb (is_line_terminator c)) (m :: message)
            then Some (t :: timestamp, m :: message)
            else None
        | _ => None
        end
      else None
  | [] => None
  end.

Inductive Level := LevelError | LevelSuccess | LevelWarning | LevelProgress | LevelInfo.

Definition level_name (l : Level) : jsstring :=
  match l with
  | LevelError => js "error"
  | LevelSuccess => js "success"
  | LevelWarning => js "warning"
  | LevelProgress => js "progress"
  | LevelInfo => js "info"
  end.

Definition startsWith (s p : jsstring) : bool := bool_decide (is_Some (strip_prefix p s)).

(** The cascade that chooses [textColor] and [prefix]. *)
Definition level_of (message : jsstring) : option Level :=
  if startsWith message (js "error:") then Some LevelError
  else if startsWith message (js "success:") then Some LevelSuccess
  else if startsWith message (js "warning:") then Some LevelWarning
  else if startsWith message (js "progress:") then Some LevelProgress
  else if startsWith message (js "info:") then Some LevelInfo
  else None.

(** The alternation [(error|success|warning|progress|info)] followed by
    the colon: the alternatives are tried in order, and one that is not
    followed by the colon gives way to the next. *)
Fixpoint strip_level (levels : list Level) (s : jsstring) : option jsstring :=
  match levels with
  | [] => None
  | l :: levels' =>
      match strip_prefix (level_name l ++ [colon]) s with
      | Some rest => Some rest
      | None => strip_level levels' s
      end
  end.

Fixpoint skip_ws (s : jsstring) : jsstring :=
  match s with
  | c :: s' => if is_ws c then skip_ws s' else s
  | [] => []
  end.

(** [message.replace(/^(error|success|warning|progress|info):\s*/, empty)] *)
Definition cleanMessage (message : jsstring) : jsstring :=
  match strip_level [LevelError; LevelSuccess; LevelWarning; LevelProgress; LevelInfo]
          message with
  | Some rest => skip_ws rest
  | None => message
  end.

(** What the log view shows for one line. *)
Inductive LogLine :=
| PlainLine (log : jsstring)
| StampedLine (timestamp : jsstring) (mark : option Level) (text : jsstring).

Definition renderLog (log : jsstring) : LogLine :=
  match timestampMatch log with
  | None => PlainLine log
  | Some (timestamp, message) =>
      StampedLine timestamp (level_of message) (cleanMessage message)
  end.

(** ** The list of models and the cache buttons

    [loadModels] sorts the model ids of the adapter's [model_list] into
    the categories of the selector, chooses the model to select and asks
    the cache for each text model.  Model ids are ASCII; [toLowerCase] is
    modelled on ASCII letters. *)

Definition toLowerCase (s : jsstring) : jsstring :=
  map (fun c =>
         let n := nat_of_ascii c in
         if (65 <=? n)%nat && (n <=? 90)%nat then ascii_of_nat (n + 32) else c) s.

(** The filter [textGenerationModels]. *)
Definition isTextGeneration (model_id : jsstring) : bool :=
  let id := toLowerCase model_id in
  negb (includes id (js "embedding")) &&
  negb (includes id (js "vision")) &&
  negb (includes id (js "clip")).

(** The keys of [categories]. *)
Inductive CategoryKey := Llama | Qwen | Deepseek | Phi | Mistral | Gemma | Other.

Definition CategoryKey_eqb (a b : CategoryKey) : bool :=
  match a, b with
  | Llama, Llama | Qwen, Qwen | Deepseek, Deepseek | Phi, Phi
  | Mistral, Mistral | Gemma, Gemma | Other, Other => true
  | _, _ => false
  end.

(** The cascade of the [forEach] body. *)
Definition category_of (model_id : jsstring) : CategoryKey :=
  let id := toLowerCase model_id in
  if includes id (js "llama") &&
     (includes id (js "3.1") || includes id (js "3.2") ||
      includes id (js "3_1") || includes id (js "3_2"))
  then Llama
  else if includes id (js "qwen") then Qwen
  else if includes id (js "deepseek") then Deepseek
  else if includes id (js "phi") then Phi
  else if includes id (js "mistral") || includes id (js "hermes") then Mistral
  else if includes id (js "gemma") then Gemma
  else Other.

(** [categories]: the list of model ids under each key. *)
Definition Categories := CategoryKey -> list jsstring.

Definition categories_empty : Categories := fun _ => [].

(** [categories[k].models.push(model_id)] *)
Definition push (k : CategoryKey) (model_id : jsstring) (categories : Categories)
    : Categories :=
  fun k' => if CategoryKey_eqb k' k then categories k' ++ [model_id] else categories k'.

Definition categorize (textGenerationModels : list jsstring) : Categories :=
  fold_left (fun categories model_id => push (category_of model_id) model_id categories)
    textGenerationModels categories_empty.

(** A value used as a condition: [undefined], [null] and the empty string
    are falsy. *)
Definition truthy (v : option jsstring) : option jsstring :=
  match v with
  | Some (c :: s) => Some (c :: s)
  | _ => None
  end.

(** [a || b], read for its truthiness. *)
Definition or_else (a b : option jsstring) : option jsstring :=
  match truthy a with
  | Some v => Some v
  | None => truthy b
  end.

(** The expression [defaultModel]; [None] when it is falsy. *)
Definition defaultModel (allModels : list jsstring) (categories : Categories)
    (savedModel : option jsstring) : option jsstring :=
  or_else
    (match truthy savedModel with
     | Some saved => List.find (fun m => str_eqb m saved) allModels
     | None => None
     end)
    (or_else (List.find (fun m => includes m (js "7B")) (categories Qwen))
       (or_else (List.find (fun m => includes m (js "8B")) (categories Llama))
          (or_else (head (categories Mistral)) (head allModels)))).

(** The loop that fills the set [cached]. *)
Fixpoint collect_cached (env : CacheEnv) (models : list jsstring) (cached : gset jsstring)
    : Result (gset jsstring) :=
  match models with
  | [] => Ok cached
  | model_id :: models' =>
      do hit <- hasModelInCache env model_id;
      collect_cached env models' (if hit then cached ∪ {[ model_id ]} else cached)
  end.

Inductive ModelLog :=
| LogFetchFailed
| LogModelSelected (restored : bool) (model : jsstring)
| LogListLoaded
| LogCachedFound (count : nat)
| LogLoadFailed (e : JsError)
| LogCacheDeleted (model : jsstring)
| LogCacheDeleteFailed (e : JsError)
| LogAllCachesDeleted
| LogAllCachesDeleteFailed (e : JsError).

Inductive ModelToast :=
| ToastCacheDeleted
| ToastAllCachesDeleted
| ToastCacheDeleteFailed.

Module Models.

Record T := {
  models : Categories;
  selectedModel : jsstring;
  cachedModels : gset jsstring;
  debugLogs : list ModelLog;
  toasts : list ModelToast
}.

Definition initial : T :=
  {| models := categories_empty; selectedModel := []; cachedModels := ∅;
     debugLogs := []; toasts := [] |}.

Definition setModels (v : Categories) (s : T) : T :=
  {| models := v; selectedModel := selectedModel s; cachedModels := cachedModels s;
     debugLogs := debugLogs s; toasts := toasts s |}.

Definition setSelectedModel (v : jsstring) (s : T) : T :=
  {| models := models s; selectedModel := v; cachedModels := cachedModels s;
     debugLogs := debugLogs s; toasts := toasts s |}.

Definition setCachedModels (f : gset jsstring -> gset jsstring) (s : T) : T :=
  {| models := models s; selectedModel := selectedModel s;
     cachedModels := f (cachedModels s);
     debugLogs := debugLogs s; toasts := toasts s |}.

Definition addLog (l : ModelLog) (s : T) : T :=
  {| models := models s; selectedModel := selectedModel s; cachedModels := cachedModels s;
     debugLogs := debugLogs s ++ [l]; toasts := toasts s |}.

Definition toast (t : ModelToast) (s : T) : T :=
  {| models := models s; selectedModel := selectedModel s; cachedModels := cachedModels s;
     debugLogs := debugLogs s; toasts := toasts s ++ [t] |}.

(** [loadModels].  [model_list] is what the dynamic import gives: it may
    throw, and [prebuiltAppConfig?.model_list] may be missing. *)
Definition loadModels (model_list : Result (option (list jsstring))) (env : CacheEnv)
    (st : Storage) (s : T) : T :=
  match model_list with
  | Throw error => addLog (LogLoadFailed error) s
  | Ok None => addLog LogFetchFailed s
  | Ok (Some allModels) =>
      let textGenerationModels := List.filter isTextGeneration allModels in
      let categories := categorize textGenerationModels in
      let savedModel := model_item st in
      let s :=
        match defaultModel allModels categories savedModel with
        | Some model =>
            let restored :=
              match truthy savedModel with
              | Some saved => str_eqb saved model
              | None => false
              end in
            addLog (LogModelSelected restored model) (setSelectedModel model s)
        | None => s
        end in
      let s := addLog LogListLoaded (setModels categories s) in
      match collect_cached env textGenerationModels ∅ with
      | Ok cached =>
          addLog (LogCachedFound (base.size cached)) (setCachedModels (fun _ => cached) s)
      | Throw error => addLog (LogLoadFailed error) s
      end
  end.

(** The part of [handleModelChange] that selects and stores the model. *)
Definition handleModelChange (value : jsstring) (s : T) (st : Storage) : T * Storage :=
  (setSelectedModel value s, Editor.store_model value st).

Definition handleDeleteCache (env : CacheEnv) (modelId : jsstring) (s : T) : T :=
  match deleteModelCache env modelId with
  | Ok _ =>
      let s := setCachedModels (fun prev => prev ∖ {[ modelId ]}) s in
      toast ToastCacheDeleted (addLog (LogCacheDeleted modelId) s)
  | Throw error =>
      toast ToastCacheDeleteFailed (addLog (LogCacheDeleteFailed error) s)
  end.

Definition handleDeleteAllCache (env : CacheEnv) (s : T) : T :=
  match deleteAllModelCache env with
  | Ok _ =>
      let s := setCachedModels (fun _ => ∅) s in
      toast ToastAllCachesDeleted (addLog LogAllCachesDeleted s)
  | Throw error =>
      toast ToastCacheDeleteFailed (addLog (LogAllCachesDeleteFailed error) s)
  end.

End Models.

(** *** [deleteAllModelCache] and the items of the component

    [localStorage.clear()] removes every item of the origin, those of the
    component among them.  It is the third step of [deleteAllModelCache]
    and is reached when the first two have not thrown; when the call
    itself throws, the items are taken to be as before. *)
Definition deleteAllModelCache_storage (env : CacheEnv) (st : Storage) : Storage :=
  match (do _a <- clearIndexedDB env; clearCacheStorage env) with
  | Ok _ =>
      if localStorage_defined env then
        match localStorage_clear env with
        | Ok _ => storage_empty
        | Throw _ => st
        end
      else st
  | Throw _ => st
  end.

(** *** Further sample runs *)

(** A component whose hook holds engine 7 for model m1. *)
Definition sample_loaded : @State simple_externals :=
  @set_hook simple_externals (fun _ => loaded_hook) (@state_init simple_externals).

(** The state that an iteration leaves. *)
Definition step_state `{Externals} (st : Step) : State :=
  match st with
  | Continue s | Return _ s => s
  end.

(** Stop is pressed in the middle of a block; the interrupted stream ends
    normally, without a block. *)
Definition stop_then_end (_ : nat) : AttemptEnv :=
  streaming [Chunk (js "<svg><circ"); UserStop] None.

(** The state in which the second iteration of that run begins. *)
Definition sample_stopped : @State simple_externals :=
  @step_state simple_externals
    (@iteration simple_externals (stop_then_end 1) sample_params sample_start).

(** Stop is pressed while the engine is created; the model then answers
    with a block, and both buttons are pressed once more. *)
Definition stopped_while_loading (_ : nat) : AttemptEnv :=
  {| creation := [Report (js "Loading model"); Acted PressStop; Report (js "Finish loading")];
     creation_result := Ok 1%nat;
     chat_create_error := None;
     stream_events := [Chunk (js "<svg></svg>"); UserStop; UserSkip];
     stream_end := None |}.

(** The model is changed while a block streams, then stop is pressed; the
    stream ends normally. *)
Definition change_then_stop (_ : nat) : AttemptEnv :=
  streaming [Chunk (js "<svg>"); UserChangeModel (js "m2"); Chunk (js "</svg>"); UserStop]
    None.

(** The model is changed during the first attempt, in which the model
    answers without graphics, as it does in every attempt. *)
Definition change_in_first (n : nat) : AttemptEnv :=
  if (n <? 2)%nat
  then streaming [Chunk (js "no graphics here"); UserChangeModel (js "m2")] None
  else no_graphics n.

(** The first attempt of a sample run after one block has streamed. *)
Definition sample_preview : @State simple_externals :=
  @onChunk simple_externals (js "<svg>1</svg>") sample_begun.

(** The state and the exit with which a sample run returns. *)
Definition sample_result (envs : nat -> AttemptEnv) : @State simple_externals :=
  match @handleGenerate simple_externals envs sample_params (@state_init simple_externals) with
  | Some (_, s') => s'
  | None => @state_init simple_externals
  end.

Definition sample_exit (envs : nat -> AttemptEnv) : Exit :=
  match @handleGenerate simple_externals envs sample_params (@state_init simple_externals) with
  | Some (e, _) => e
  | None => ExitMaxRetries
  end.

(** A first visit on which two prompts are submitted. *)
Definition sample_history : Editor.T :=
  Editor.run
    [Editor.Type_ (js "a cat"); Editor.ClickGenerate (js "m1");
     Editor.Type_ (js "a dog"); Editor.ClickGenerate (js "m1")]
    (Editor.mount storage_empty).

(** What the key handler holds of the first render. *)
Definition first_render : Render :=
  {| render_prompt := Some []; render_model := js "m1" |}.

(** The arrow keys, pressed in an empty field. *)
Definition arrow_up : KeyboardEvent :=
  {| key := ArrowUp; ctrlKey := false; value := []; selectionStart := 0 |}.

Definition arrow_down : KeyboardEvent :=
  {| key := ArrowDown; ctrlKey := false; value := []; selectionStart := 0 |}.

(** The history browsed up to its oldest entry. *)
Definition sample_browsed : Editor.T :=
  Editor.run (map (Editor.KeyDown false false first_render) [arrow_up; arrow_up]) sample_history.

(** A visit with every kind of action. *)
Definition sample_actions : list Editor.Action :=
  [Editor.Type_ (js "a cat"); Editor.ClickGenerate (js "m1");
   Editor.Type_ (js "a dog");
   Editor.KeyDown false false {| render_prompt := Some (js "a dog"); render_model := js "m1" |}
     {| key := Enter; ctrlKey := true; value := js "a dog"; selectionStart := 5 |};
   Editor.KeyDown false false first_render arrow_up;
   Editor.ClickGenerate (js "m1");
   Editor.ClickEntry 1; Editor.ClickDelete 0; Editor.Reload; Editor.ClickClear].

(** *** Vocabulary for the cache operations

    Each of the five steps of [deleteAllModelCache] passes when the
    storage it clears does not exist or every call it makes returns. *)

Definition databases_pass (env : CacheEnv) : Prop :=
  indexedDB_defined env = true ->
  exists names,
    indexedDB_databases env = Ok names /\
    forall name, In name names -> exists request, indexedDB_deleteDatabase env name = Ok request.

Definition caches_pass (env : CacheEnv) : Prop :=
  caches_defined env = true ->
  exists names,
    caches_keys env = Ok names /\
    forall name, In name names -> exists deleted, caches_delete env name = Ok deleted.

Definition localStorage_passes (env : CacheEnv) : Prop :=
  localStorage_defined env = true -> localStorage_clear env = Ok tt.

Definition sessionStorage_passes (env : CacheEnv) : Prop :=
  sessionStorage_defined env = true -> sessionStorage_clear env = Ok tt.

Definition workers_pass (env : CacheEnv) : Prop :=
  serviceWorker_defined env = true ->
  exists registrations,
    serviceWorker_getRegistrations env = Ok registrations /\
    forall r, In r registrations -> exists done, registration_unregister env r = Ok done.

(** The storage layer in which the requests that [indexedDB.deleteDatabase]
    returns report [outcome] instead. *)
Definition with_requests (outcome : jsstring -> Result unit) (env : CacheEnv) : CacheEnv :=
  {| adapter_hasModelInCache := adapter_hasModelInCache env;
     adapter_deleteModelInCache := adapter_deleteModelInCache env;
     caches_defined := caches_defined env;
     caches_keys := caches_keys env;
     caches_delete := caches_delete env;
     indexedDB_defined := indexedDB_defined env;
     indexedDB_databases := indexedDB_databases env;
     indexedDB_deleteDatabase := fun name =>
       match indexedDB_deleteDatabase env name with
       | Ok _ => Ok (outcome name)
       | Throw e => Throw e
       end;
     localStorage_defined := localStorage_defined env;
     localStorage_clear := localStorage_clear env;
     sessionStorage_defined := sessionStorage_defined env;
     sessionStorage_clear := sessionStorage_clear env;
     serviceWorker_defined := serviceWorker_defined env;
     serviceWorker_getRegistrations := serviceWorker_getRegistrations env;
     registration_unregister := registration_unregister env |}.

(** A storage layer with two databases and two service workers:
    [indexedDB.deleteDatabase] does what [delete_second] says for the
    second database, and the second worker is unregistered as
    [unregister_second] says. *)
Definition two_databases (delete_second : Result (Result unit))
    (unregister_second : Result bool) : CacheEnv :=
  {| adapter_hasModelInCache := fun _ => Ok true;
     adapter_deleteModelInCache := fun _ => Ok tt;
     caches_defined := true;
     caches_keys := Ok [js "webllm/model"];
     caches_delete := fun _ => Ok true;
     indexedDB_defined := true;
     indexedDB_databases := Ok [js "webllm"; js "webllm/wasm"];
     indexedDB_deleteDatabase := fun name =>
       if str_eqb name (js "webllm") then Ok (Ok tt) else delete_second;
     localStorage_defined := true;
     localStorage_clear := Ok tt;
     sessionStorage_defined := true;
     sessionStorage_clear := Ok tt;
     serviceWorker_defined := true;
     serviceWorker_getRegistrations := Ok [1%nat; 2%nat];
     registration_unregister := fun r =>
       if (r =? 1)%nat then Ok true else unregister_second |}.

(** A storage layer in which clearing [sessionStorage] throws and every
    other call succeeds. *)
Definition session_fails : CacheEnv :=
  {| adapter_hasModelInCache := fun _ => Ok true;
     adapter_deleteModelInCache := fun _ => Ok tt;
     caches_defined := true;
     caches_keys := Ok [js "webllm/model"];
     caches_delete := fun _ => Ok true;
     indexedDB_defined := true;
     indexedDB_databases := Ok [js "webllm"];
     indexedDB_deleteDatabase := fun _ => Ok (Ok tt);
     localStorage_defined := true;
     localStorage_clear := Ok tt;
     sessionStorage_defined := true;
     sessionStorage_clear := Throw network_error;
     serviceWorker_defined := true;
     serviceWorker_getRegistrations := Ok [];
     registration_unregister := fun _ => Ok true |}.

(** The selector with one model marked as cached. *)
Definition sample_models : Models.T :=
  Models.setCachedModels (fun _ => {[ js "m1" ]}) Models.initial.

(** *** Vocabulary for the stored prompt *)

(** A reload of the page shows the prompt that the field shows now. *)
Definition prompt_persisted (e : Editor.T) : Prop :=
  Editor.prompt (Editor.mount (Editor.localStorage e)) = Editor.prompt e.

(** The actions other than choosing an entry of the history, with the
    arrow keys or in the dialog. *)
Definition keeps_prompt (a : Editor.Action) : bool :=
  match a with
  | Editor.ClickEntry _ => false
  | Editor.KeyDown _ _ _ ev =>
      match key ev with
      | ArrowUp | ArrowDown => false
      | _ => true
      end
  | _ => true
  end.

(** A storage layer with the caches of two models; deleting the cache of
    the second model does what [delete_other] says. *)
Definition two_caches (delete_other : Result bool) : CacheEnv :=
  {| adapter_hasModelInCache := fun _ => Ok true;
     adapter_deleteModelInCache := fun _ => Ok tt;
     caches_defined := true;
     caches_keys := Ok [js "webllm/model/m1"; js "webllm/model/m2"];
     caches_delete := fun cacheName =>
       if includes cacheName (js "m1") then Ok true else delete_other;
     indexedDB_defined := true;
     indexedDB_databases := Ok [js "webllm"];
     indexedDB_deleteDatabase := fun _ => Ok (Ok tt);
     localStorage_defined := true;
     localStorage_clear := Ok tt;
     sessionStorage_defined := true;
     sessionStorage_clear := Ok tt;
     serviceWorker_defined := true;
     serviceWorker_getRegistrations := Ok [];
     registration_unregister := fun _ => Ok true |}.

(** * Properties *)

(** ** The patterns on sample texts *)

Example svg_matches_two :
  svg_matches (js "a<SVG x>1</svg>b<svg>2</sVg>c<svg") =
  [js "<SVG x>1</svg>"; js "<svg>2</sVg>"].
Proof. vm_compute. reflexivity. Qed.

Example svg_matches_nested :
  svg_matches (js "<svg><svg></svg></svg>") = [js "<svg><svg></svg>"].
Proof. vm_compute. reflexivity. Qed.

Example match_viewBox_ex :
  option_map split_ws (match_viewBox (js "<svg VIEWBOX='0 0  32 32'>")) =
  Some [js "0"; js "0"; js "32"; js "32"].
Proof. vm_compute. reflexivity. Qed.

Example split_ws_leading : split_ws (js " a b ") = [js ""; js "a"; js "b"; js ""].
Proof. vm_compute. reflexivity. Qed.

(** ** Literals and the lazy quantifier *)

Lemma ci_equal_length p m : ci_equal p m -> length m = length p.
Proof. intros Hpm. symmetry. exact (Forall2_length _ _ _ Hpm). Qed.

Lemma match_lit_sound p : forall s m r,
  match_lit p s = Some (m, r) -> s = m ++ r /\ ci_equal p m.
Proof.
  induction p as [|pc p IH]; intros s m r Hm; simpl in Hm.
  - inversion Hm; subst. split; [reflexivity | constructor].
  - destruct s as [|c s]; [discriminate|].
    destruct (ci_eqb pc c) eqn:Hc; [|discriminate].
    destruct (match_lit p s) as [[m' r']|] eqn:Hrec; [|discriminate].
    inversion Hm; subst. destruct (IH _ _ _ Hrec) as [-> Hci].
    split; [reflexivity | constructor; assumption].
Qed.

Lemma match_lit_complete p : forall m r,
  ci_equal p m -> match_lit p (m ++ r) = Some (m, r).
Proof.
  induction p as [|pc p IH]; intros m r Hci; inversion Hci; subst; simpl.
  - reflexivity.
  - rewrite H1. rewrite (IH _ r H3). reflexivity.
Qed.

Lemma find_lit_eq p s :
  find_lit p s =
  match match_lit p s with
  | Some _ => true
  | None => match s with [] => false | _ :: s' => find_lit p s' end
  end.
Proof. destruct s; reflexivity. Qed.

Lemma find_lit_false p : forall s, find_lit p s = false -> ~ occurs p s.
Proof.
  intros s Hf (pre & m & post & -> & Hci). revert Hf.
  induction pre as [|x pre IH].
  - rewrite find_lit_eq. simpl app.
    rewrite (match_lit_complete p m post Hci). discriminate.
  - rewrite find_lit_eq. simpl app.
    destruct (match_lit p (x :: pre ++ m ++ post)); [discriminate | exact IH].
Qed.

(** A prefix of [a ++ r] no longer than [a] is a prefix of [a]. *)
Lemma prefix_within (a r m r' : jsstring) :
  a ++ r = m ++ r' -> length m <= length a -> exists post, a = m ++ post /\ r' = post ++ r.
Proof.
  revert m. induction a as [|x a IH]; intros m Heq Hlen.
  - destruct m; [|simpl in Hlen; lia]. exists []. simpl in *. auto.
  - destruct m as [|y m].
    + exists (x :: a). simpl in *. auto.
    + simpl in *. inversion Heq; subst.
      destruct (IH m H1 ltac:(lia)) as (post & -> & ->).
      exists post. auto.
Qed.

Lemma first_close_tail x t : first_close (x :: t) -> first_close t.
Proof.
  intros Hf pre m post Heq Hci. apply (Hf (x :: pre) m post); [|assumption].
  simpl. rewrite Heq. reflexivity.
Qed.

Lemma match_lazy_until_eq p s :
  match_lazy_until p s =
  match match_lit p s with
  | Some (m, r) => Some (m, r)
  | None =>
      match s with
      | [] => None
      | c :: s' =>
          match match_lazy_until p s' with
          | Some (m, r) => Some (c :: m, r)
          | None => None
          end
      end
  end.
Proof. destruct s; reflexivity. Qed.

Lemma match_lazy_until_block : forall body c rest,
  ci_equal svg_close c -> first_close (body ++ c) ->
  match_lazy_until svg_close (body ++ c ++ rest) = Some (body ++ c, rest).
Proof.
  induction body as [|x body IH]; intros c rest Hci Hfirst.
  - rewrite match_lazy_until_eq. simpl app.
    rewrite (match_lit_complete svg_close c rest Hci). reflexivity.
  - rewrite match_lazy_until_eq.
    change ((x :: body) ++ c ++ rest) with (x :: (body ++ c ++ rest)).
    destruct (match_lit svg_close (x :: body ++ c ++ rest)) as [[m r]|] eqn:Hm.
    + exfalso. apply match_lit_sound in Hm as [Heq Hcm].
      assert (Hlen : length m <= length ((x :: body) ++ c)).
      { rewrite (ci_equal_length _ _ Hcm), length_app, (ci_equal_length _ _ Hci). lia. }
      destruct (prefix_within ((x :: body) ++ c) rest m r) as (post & Hsplit & _).
      { rewrite <- app_assoc. exact Heq. }
      { exact Hlen. }
      assert (post = []) as ->.
      { apply (Hfirst [] m post); [exact Hsplit | exact Hcm]. }
      rewrite app_nil_r in Hsplit. apply (f_equal length) in Hsplit.
      rewrite (ci_equal_length _ _ Hcm) in Hsplit.
      simpl in Hsplit. rewrite length_app, (ci_equal_length _ _ Hci) in Hsplit.
      change (length svg_close) with 6 in Hsplit. lia.
    + rewrite (IH c rest Hci (first_close_tail _ _ Hfirst)). reflexivity.
Qed.

Lemma match_lazy_until_sound : forall s m r,
  match_lazy_until svg_close s = Some (m, r) ->
  s = m ++ r /\ exists body c, m = body ++ c /\ ci_equal svg_close c /\ first_close m.
Proof.
  induction s as [|x s IH]; intros m r Hm; rewrite match_lazy_until_eq in Hm.
  - discriminate.
  - destruct (match_lit svg_close (x :: s)) as [[m0 r0]|] eqn:Hlit.
    + inversion Hm; subst. apply match_lit_sound in Hlit as [Heq Hci].
      split; [exact Heq|]. exists [], m. repeat split; [assumption|].
      intros pre m' post Hsplit Hci'. apply (f_equal length) in Hsplit.
      rewrite !length_app, (ci_equal_length _ _ Hci), (ci_equal_length _ _ Hci') in Hsplit.
      destruct post; [reflexivity | simpl in Hsplit; lia].
    + destruct (match_lazy_until svg_close s) as [[m1 r1]|] eqn:Hrec; [|discriminate].
      inversion Hm; subst. destruct (IH _ _ eq_refl) as (-> & body & c & -> & Hci & Hfirst).
      split; [reflexivity|]. exists (x :: body), c. repeat split; [assumption|].
      intros pre m' post Hsplit Hci'. destruct pre as [|y pre].
      * exfalso. simpl in Hsplit.
        assert (Hl : match_lit svg_close (m' ++ (post ++ r)) = Some (m', post ++ r))
          by (apply match_lit_complete; assumption).
        rewrite app_assoc, <- Hsplit in Hl.
        change ((x :: body ++ c) ++ r) with (x :: (body ++ c) ++ r) in Hl. congruence.
      * simpl in Hsplit. inversion Hsplit; subst. eapply Hfirst; eauto.
Qed.

(** ** One match of the block pattern *)

Lemma svg_here_block b rest :
  svg_block b -> svg_here (b ++ rest) = Some (b, rest).
Proof.
  intros (o & body & c & -> & Ho & Hc & Hfirst). unfold svg_here.
  replace ((o ++ body ++ c) ++ rest) with (o ++ body ++ c ++ rest)
    by (rewrite <- !app_assoc; reflexivity).
  rewrite (match_lit_complete _ _ _ Ho).
  rewrite (match_lazy_until_block body c rest Hc Hfirst).
  reflexivity.
Qed.

Lemma svg_here_sound s m r :
  svg_here s = Some (m, r) -> s = m ++ r /\ svg_block m.
Proof.
  unfold svg_here. intros Hm.
  destruct (match_lit svg_open s) as [[o s1]|] eqn:Ho; [|discriminate].
  destruct (match_lazy_until svg_close s1) as [[m1 r1]|] eqn:Hl; [|discriminate].
  inversion Hm; subst. apply match_lit_sound in Ho as [-> Ho].
  apply match_lazy_until_sound in Hl as (-> & body & c & -> & Hc & Hfirst).
  split; [rewrite <- !app_assoc; reflexivity|].
  exists o, body, c. auto.
Qed.

Lemma svg_exec_eq s :
  svg_exec s =
  match svg_here s with
  | Some (m, r) => Some ([], m, r)
  | None =>
      match s with
      | [] => None
      | c :: s' =>
          match svg_exec s' with
          | Some (pre, m, r) => Some (c :: pre, m, r)
          | None => None
          end
      end
  end.
Proof. destruct s; reflexivity. Qed.

Lemma svg_exec_sound : forall s pre m r,
  svg_exec s = Some (pre, m, r) -> s = pre ++ m ++ r /\ svg_block m.
Proof.
  induction s as [|x s IH]; intros pre m r He; rewrite svg_exec_eq in He.
  - destruct (svg_here []) as [[m0 r0]|] eqn:Hh; [|discriminate].
    inversion He; subst. exact (svg_here_sound _ _ _ Hh).
  - destruct (svg_here (x :: s)) as [[m0 r0]|] eqn:Hh.
    + inversion He; subst. exact (svg_here_sound _ _ _ Hh).
    + destruct (svg_exec s) as [[[pre1 m1] r1]|]; [|discriminate].
      inversion He; subst. destruct (IH _ _ _ eq_refl) as [-> Hb].
      split; [reflexivity | assumption].
Qed.

Lemma svg_exec_finds : forall pre b post,
  svg_block b -> svg_exec (pre ++ b ++ post) <> None.
Proof.
  induction pre as [|x pre IH]; intros b post Hb; rewrite svg_exec_eq.
  - simpl app. rewrite (svg_here_block b post Hb). discriminate.
  - change ((x :: pre) ++ b ++ post) with (x :: (pre ++ b ++ post)).
    destruct (svg_here (x :: pre ++ b ++ post)) as [[m r]|]; [discriminate|].
    specialize (IH b post Hb).
    destruct (svg_exec (pre ++ b ++ post)) as [[[pre1 m1] r1]|]; [discriminate | contradiction].
Qed.

Lemma svg_exec_none_iff s : svg_exec s = None <-> no_block s.
Proof.
  split.
  - intros Hn pre b post -> Hb. exact (svg_exec_finds pre b post Hb Hn).
  - intros Hno. destruct (svg_exec s) as [[[pre m] r]|] eqn:He; [|reflexivity].
    apply svg_exec_sound in He as [-> Hb]. exfalso. exact (Hno pre m r eq_refl Hb).
Qed.

Lemma ci_lt_inv a : ci_eqb "<" a = true -> a = "<"%char.
Proof.
  destruct a as [[] [] [] [] [] [] [] []]; vm_compute; intros Hc;
    first [reflexivity | discriminate Hc].
Qed.

(** The opening tag has no border: an occurrence cannot start in a gap
    and end inside the opening tag that follows the gap. *)
Lemma open_not_across x gap o rest :
  ~ occurs svg_open (x :: gap) -> ci_equal svg_open o ->
  match_lit svg_open ((x :: gap) ++ o ++ rest) = None.
Proof.
  intros Hgap Ho.
  destruct (match_lit svg_open ((x :: gap) ++ o ++ rest)) as [[m r]|] eqn:Hm;
    [exfalso | reflexivity].
  unfold svg_open, js in Ho. simpl in Ho.
  inversion Ho as [|? o0 ? o' H0 Ho1]; subst.
  inversion Ho1 as [|? o1 ? o'' H1 Ho2]; subst.
  inversion Ho2 as [|? o2 ? o''' H2 Ho3]; subst.
  inversion Ho3 as [|? o3 ? o4 H3 Ho4]; subst.
  inversion Ho4; subst.
  apply ci_lt_inv in H0 as ->.
  destruct gap as [|y [|z [|w gap]]]; unfold svg_open, js in Hm; simpl in Hm.
  - destruct (ci_eqb "<" x); [|discriminate].
    change (ci_eqb "s" "<") with false in Hm. discriminate.
  - destruct (ci_eqb "<" x); [|discriminate].
    destruct (ci_eqb "s" y); [|discriminate].
    change (ci_eqb "v" "<") with false in Hm. discriminate.
  - destruct (ci_eqb "<" x); [|discriminate].
    destruct (ci_eqb "s" y); [|discriminate].
    destruct (ci_eqb "v" z); [|discriminate].
    change (ci_eqb "g" "<") with false in Hm. discriminate.
  - destruct (ci_eqb "<" x) eqn:Hx; [|discriminate].
    destruct (ci_eqb "s" y) eqn:Hy; [|discriminate].
    destruct (ci_eqb "v" z) eqn:Hz; [|discriminate].
    destruct (ci_eqb "g" w) eqn:Hw; [|discriminate].
    apply Hgap. exists [], [x; y; z; w], gap. split; [reflexivity|].
    unfold ci_equal, svg_open, js. simpl. repeat constructor; assumption.
Qed.

Lemma not_occurs_tail p x s : ~ occurs p (x :: s) -> ~ occurs p s.
Proof.
  intros Hn (pre & m & post & -> & Hci). apply Hn.
  exists (x :: pre), m, post. split; [reflexivity | assumption].
Qed.

Lemma svg_exec_gap : forall gap b rest,
  ~ occurs svg_open gap -> svg_block b ->
  svg_exec (gap ++ b ++ rest) = Some (gap, b, rest).
Proof.
  induction gap as [|x gap IH]; intros b rest Hgap Hb; rewrite svg_exec_eq.
  - simpl app. rewrite (svg_here_block b rest Hb). reflexivity.
  - assert (Hnone : svg_here ((x :: gap) ++ b ++ rest) = None).
    { destruct Hb as (o & body & c & -> & Ho & _). unfold svg_here.
      replace ((x :: gap) ++ (o ++ body ++ c) ++ rest)
        with ((x :: gap) ++ o ++ (body ++ c ++ rest))
        by (rewrite <- !app_assoc; reflexivity).
      rewrite (open_not_across x gap o _ Hgap Ho). reflexivity. }
    rewrite Hnone.
    change ((x :: gap) ++ b ++ rest) with (x :: (gap ++ b ++ rest)). lazy beta iota.
    rewrite (IH b rest (not_occurs_tail _ _ _ Hgap) Hb). reflexivity.
Qed.

(** ** All matches *)

Lemma svg_block_length b : svg_block b -> 0 < length b.
Proof.
  intros (o & body & c & -> & Ho & _). rewrite length_app, (ci_equal_length _ _ Ho).
  change (length svg_open) with 4. lia.
Qed.

Lemma svg_matches_from_enough : forall f1 f2 s,
  length s <= f1 -> length s <= f2 ->
  svg_matches_from f1 s = svg_matches_from f2 s.
Proof.
  induction f1 as [|f1 IH]; intros f2 s H1 H2.
  - destruct s; [|simpl in H1; lia]. destruct f2; reflexivity.
  - destruct f2 as [|f2].
    + destruct s; [reflexivity | simpl in H2; lia].
    + simpl. destruct (svg_exec s) as [[[pre m] r]|] eqn:He; [|reflexivity].
      apply svg_exec_sound in He as [-> Hb]. apply svg_block_length in Hb.
      rewrite !length_app in H1, H2. f_equal. apply IH; lia.
Qed.

Lemma svg_matches_eq s :
  svg_matches s =
  match svg_exec s with
  | None => []
  | Some (_, m, r) => m :: svg_matches r
  end.
Proof.
  unfold svg_matches. destruct s as [|x s].
  - reflexivity.
  - change (length (x :: s)) with (S (length s)).
    cbn [svg_matches_from].
    destruct (svg_exec (x :: s)) as [[[pre m] r]|] eqn:He; [|reflexivity].
    apply svg_exec_sound in He as [Heq Hb]. apply svg_block_length in Hb.
    apply (f_equal length) in Heq. rewrite !length_app in Heq. simpl in Heq.
    f_equal. apply svg_matches_from_enough; lia.
Qed.

Lemma svg_matches_assemble : forall parts tail,
  Forall (fun gb => ~ occurs svg_open (fst gb) /\ svg_block (snd gb)) parts ->
  no_block tail ->
  svg_matches (assemble parts tail) = map snd parts.
Proof.
  induction parts as [|[gap b] parts IH]; intros tail Hparts Htail.
  - simpl. rewrite svg_matches_eq.
    apply svg_exec_none_iff in Htail. rewrite Htail. reflexivity.
  - inversion Hparts as [|? ? [Hgap Hb] Hrest]; subst. simpl in Hgap, Hb.
    simpl. rewrite svg_matches_eq, (svg_exec_gap gap b _ Hgap Hb).
    rewrite (IH tail Hrest Htail). reflexivity.
Qed.

(** Every match is a block of the buffer. *)
Lemma svg_matches_from_sub : forall fuel s m,
  In m (svg_matches_from fuel s) ->
  exists pre post, s = pre ++ m ++ post /\ svg_block m.
Proof.
  induction fuel as [|fuel IH]; intros s m Hin; simpl in Hin; [destruct Hin|].
  destruct (svg_exec s) as [[[pre0 m0] r]|] eqn:He; [|destruct Hin].
  apply svg_exec_sound in He as [-> Hb]. destruct Hin as [<-|Hin].
  - exists pre0, r. auto.
  - destruct (IH r m Hin) as (pre & post & -> & Hm).
    exists (pre0 ++ m0 ++ pre), post. split; [|exact Hm].
    rewrite <- !app_assoc. reflexivity.
Qed.

(** ** The component: what each step leaves alone *)

Section Properties.

Context `{Externals}.

Lemma addLog_logs m (s : State) :
  addLog m s = setDebugLogs (fun _ => debugLogs s ++ [m]) s.
Proof. destruct s; reflexivity. Qed.

Lemma setDebugLogs_twice (l1 l2 : list LogEntry) (s : State) :
  setDebugLogs (fun _ => l2) (setDebugLogs (fun _ => l1) s) = setDebugLogs (fun _ => l2) s.
Proof. destruct s; reflexivity. Qed.

Lemma setDebugLogs_same (s : State) :
  setDebugLogs (fun _ => debugLogs s ++ []) s = s.
Proof. destruct s; unfold setDebugLogs; simpl. rewrite app_nil_r. reflexivity. Qed.

Lemma onChunk_loop_view chunk (s : State) : loop_view (onChunk chunk s) = loop_view s.
Proof.
  unfold onChunk. destruct chunk as [|c chunk]; [reflexivity|].
  destruct (match_svg _) as [ms|]; [destruct (0 <? length ms)%nat|]; reflexivity.
Qed.

Lemma onChunk_stop_view chunk (s : State) : stop_view (onChunk chunk s) = stop_view s.
Proof.
  unfold onChunk. destruct chunk as [|c chunk]; [reflexivity|].
  destruct (match_svg _) as [ms|]; [destruct (0 <? length ms)%nat|]; reflexivity.
Qed.

Lemma onChunk_hook chunk (s : State) : hook (onChunk chunk s) = hook s.
Proof.
  unfold onChunk. destruct chunk as [|c chunk]; [reflexivity|].
  destruct (match_svg _) as [ms|]; [destruct (0 <? length ms)%nat|]; reflexivity.
Qed.

Lemma handleStop_loop_view (s : State) : loop_view (handleStop s) = loop_view s.
Proof. unfold handleStop. destruct (abortControllerRef s); reflexivity. Qed.

Lemma handleRetry_loop_view (s : State) : loop_view (handleRetry s) = loop_view s.
Proof. unfold handleRetry. destruct (abortControllerRef s); reflexivity. Qed.

Lemma handleRetry_stop_view (s : State) : stop_view (handleRetry s) = stop_view s.
Proof. unfold handleRetry. destruct (abortControllerRef s); reflexivity. Qed.

Lemma userAction_loop_view a (s : State) : loop_view (userAction a s) = loop_view s.
Proof.
  destruct a; cbn [userAction];
    [apply handleStop_loop_view | apply handleRetry_loop_view | reflexivity].
Qed.

Lemma userAction_stop_view a (s : State) :
  a <> PressStop -> stop_view (userAction a s) = stop_view s.
Proof.
  destruct a; cbn [userAction]; intros Hne;
    [contradiction | apply handleRetry_stop_view | reflexivity].
Qed.

Lemma run_stream_loop_view signal events ending : forall full (s : State),
  loop_view (fst (run_stream signal events ending full s)) = loop_view s.
Proof.
  induction events as [|[content|a] events IH]; intros full s; simpl.
  - destruct ending; reflexivity.
  - destruct (signal_aborted signal); [reflexivity|].
    rewrite IH. apply onChunk_loop_view.
  - rewrite IH. apply userAction_loop_view.
Qed.

Lemma run_stream_stop_view signal events ending : forall full (s : State),
  ~ In UserStop events ->
  stop_view (fst (run_stream signal events ending full s)) = stop_view s.
Proof.
  induction events as [|[content|a] events IH]; intros full s Hno; simpl.
  - destruct ending; reflexivity.
  - destruct (signal_aborted signal); [reflexivity|].
    rewrite IH by (intros Hin; apply Hno; right; exact Hin).
    apply onChunk_stop_view.
  - rewrite IH by (intros Hin; apply Hno; right; exact Hin).
    apply userAction_stop_view. intros ->. apply Hno. left. reflexivity.
Qed.

Lemma run_waiting_loop_view events : forall s : State,
  loop_view (run_waiting events s) = loop_view s.
Proof.
  induction events as [|[content|a] events IH]; intros s; simpl.
  - reflexivity.
  - apply IH.
  - rewrite IH. apply userAction_loop_view.
Qed.

Lemma run_waiting_stop_view events : forall s : State,
  ~ In UserStop events -> stop_view (run_waiting events s) = stop_view s.
Proof.
  induction events as [|[content|a] events IH]; intros s Hno; simpl.
  - reflexivity.
  - apply IH. intros Hin. apply Hno. right. exact Hin.
  - rewrite IH by (intros Hin; apply Hno; right; exact Hin).
    apply userAction_stop_view. intros ->. apply Hno. left. reflexivity.
Qed.

Lemma run_creation_loop_view events : forall s : State,
  loop_view (run_creation events s) = loop_view s.
Proof.
  induction events as [|[text|a] events IH]; intros s; simpl.
  - reflexivity.
  - rewrite IH. reflexivity.
  - rewrite IH. apply userAction_loop_view.
Qed.

Lemma run_creation_stop_view events : forall s : State,
  ~ In (Acted PressStop) events -> stop_view (run_creation events s) = stop_view s.
Proof.
  induction events as [|[text|a] events IH]; intros s Hno; simpl.
  - reflexivity.
  - rewrite IH by (intros Hin; apply Hno; right; exact Hin). reflexivity.
  - rewrite IH by (intros Hin; apply Hno; right; exact Hin).
    apply userAction_stop_view. intros ->. apply Hno. left. reflexivity.
Qed.

(** The result of [initializeEngine], whatever the user does meanwhile,
    is the one the hook's function gives. *)
Lemma initializeEngine_await_result env modelId signal (s : State) :
  snd (initializeEngine_await env modelId signal s) =
  snd (initializeEngine (attempt_create env) modelId signal (hook s)).
Proof.
  unfold initializeEngine_await, initializeEngine.
  destruct (reusable_engine (hook s) modelId); [reflexivity|].
  destruct (signal_aborted signal); [reflexivity|]. cbn [attempt_create create_result].
  destruct (creation_result env); reflexivity.
Qed.

Lemma initializeEngine_await_loop_view env modelId signal (s : State) :
  loop_view (fst (initializeEngine_await env modelId signal s)) = loop_view s.
Proof.
  unfold initializeEngine_await.
  destruct (reusable_engine (hook s) modelId); [reflexivity|].
  destruct (signal_aborted signal); [reflexivity|].
  destruct (creation_result env); cbn [fst];
    unfold loop_view; cbn [set_hook attempt nextControllerId selectedSVGIndex cachedModels];
    fold (loop_view (run_creation (creation env)
            (set_hook (fun h => record_call (CreateMLCEngine modelId)
                                  (set_isInitializing true h)) s)));
    rewrite run_creation_loop_view; reflexivity.
Qed.

Lemma initializeEngine_await_stop_view env modelId signal (s : State) :
  ~ In (Acted PressStop) (creation env) ->
  stop_view (fst (initializeEngine_await env modelId signal s)) = stop_view s.
Proof.
  intros Hno. unfold initializeEngine_await.
  destruct (reusable_engine (hook s) modelId); [reflexivity|].
  destruct (signal_aborted signal); [reflexivity|].
  destruct (creation_result env); cbn [fst];
    unfold stop_view; cbn [set_hook shouldStopRef abortControllerRef];
    fold (stop_view (run_creation (creation env)
            (set_hook (fun h => record_call (CreateMLCEngine modelId)
                                  (set_isInitializing true h)) s)));
    rewrite run_creation_stop_view by exact Hno; reflexivity.
Qed.

(** The response of a stream that runs to its end is the concatenation of
    its fragments. *)
Lemma run_stream_result signal events ending : forall full (s : State),
  signal_aborted signal = false ->
  snd (run_stream signal events ending full s) =
  match ending with
  | None => Ok (full ++ streamed_text events)
  | Some e => Throw e
  end.
Proof.
  induction events as [|[content|a] events IH]; intros full s Hsig; simpl.
  - destruct ending; [reflexivity | rewrite app_nil_r; reflexivity].
  - rewrite Hsig, IH by assumption. destruct ending; [reflexivity|].
    rewrite <- app_assoc. reflexivity.
  - apply IH; assumption.
Qed.

Lemma generateSVG_loop_view env p signal (s : State) :
  loop_view (fst (generateSVG env p signal s)) = loop_view s.
Proof.
  unfold generateSVG.
  pose proof (initializeEngine_await_loop_view env (selectedModel p) signal
                (set_hook (set_isGenerating true) s)) as Hinit.
  destruct (initializeEngine_await _ _ _ _) as [s0 r]. cbn [fst] in Hinit.
  assert (Hs0 : loop_view s0 = loop_view s) by exact Hinit. clear Hinit.
  destruct r as [engine|e]; [|exact Hs0].
  destruct (signal_aborted signal); [exact Hs0|].
  destruct (chat_create_error env).
  - cbn [fst]. unfold loop_view in *. cbn [set_hook attempt nextControllerId
      selectedSVGIndex cachedModels].
    match goal with |- context [run_waiting ?a ?b] =>
      pose proof (run_waiting_loop_view a b) as Hv end.
    unfold loop_view in Hv. rewrite Hv. exact Hs0.
  - match goal with |- context [run_stream ?a ?b ?c ?d ?e] =>
      pose proof (run_stream_loop_view a b c d e) as Hv;
      destruct (run_stream a b c d e) as [s' [full|e']] end;
      simpl in Hv; unfold loop_view in *; simpl; rewrite Hv; exact Hs0.
Qed.

Lemma validateAll_spec size : forall ms acc (s : State),
  exists logs,
    validateAll size ms acc s =
      (acc ++ List.filter isSvg ms, setDebugLogs (fun _ => debugLogs s ++ logs) s) /\
    forall svg w, In svg ms -> isSvg svg = true -> sizeWarning size svg = Some w ->
                  In w logs.
Proof.
  induction ms as [|svg ms IH]; intros acc s; simpl.
  - exists []. rewrite app_nil_r, setDebugLogs_same. split; [reflexivity|]. intros ? ? [].
  - destruct (isSvg svg) eqn:Hsvg; simpl.
    + destruct (sizeWarning size svg) as [w|] eqn:Hw.
      * destruct (IH (acc ++ [svg]) (addLog w s)) as (logs & -> & Hin).
        exists (w :: logs). split.
        -- rewrite addLog_logs, setDebugLogs_twice, <- app_assoc.
           destruct s; unfold setDebugLogs; simpl. rewrite <- app_assoc. reflexivity.
        -- intros svg' w' [->|Hin'] Hv Hw'.
           ++ left. congruence.
           ++ right. eapply Hin; eauto.
      * destruct (IH (acc ++ [svg]) s) as (logs & -> & Hin).
        exists logs. split; [rewrite <- app_assoc; reflexivity|].
        intros svg' w' [->|Hin'] Hv Hw'; [congruence | eapply Hin; eauto].
    + destruct (IH acc (addLog LogInvalidSvg s)) as (logs & -> & Hin).
      exists (LogInvalidSvg :: logs). split.
      * rewrite addLog_logs, setDebugLogs_twice.
        destruct s; unfold setDebugLogs; simpl. rewrite <- app_assoc. reflexivity.
      * intros svg' w' [->|Hin'] Hv Hw'; [congruence | right; eapply Hin; eauto].
Qed.

Lemma match_svg_eq text :
  match_svg text = match svg_matches text with [] => None | _ :: _ => Some (svg_matches text) end.
Proof. unfold match_svg. destruct (svg_matches text); reflexivity. Qed.


(** ** The body of the [try] *)

Lemma onResponse_retry p full (s : State) :
  valid_blocks full = [] ->
  exists c logs,
    attempt_cause (Ok full) = Some c /\
    onResponse p full s =
      retryOrGiveUp (cause_exit c) (cause_toast c)
        (setDebugLogs (fun _ => debugLogs s ++ logs) s).
Proof.
  intros Hv. unfold onResponse, attempt_cause. rewrite match_svg_eq, Hv.
  unfold valid_blocks in Hv.
  destruct (svg_matches full) as [|m ms] eqn:Hms.
  - exists NoMatchFound, [LogCompleted; LogTagNotFound]. split; [reflexivity|].
    unfold noSvgFound. rewrite !addLog_logs, setDebugLogs_twice.
    destruct s; unfold setDebugLogs; simpl. rewrite <- app_assoc. reflexivity.
  - cbn [length Nat.eqb].
    destruct (validateAll_spec (size p) (m :: ms) [] (addLog LogCompleted s))
      as (logs & -> & _).
    rewrite Hv. cbn [app length Nat.eqb].
    exists NoValidMatch, (LogCompleted :: logs ++ [LogNoValidSvg]). split; [reflexivity|].
    rewrite !addLog_logs, !setDebugLogs_twice.
    destruct s; unfold setDebugLogs; simpl.
    rewrite <- !app_assoc. reflexivity.
Qed.

Lemma onResponse_success p full (s : State) :
  valid_blocks full <> [] ->
  exists logs,
    onResponse p full s =
      Return ExitSuccess
        (succeed p (valid_blocks full) (setDebugLogs (fun _ => debugLogs s ++ logs) s)) /\
    forall svg w, In svg (svg_matches full) -> isSvg svg = true ->
                  sizeWarning (size p) svg = Some w -> In w logs.
Proof.
  intros Hv. unfold onResponse. rewrite match_svg_eq. unfold valid_blocks in *.
  destruct (svg_matches full) as [|m ms] eqn:Hms; [contradiction Hv; reflexivity|].
  cbn [length Nat.eqb].
  destruct (validateAll_spec (size p) (m :: ms) [] (addLog LogCompleted s))
    as (logs & -> & Hin).
  cbn [app]. destruct (List.filter isSvg (m :: ms)) as [|v vs] eqn:Hf; [contradiction Hv; reflexivity|].
  cbn [length Nat.eqb].
  exists (LogCompleted :: logs). split.
  - rewrite addLog_logs, setDebugLogs_twice.
    destruct s; unfold setDebugLogs; simpl. rewrite <- app_assoc. reflexivity.
  - intros svg w Hsvg Hok Hw. right. eapply Hin; eauto.
Qed.

Lemma beginAttempt_Some (s b : State) :
  beginAttempt s = Some b ->
  shouldStopRef s = false /\ attempt b = S (attempt s) /\
  stop_view b = stop_view s /\
  nextControllerId b = nextControllerId s /\
  selectedSVGIndex b = selectedSVGIndex s /\
  cachedModels b = cachedModels s /\
  hook b = hook s /\
  ((1 <= attempt s)%nat -> currentOutput b = [] /\ aiRawOutput b = []).
Proof.
  unfold beginAttempt. destruct (shouldStopRef s) eqn:Hstop; [discriminate|].
  intros Hb. inversion Hb; subst; clear Hb. cbn [set_attempt attempt].
  destruct (1 <? S (attempt s))%nat eqn:Hlt.
  - unfold stop_view. simpl. rewrite Hstop. repeat split; reflexivity.
  - unfold stop_view. simpl. rewrite Hstop. apply Nat.ltb_ge in Hlt.
    repeat split; try reflexivity; lia.
Qed.

Lemma iteration_begun env p (s b : State) :
  beginAttempt s = Some b ->
  iteration env p s =
  match generateSVG env p (abortControllerRef b) b with
  | (s1, Ok fullResponse) => onResponse p fullResponse s1
  | (s1, Throw error) => onError error s1
  end.
Proof. intros Hb. unfold iteration. rewrite Hb. reflexivity. Qed.

Lemma succeed_fields p valid (s : State) :
  extractedSVGs (succeed p valid s) = valid /\
  selectedSVGIndex (succeed p valid s) = (Z.of_nat (length valid) - 1)%Z /\
  cachedModels (succeed p valid s) = cachedModels s ∪ {[ selectedModel p ]} /\
  attempt (succeed p valid s) = attempt s /\
  debugLogs (succeed p valid s) = debugLogs s ++ [LogValidationPassed (length valid)] /\
  abortControllerRef (succeed p valid s) = None.
Proof. repeat split. Qed.

(** C10.  The live preview never moves the selection: neither one call of
    [onChunk], nor a whole stream of fragments (with the buttons pressed in
    between), nor a whole call of [generateSVG] changes [selectedSVGIndex].
    Within the loop it is written only on success, where it becomes the
    index of the last valid block. *)
Theorem preview_keeps_selection env p signal events ending full chunk (s : State) :
  selectedSVGIndex (onChunk chunk s) = selectedSVGIndex s /\
  selectedSVGIndex (fst (run_stream signal events ending full s)) = selectedSVGIndex s /\
  selectedSVGIndex (fst (generateSVG env p signal s)) = selectedSVGIndex s /\
  match iteration env p s with
  | Continue s' => selectedSVGIndex s' = selectedSVGIndex s
  | Return e s' =>
      selectedSVGIndex s' = selectedSVGIndex s \/
      (e = ExitSuccess /\
       selectedSVGIndex s' = (Z.of_nat (length (extractedSVGs s')) - 1)%Z)
  end.
Proof.
  pose proof (onChunk_loop_view chunk s) as H1.
  pose proof (run_stream_loop_view signal events ending full s) as H2.
  pose proof (generateSVG_loop_view env p signal s) as H3.
  unfold loop_view in *.
  repeat split; try congruence.
  destruct (beginAttempt s) as [b|] eqn:Hb.
  - rewrite (iteration_begun env p s b Hb).
    apply beginAttempt_Some in Hb as (_ & _ & _ & _ & Hsel & _).
    pose proof (generateSVG_loop_view env p (abortControllerRef b) b) as Hg.
    destruct (generateSVG env p (abortControllerRef b) b) as [s1 [fullResponse|error]].
    + unfold loop_view in Hg. simpl in Hg.
      assert (Hs1 : selectedSVGIndex s1 = selectedSVGIndex s) by congruence.
      destruct (valid_blocks fullResponse) as [|v vs] eqn:Hv.
      * destruct (onResponse_retry p fullResponse s1 Hv) as (c & logs & _ & ->).
        unfold retryOrGiveUp. destruct (_ <? _)%nat; [|left]; exact Hs1.
      * destruct (onResponse_success p fullResponse s1) as (logs & -> & _);
          [rewrite Hv; discriminate|].
        right. split; [reflexivity|]. reflexivity.
    + unfold loop_view in Hg. simpl in Hg.
      assert (Hs1 : selectedSVGIndex s1 = selectedSVGIndex s) by congruence.
      unfold onError.
      destruct (isAbortError error); [destruct (shouldStopRef s1)|
        destruct (maxRetries <=? _)%nat]; try left; exact Hs1.
  - unfold iteration. rewrite Hb. left. reflexivity.
Qed.

(** ** The loop *)

Lemma generateLoop_step fuel envs p (s : State) :
  (attempt s < maxRetries)%nat ->
  generateLoop (S fuel) envs p s =
  match iteration (envs (S (attempt s))) p s with
  | Return e s' => Some (e, s')
  | Continue s' => generateLoop fuel envs p s'
  end.
Proof.
  intros Hlt. cbn [generateLoop].
  apply Nat.ltb_lt in Hlt. rewrite Hlt. reflexivity.
Qed.

Lemma generateLoop_exhausted fuel envs p (s : State) :
  (maxRetries <= attempt s)%nat ->
  generateLoop (S fuel) envs p s = Some (ExitMaxRetries, afterLoop s).
Proof.
  intros Hge. cbn [generateLoop].
  apply Nat.ltb_ge in Hge. rewrite Hge. reflexivity.
Qed.

(** C6.  A block that passes [isSvg] and whose viewBox declares a width or
    height other than the requested size is kept: the attempt succeeds at
    once (the attempt counter is the one of this attempt), the block is in
    the accepted list, and the mismatch is in the log as a warning. *)
Theorem size_mismatch_accepted fuel envs p (s b s1 : State)
    (full svg viewBox : jsstring)
    (Hbudget : (attempt s < maxRetries)%nat)
    (Hbegin : beginAttempt s = Some b)
    (Hstream : generateSVG (envs (S (attempt s))) p (abortControllerRef b) b = (s1, Ok full))
    (Hfound : In svg (svg_matches full))
    (Hvalid : isSvg svg = true)
    (HviewBox : match_viewBox svg = Some viewBox)
    (Hmismatch :
       strict_ne (parseFloat (split_ws viewBox !! 2%nat)) (size p)
       || strict_ne (parseFloat (split_ws viewBox !! 3%nat)) (size p) = true) :
  exists s',
    generateLoop (S fuel) envs p s = Some (ExitSuccess, s') /\
    In svg (extractedSVGs s') /\
    In (LogSizeMismatch (size p) (parseFloat (split_ws viewBox !! 2%nat))
          (parseFloat (split_ws viewBox !! 3%nat))) (debugLogs s') /\
    attempt s' = S (attempt s).
Proof.
  assert (Hin : In svg (valid_blocks full)).
  { unfold valid_blocks. apply filter_In. split; assumption. }
  assert (Hne : valid_blocks full <> []).
  { intros Hnil. rewrite Hnil in Hin. destruct Hin. }
  rewrite (generateLoop_step fuel envs p s Hbudget).
  rewrite (iteration_begun _ p s b Hbegin), Hstream.
  destruct (onResponse_success p full s1 Hne) as (logs & -> & Hwarn).
  eexists. split; [reflexivity|].
  destruct (succeed_fields p (valid_blocks full)
              (setDebugLogs (fun _ => debugLogs s1 ++ logs) s1))
    as (-> & _ & _ & -> & -> & _).
  split; [exact Hin|]. split.
  - apply in_or_app. left. cbn [setDebugLogs debugLogs].
    apply in_or_app. right. apply (Hwarn svg); [assumption..|].
    unfold sizeWarning. rewrite HviewBox. cbv zeta. rewrite Hmismatch. reflexivity.
  - cbn [setDebugLogs attempt].
    pose proof (generateSVG_loop_view (envs (S (attempt s))) p (abortControllerRef b) b) as Hv.
    rewrite Hstream in Hv. unfold loop_view in Hv. simpl in Hv.
    apply beginAttempt_Some in Hbegin as (_ & Hb & _). congruence.
Qed.

(** C7.  When the response of an attempt has at least one valid block the
    loop ends with success: all valid blocks are stored, in order; the
    selected index is that of the last one; the model is added to the
    cached models, which are otherwise unchanged. *)
Theorem success_selects_last fuel envs p (s b s1 : State) (full : jsstring)
    (Hbudget : (attempt s < maxRetries)%nat)
    (Hbegin : beginAttempt s = Some b)
    (Hstream : generateSVG (envs (S (attempt s))) p (abortControllerRef b) b = (s1, Ok full))
    (Hvalid : valid_blocks full <> []) :
  exists s',
    generateLoop (S fuel) envs p s = Some (ExitSuccess, s') /\
    extractedSVGs s' = valid_blocks full /\
    selectedSVGIndex s' = (Z.of_nat (length (valid_blocks full)) - 1)%Z /\
    extractedSVGs s' !! Z.to_nat (selectedSVGIndex s') = last (valid_blocks full) /\
    cachedModels s' = cachedModels s ∪ {[ selectedModel p ]} /\
    selectedModel p ∈ cachedModels s'.
Proof.
  rewrite (generateLoop_step fuel envs p s Hbudget).
  rewrite (iteration_begun _ p s b Hbegin), Hstream.
  destruct (onResponse_success p full s1 Hvalid) as (logs & -> & _).
  eexists. split; [reflexivity|].
  destruct (succeed_fields p (valid_blocks full)
              (setDebugLogs (fun _ => debugLogs s1 ++ logs) s1))
    as (-> & -> & -> & _).
  cbn [setDebugLogs cachedModels].
  pose proof (generateSVG_loop_view (envs (S (attempt s))) p (abortControllerRef b) b) as Hv.
  rewrite Hstream in Hv. unfold loop_view in Hv. simpl in Hv.
  apply beginAttempt_Some in Hbegin as (_ & _ & _ & _ & _ & Hcm & _).
  assert (Hcached : cachedModels s1 = cachedModels s) by congruence.
  rewrite Hcached. repeat split.
  - rewrite last_lookup. f_equal. lia.
  - apply elem_of_union. right. apply elem_of_singleton. reflexivity.
Qed.

(** Every iteration that continues has used up one attempt, and the loop
    always returns: the attempt counter is a ceiling for all causes. *)
Lemma iteration_attempt env p (s : State) :
  match iteration env p s with
  | Continue s' => attempt s' = S (attempt s)
  | Return _ s' => attempt s' = attempt s \/ attempt s' = S (attempt s)
  end.
Proof.
  destruct (beginAttempt s) as [b|] eqn:Hb.
  - rewrite (iteration_begun env p s b Hb).
    apply beginAttempt_Some in Hb as (_ & Hatt & _).
    pose proof (generateSVG_loop_view env p (abortControllerRef b) b) as Hg.
    destruct (generateSVG env p (abortControllerRef b) b) as [s1 [fullResponse|error]];
      unfold loop_view in Hg; simpl in Hg;
      assert (Hs1 : attempt s1 = S (attempt s)) by congruence.
    + destruct (valid_blocks fullResponse) as [|v vs] eqn:Hv.
      * destruct (onResponse_retry p fullResponse s1 Hv) as (c & logs & _ & ->).
        unfold retryOrGiveUp. destruct (_ <? _)%nat; [|right]; exact Hs1.
      * destruct (onResponse_success p fullResponse s1) as (logs & -> & _);
          [rewrite Hv; discriminate|].
        right. exact Hs1.
    + unfold onError.
      destruct (isAbortError error); [destruct (shouldStopRef s1)|
        destruct (maxRetries <=? _)%nat]; try right; exact Hs1.
  - unfold iteration. rewrite Hb. left. reflexivity.
Qed.

Lemma generateLoop_terminates envs p : forall n fuel (s : State),
  (maxRetries - attempt s = n)%nat -> (n < fuel)%nat ->
  exists e s',
    generateLoop fuel envs p s = Some (e, s') /\
    ((attempt s <= maxRetries)%nat -> (attempt s' <= maxRetries)%nat).
Proof.
  induction n as [|n IH]; intros fuel s Hn Hfuel;
    (destruct fuel as [|fuel]; [lia|]).
  - rewrite generateLoop_exhausted by lia. eexists _, _. split; [reflexivity|].
    intros Hle. exact Hle.
  - rewrite generateLoop_step by lia.
    pose proof (iteration_attempt (envs (S (attempt s))) p s) as Hatt.
    destruct (iteration (envs (S (attempt s))) p s) as [e s'|s'].
    + eexists _, _. split; [reflexivity|]. lia.
    + destruct (IH fuel s') as (e & s'' & -> & Hle); [lia | lia |].
      eexists _, _. split; [reflexivity|]. lia.
Qed.

(** ** [generateSVG] once the engine is there *)

Lemma initializeEngine_result cenv modelId signal (h : Hook) :
  snd (initializeEngine cenv modelId signal h) =
  match reusable_engine h modelId with
  | Some e => Ok e
  | None => if signal_aborted signal then Throw AbortedException else create_result cenv
  end.
Proof.
  unfold initializeEngine. destruct (reusable_engine h modelId); [reflexivity|].
  destruct (signal_aborted signal); [reflexivity|].
  destruct (create_result cenv); reflexivity.
Qed.

Lemma initializeEngine_generating cenv modelId signal (h : Hook) b :
  snd (initializeEngine cenv modelId signal (set_isGenerating b h)) =
  snd (initializeEngine cenv modelId signal h).
Proof. rewrite !initializeEngine_result. reflexivity. Qed.

Lemma initializeEngine_await_engine env modelId signal (s : State) engine :
  snd (initializeEngine_await env modelId signal s) = Ok engine ->
  engineRef (hook (fst (initializeEngine_await env modelId signal s))) = Some engine.
Proof.
  unfold initializeEngine_await, reusable_engine.
  destruct (engineRef (hook s)) as [e|] eqn:He.
  - destruct (currentModelRef (hook s)) as [m|].
    + destruct (str_eqb m modelId).
      * simpl. intros Hok. inversion Hok; subst. exact He.
      * destruct (signal_aborted signal); [discriminate|].
        destruct (creation_result env); simpl; [congruence | discriminate].
    + destruct (signal_aborted signal); [discriminate|].
      destruct (creation_result env); simpl; [congruence | discriminate].
  - destruct (signal_aborted signal); [discriminate|].
    destruct (creation_result env); simpl; [congruence | discriminate].
Qed.

Lemma generateSVG_result env p signal (s : State) :
  signal_aborted signal = false ->
  snd (generateSVG env p signal s) =
  match snd (initializeEngine (attempt_create env) (selectedModel p) signal
               (set_isGenerating true (hook s))) with
  | Throw e => Throw e
  | Ok _ =>
      match chat_create_error env with
      | Some e => Throw e
      | None =>
          match stream_end env with
          | None => Ok (streamed_text (stream_events env))
          | Some e => Throw e
          end
      end
  end.
Proof.
  intros Hsig. unfold generateSVG.
  pose proof (initializeEngine_await_result env (selectedModel p) signal
                (set_hook (set_isGenerating true) s)) as Hres.
  cbn [set_hook hook] in Hres. rewrite <- Hres.
  destruct (initializeEngine_await _ _ _ _) as [s1 r]. cbn [snd].
  destruct r as [engine|e]; [|reflexivity].
  rewrite Hsig. destruct (chat_create_error env); [reflexivity|].
  match goal with |- context [run_stream ?a ?b ?c ?d ?e] =>
    pose proof (run_stream_result a b c d e Hsig) as Hr;
    destruct (run_stream a b c d e) as [s5 [fullResponse|e']] end;
    simpl in Hr; simpl; rewrite Hr; destruct (stream_end env); reflexivity.
Qed.

Lemma generateSVG_stop_view env p signal (s : State) :
  ~ In UserStop (stream_events env) -> ~ In (Acted PressStop) (creation env) ->
  stop_view (fst (generateSVG env p signal s)) = stop_view s.
Proof.
  intros Hno Hquiet. unfold generateSVG.
  pose proof (initializeEngine_await_stop_view env (selectedModel p) signal
                (set_hook (set_isGenerating true) s) Hquiet) as Hsv.
  destruct (initializeEngine_await _ _ _ _) as [s1 r]. cbn [fst] in Hsv.
  assert (Hs1 : stop_view s1 = stop_view s) by exact Hsv. clear Hsv.
  destruct r as [engine|e]; [|exact Hs1].
  destruct (signal_aborted signal); [exact Hs1|].
  destruct (chat_create_error env).
  - cbn [fst]. unfold stop_view in *. cbn [set_hook shouldStopRef abortControllerRef].
    match goal with |- context [run_waiting ?a ?b] =>
      pose proof (run_waiting_stop_view a b Hno) as Hv end.
    unfold stop_view in Hv. rewrite Hv. exact Hs1.
  - match goal with |- context [run_stream ?a ?b ?c ?d ?e] =>
      pose proof (run_stream_stop_view a b c d e Hno) as Hv;
      destruct (run_stream a b c d e) as [s' [full|e']] end;
      simpl in Hv; unfold stop_view in *; simpl; rewrite Hv; exact Hs1.
Qed.

(** ** Attempts that can be retried *)

Lemma signal_of_stop_view (s s' : State) :
  stop_view s' = stop_view s ->
  shouldStopRef s' = shouldStopRef s /\ abortControllerRef s' = abortControllerRef s.
Proof. unfold stop_view. intros Hv. inversion Hv. auto. Qed.

Lemma generateSVG_recoverable env p signal (s : State) :
  signal_aborted signal = false -> recoverable env ->
  exists c, attempt_cause (snd (generateSVG env p signal s)) = Some c.
Proof.
  intros Hsig (Hstop & Hcreate & Hchat & Hend).
  rewrite (generateSVG_result env p signal s Hsig), initializeEngine_result, Hsig.
  destruct (reusable_engine _ _) as [e|].
  - destruct (chat_create_error env) as [e'|] eqn:Hc.
    + exists (TransportFailure e'). simpl. rewrite (Hchat e' eq_refl). reflexivity.
    + destruct (stream_end env) as [e'|].
      * exists (TransportFailure e'). simpl. rewrite Hend. reflexivity.
      * unfold attempt_cause. rewrite Hend.
        destruct (svg_matches _); eauto.
  - destruct (create_result (attempt_create env)) as [engine|e'] eqn:Hcr.
    + destruct (chat_create_error env) as [e'|] eqn:Hc.
      * exists (TransportFailure e'). simpl. rewrite (Hchat e' eq_refl). reflexivity.
      * destruct (stream_end env) as [e'|].
        -- exists (TransportFailure e'). simpl. rewrite Hend. reflexivity.
        -- unfold attempt_cause. rewrite Hend.
           destruct (svg_matches _); eauto.
    + exists (TransportFailure e'). simpl. rewrite (Hcreate e' eq_refl). reflexivity.
Qed.

Lemma attempt_cause_Ok full c :
  attempt_cause (Ok full) = Some c -> valid_blocks full = [].
Proof.
  unfold attempt_cause, valid_blocks.
  destruct (svg_matches full) as [|m ms]; [reflexivity|].
  destruct (List.filter isSvg (m :: ms)); [reflexivity | discriminate].
Qed.

Lemma attempt_cause_Throw e c :
  attempt_cause (Throw e) = Some c -> isAbortError e = false /\ c = TransportFailure e.
Proof.
  unfold attempt_cause. destruct (isAbortError e); [discriminate|].
  intros Hc. inversion Hc. auto.
Qed.

(** What the loop does with an attempt that ended for cause [c]: another
    round while attempts remain, the fatal exit of that cause otherwise. *)
Lemma dispatch_cause p r c (s1 : State) :
  attempt_cause r = Some c ->
  exists s2,
    stop_view s2 = stop_view s1 /\ loop_view s2 = loop_view s1 /\
    match r with
    | Ok fullResponse => onResponse p fullResponse s1
    | Throw error => onError error s1
    end =
    if (attempt s1 <? maxRetries)%nat then Continue s2
    else Return (cause_exit c)
           (toast (cause_toast c)
              (match r with Ok _ => s2 | Throw _ => set_controller None s2 end)).
Proof.
  intros Hc. destruct r as [full|e].
  - pose proof (attempt_cause_Ok full c Hc) as Hv.
    destruct (onResponse_retry p full s1 Hv) as (c' & logs & Hc' & ->).
    assert (c' = c) as -> by congruence.
    unfold retryOrGiveUp. cbn [setDebugLogs attempt].
    destruct (attempt s1 <? maxRetries)%nat.
    + eexists. split; [|split; [|reflexivity]]; reflexivity.
    + exists (setDebugLogs (fun _ => debugLogs s1 ++ logs) s1).
      split; [|split]; reflexivity.
  - apply attempt_cause_Throw in Hc as [Hab ->]. unfold onError. rewrite Hab.
    cbn [addLog setDebugLogs attempt].
    destruct (attempt s1 <? maxRetries)%nat eqn:Hlt.
    + apply Nat.ltb_lt in Hlt.
      assert (Hle : (maxRetries <=? attempt s1)%nat = false) by (apply Nat.leb_gt; lia).
      rewrite Hle. eexists. split; [|split; [|reflexivity]]; reflexivity.
    + apply Nat.ltb_ge in Hlt.
      assert (Hle : (maxRetries <=? attempt s1)%nat = true) by (apply Nat.leb_le; lia).
      rewrite Hle. exists (addLog (LogFailed (attempt s1) e) s1).
      split; [|split]; reflexivity.
Qed.

Lemma iteration_recoverable env p (s : State) :
  shouldStopRef s = false ->
  signal_aborted (abortControllerRef s) = false ->
  recoverable env ->
  exists b s1 r c s2,
    beginAttempt s = Some b /\
    generateSVG env p (abortControllerRef b) b = (s1, r) /\
    attempt_cause r = Some c /\
    stop_view s2 = stop_view s /\ attempt s2 = S (attempt s) /\
    iteration env p s =
      if (S (attempt s) <? maxRetries)%nat then Continue s2
      else Return (cause_exit c)
             (toast (cause_toast c)
                (match r with Ok _ => s2 | Throw _ => set_controller None s2 end)).
Proof.
  intros Hstop Hsig Hrec.
  destruct (beginAttempt s) as [b|] eqn:Hb;
    [|unfold beginAttempt in Hb; rewrite Hstop in Hb; discriminate].
  pose proof (beginAttempt_Some s b Hb) as (_ & Hatt & Hsv & _).
  destruct (signal_of_stop_view _ _ Hsv) as [Hbstop Hbctrl].
  rewrite (iteration_begun env p s b Hb).
  pose proof (generateSVG_recoverable env p (abortControllerRef b) b) as Hcause.
  rewrite Hbctrl in Hcause at 1. specialize (Hcause Hsig Hrec).
  pose proof (generateSVG_stop_view env p (abortControllerRef b) b
                (proj1 (proj1 Hrec)) (proj2 (proj1 Hrec))) as Hsv1.
  pose proof (generateSVG_loop_view env p (abortControllerRef b) b) as Hlv1.
  destruct (generateSVG env p (abortControllerRef b) b) as [s1 r] eqn:Hgen.
  destruct Hcause as [c Hc]. simpl in Hc, Hsv1, Hlv1.
  destruct (dispatch_cause p r c s1 Hc) as (s2 & Hsv2 & Hlv2 & Heq).
  assert (Hatt1 : attempt s1 = S (attempt s)).
  { unfold loop_view in Hlv1. inversion Hlv1. congruence. }
  exists b, s1, r, c, s2. split; [reflexivity|]. split; [exact Hgen|].
  split; [exact Hc|]. split; [congruence|]. split.
  - unfold loop_view in Hlv2. inversion Hlv2. congruence.
  - rewrite <- Hatt1. destruct r; exact Heq.
Qed.

Lemma retried_recoverable envs p : forall n fuel (s : State),
  shouldStopRef s = false ->
  signal_aborted (abortControllerRef s) = false ->
  (attempt s + n < maxRetries)%nat ->
  (forall k, (attempt s < k <= maxRetries)%nat -> recoverable (envs k)) ->
  exists s',
    retried n envs p s = Some s' /\
    stop_view s' = stop_view s /\ attempt s' = (attempt s + n)%nat /\
    generateLoop (n + fuel) envs p s = generateLoop fuel envs p s'.
Proof.
  induction n as [|n IH]; intros fuel s Hstop Hsig Hlt Hrec.
  - exists s. rewrite Nat.add_0_r. repeat split.
  - destruct (IH (S fuel) s Hstop Hsig ltac:(lia) Hrec) as (s' & Hret & Hsv & Hatt & Hloop).
    destruct (signal_of_stop_view _ _ Hsv) as [Hstop' Hctrl'].
    destruct (iteration_recoverable (envs (S (attempt s'))) p s')
      as (b & s1 & r & c & s2 & _ & _ & _ & Hsv2 & Hatt2 & Hit).
    { congruence. }
    { rewrite Hctrl'. exact Hsig. }
    { apply Hrec. lia. }
    assert (Hnext : (S (attempt s') <? maxRetries)%nat = true) by (apply Nat.ltb_lt; lia).
    rewrite Hnext in Hit.
    exists s2. cbn [retried]. rewrite Hret, Hit.
    split; [reflexivity|]. split; [congruence|]. split; [lia|].
    replace (S n + fuel)%nat with (n + S fuel)%nat by lia.
    rewrite Hloop, generateLoop_step by lia. rewrite Hit. reflexivity.
Qed.

(** C1.  Whatever the adapter and the user do, [handleGenerate] returns
    and has made at most ten attempts: one counter bounds the retries of
    all causes.  When each of the ten attempts is recoverable (nobody
    presses stop; the attempt ends without a valid block or with an error
    that is not an abort), it retries nine times, runs a tenth attempt, and
    returns from it with the fatal exit and the error toast of the cause of
    that tenth attempt; the attempt counter ends at ten. *)
Theorem retry_bound envs p (s : State)
    (Hprompt : is_blank (prompt p) = false)
    (Hmodel : selectedModel p <> []) :
  (exists e s', handleGenerate envs p s = Some (e, s') /\
                (attempt s' <= maxRetries)%nat) /\
  ((forall k, (1 <= k <= maxRetries)%nat -> recoverable (envs k)) ->
   exists s9 b s10 r c s',
     retried 9 envs p (startGeneration p s) = Some s9 /\
     beginAttempt s9 = Some b /\ attempt b = maxRetries /\
     generateSVG (envs maxRetries) p (abortControllerRef b) b = (s10, r) /\
     attempt_cause r = Some c /\
     handleGenerate envs p s = Some (cause_exit c, s') /\
     attempt s' = maxRetries /\
     last (toasts s') = Some (cause_toast c)).
Proof.
  unfold handleGenerate. rewrite Hprompt.
  rewrite bool_decide_eq_false_2 by exact Hmodel.
  split.
  { destruct (generateLoop_terminates envs p maxRetries (S maxRetries)
                (startGeneration p s)) as (e & s' & Hloop & Hle);
      [reflexivity | lia |].
    exists e, s'. split; [exact Hloop|]. apply Hle. cbn. unfold maxRetries. lia. }
  intros Hrecoverable.
  destruct (retried_recoverable envs p 9 2 (startGeneration p s))
    as (s9 & Hret & Hsv & Hatt & Hloop); try reflexivity.
  { cbn. unfold maxRetries. lia. }
  { intros k Hk. apply Hrecoverable. cbn in Hk. lia. }
  cbn [attempt startGeneration set_attempt] in Hatt. change (0 + 9)%nat with 9%nat in Hatt.
  destruct (signal_of_stop_view _ _ Hsv) as [Hstop Hctrl].
  destruct (iteration_recoverable (envs (S (attempt s9))) p s9)
    as (b & s10 & r & c & s2 & Hb & Hgen & Hc & Hsv2 & Hatt2 & Hit).
  { rewrite Hstop. reflexivity. }
  { rewrite Hctrl. reflexivity. }
  { apply Hrecoverable. unfold maxRetries. lia. }
  rewrite Hatt in Hit, Hgen, Hatt2. cbn in Hit.
  eexists s9, b, s10, r, c, _.
  split; [exact Hret|]. split; [exact Hb|].
  split; [apply beginAttempt_Some in Hb as (_ & -> & _); rewrite Hatt; reflexivity|].
  split; [exact Hgen|]. split; [exact Hc|].
  change (S maxRetries) with (9 + 2)%nat. rewrite Hloop.
  rewrite generateLoop_step by (rewrite Hatt; unfold maxRetries; lia).
  rewrite Hatt, Hit. split; [reflexivity|].
  unfold toast. cbn [attempt toasts]. split.
  - destruct r; cbn [set_controller attempt]; exact Hatt2.
  - apply last_snoc.
Qed.

(** The [try] body and the [catch] leave the hook and the counter alone. *)
Lemma dispatch_hook p (r : Result jsstring) (s1 : State) :
  match match r with
        | Ok fullResponse => onResponse p fullResponse s1
        | Throw error => onError error s1
        end with
  | Continue s' | Return _ s' => hook s' = hook s1 /\ attempt s' = attempt s1
  end.
Proof.
  destruct r as [full|error].
  - destruct (valid_blocks full) as [|v vs] eqn:Hv.
    + destruct (onResponse_retry p full s1 Hv) as (c & logs & _ & ->).
      unfold retryOrGiveUp. destruct (_ <? _)%nat; split; reflexivity.
    + destruct (onResponse_success p full s1) as (logs & -> & _); [congruence|].
      split; reflexivity.
  - unfold onError. destruct (isAbortError error).
    + destruct (shouldStopRef s1); split; reflexivity.
    + cbn [addLog setDebugLogs attempt]. destruct (_ <=? _)%nat; split; reflexivity.
Qed.

(** ** The buttons during a stream *)

Lemma button_calls_None armed events : button_calls None armed events = [].
Proof.
  revert armed. induction events as [|[content|[| |value]] events IH]; intros armed; cbn;
    auto.
Qed.

Lemma button_calls_pressed engine a post : forall pre,
  a = PressStop \/ a = PressRetry ->
  ~ In UserStop pre -> (forall v, ~ In (UserChangeModel v) pre) ->
  In (InterruptGenerate engine) (button_calls (Some engine) true (pre ++ User a :: post)).
Proof.
  intros pre Ha. induction pre as [|[content|[| |value]] pre IH]; intros Hstop Hmodel.
  - destruct Ha as [-> | ->]; cbn; left; reflexivity.
  - cbn. apply IH; [intros Hin; apply Hstop; right; exact Hin|].
    intros v Hin. apply (Hmodel v). right. exact Hin.
  - exfalso. apply Hstop. left. reflexivity.
  - cbn. right. apply IH; [intros Hin; apply Hstop; right; exact Hin|].
    intros v Hin. apply (Hmodel v). right. exact Hin.
  - exfalso. apply (Hmodel value). left. reflexivity.
Qed.

(** Nothing reaches the adapter after the model was changed, and nothing
    after the stop button was pressed. *)
Lemma button_calls_silent engine events : forall armed pre,
  (exists v, In (UserChangeModel v) pre) \/ In UserStop pre ->
  button_calls engine armed (pre ++ events) = button_calls engine armed pre.
Proof.
  assert (Hoff : forall evs eng, button_calls eng false evs = []).
  { induction evs as [|[content|[| |value]] evs IH]; intros eng; cbn; auto;
      rewrite IH; destruct eng; reflexivity. }
  intros armed pre. revert armed.
  induction pre as [|[content|[| |value]] pre IH]; intros armed Hin.
  - destruct Hin as [[v []]|[]].
  - cbn. apply IH. destruct Hin as [[v [Hd|Hin]]|[Hd|Hin]]; try discriminate; eauto.
  - cbn. rewrite !Hoff. reflexivity.
  - cbn. f_equal. apply IH.
    destruct Hin as [[v [Hd|Hin]]|[Hd|Hin]]; try discriminate; eauto.
  - cbn. rewrite !button_calls_None. reflexivity.
Qed.

Lemma run_stream_buttons signal events ending : forall full (s : State),
  signal_aborted signal = false ->
  adapterCalls (hook (fst (run_stream signal events ending full s))) =
  adapterCalls (hook s) ++
  button_calls (engineRef (hook s)) (bool_decide (is_Some (abortControllerRef s))) events.
Proof.
  induction events as [|[content|[| |value]] events IH]; intros full s Hsig; simpl.
  - rewrite app_nil_r. destruct ending; reflexivity.
  - rewrite Hsig, (IH _ _ Hsig), onChunk_hook.
    pose proof (onChunk_stop_view content s) as Hv.
    apply signal_of_stop_view in Hv as [_ ->]. reflexivity.
  - rewrite (IH _ _ Hsig). unfold handleStop.
    destruct (abortControllerRef s) as [c|] eqn:Hc.
    + cbn. unfold interruptGenerate. destruct (engineRef (hook s)) as [e|] eqn:He.
      * cbn. rewrite He, <- app_assoc. reflexivity.
      * rewrite He. reflexivity.
    + rewrite Hc. cbn. destruct (engineRef (hook s)); reflexivity.
  - rewrite (IH _ _ Hsig). unfold handleRetry.
    destruct (abortControllerRef s) as [c|] eqn:Hc.
    + cbn. rewrite Hc. unfold interruptGenerate.
      destruct (engineRef (hook s)) as [e|] eqn:He.
      * cbn. rewrite He, <- app_assoc. reflexivity.
      * rewrite He. reflexivity.
    + rewrite Hc. cbn. destruct (engineRef (hook s)); reflexivity.
  - rewrite (IH _ _ Hsig). reflexivity.
Qed.

Lemma run_stream_stays_stopped signal events ending : forall full (s : State),
  shouldStopRef s = true ->
  shouldStopRef (fst (run_stream signal events ending full s)) = true.
Proof.
  induction events as [|[content|[| |value]] events IH]; intros full s Hstop; simpl.
  - destruct ending; exact Hstop.
  - destruct (signal_aborted signal); [exact Hstop|]. apply IH.
    pose proof (onChunk_stop_view content s) as Hv.
    apply signal_of_stop_view in Hv as [-> _]. exact Hstop.
  - apply IH. unfold handleStop. destruct (abortControllerRef s); [reflexivity | exact Hstop].
  - apply IH. pose proof (handleRetry_stop_view s) as Hv.
    apply signal_of_stop_view in Hv as [-> _]. exact Hstop.
  - apply IH. exact Hstop.
Qed.

Lemma run_stream_stop_pressed signal events ending : forall full (s : State),
  signal_aborted signal = false ->
  is_Some (abortControllerRef s) ->
  In UserStop events ->
  shouldStopRef (fst (run_stream signal events ending full s)) = true.
Proof.
  induction events as [|[content|[| |value]] events IH]; intros full s Hsig Hc Hin; simpl.
  - destruct Hin.
  - rewrite Hsig. destruct Hin as [Hd|Hin]; [discriminate|]. apply IH; auto.
    pose proof (onChunk_stop_view content s) as Hv.
    apply signal_of_stop_view in Hv as [_ ->]. exact Hc.
  - apply run_stream_stays_stopped. unfold handleStop.
    destruct Hc as [c ->]. reflexivity.
  - destruct Hin as [Hd|Hin]; [discriminate|]. apply IH; auto.
    pose proof (handleRetry_stop_view s) as Hv.
    apply signal_of_stop_view in Hv as [_ ->]. exact Hc.
  - destruct Hin as [Hd|Hin]; [discriminate|]. apply IH; auto.
Qed.

Lemma generateLoop_stopped_at_entry fuel envs p (s : State) :
  shouldStopRef s = true -> (attempt s < maxRetries)%nat ->
  generateLoop (S fuel) envs p s = Some (ExitStoppedAtEntry, stopped s).
Proof.
  intros Hstop Hlt. rewrite generateLoop_step by exact Hlt.
  unfold iteration, beginAttempt. rewrite Hstop. reflexivity.
Qed.

(** [startGeneration] forgets a stop that was asked for before the call:
    the first attempt always begins. *)
Lemma startGeneration_begins p (s0 : State) :
  exists b, beginAttempt (startGeneration p s0) = Some b.
Proof. unfold beginAttempt. cbn. eexists. reflexivity. Qed.

(** The calls made while the engine is obtained are no chat completions. *)
Lemma userAction_opening a (s : State) :
  exists l, adapterCalls (hook (userAction a s)) = adapterCalls (hook s) ++ l /\
            Forall (fun c => is_chat_call c = false) l.
Proof.
  assert (Hint : forall s0 : State,
            exists l, adapterCalls (interruptGenerate (hook s0)) = adapterCalls (hook s0) ++ l /\
                      Forall (fun c => is_chat_call c = false) l).
  { intros s0. unfold interruptGenerate. destruct (engineRef (hook s0)).
    - eexists. split; [reflexivity|]. repeat constructor.
    - exists []. rewrite app_nil_r. split; [reflexivity | constructor]. }
  destruct a; cbn [userAction].
  - unfold handleStop. destruct (abortControllerRef s);
      [exact (Hint s) | exists []; rewrite app_nil_r; split; [reflexivity | constructor]].
  - unfold handleRetry. destruct (abortControllerRef s);
      [exact (Hint s) | exists []; rewrite app_nil_r; split; [reflexivity | constructor]].
  - exists []. rewrite app_nil_r. split; [reflexivity | constructor].
Qed.

Lemma run_creation_opening events : forall s : State,
  exists l, adapterCalls (hook (run_creation events s)) = adapterCalls (hook s) ++ l /\
            Forall (fun c => is_chat_call c = false) l.
Proof.
  induction events as [|[text|a] events IH]; intros s; simpl.
  - exists []. rewrite app_nil_r. split; [reflexivity | constructor].
  - apply (IH (onProgress text s)).
  - destruct (userAction_opening a s) as (l1 & Hl1 & Hall1).
    destruct (IH (userAction a s)) as (l & Hl & Hall).
    exists (l1 ++ l). rewrite Hl, Hl1, app_assoc. split; [reflexivity|].
    apply Forall_app; auto.
Qed.

Lemma initializeEngine_await_opening env modelId signal (s : State) :
  exists pre,
    adapterCalls (hook (fst (initializeEngine_await env modelId signal s))) =
      adapterCalls (hook s) ++ pre /\
    Forall (fun c => is_chat_call c = false) pre.
Proof.
  unfold initializeEngine_await. destruct (reusable_engine (hook s) modelId).
  - exists []. simpl. rewrite app_nil_r. split; [reflexivity | constructor].
  - destruct (signal_aborted signal).
    + exists []. simpl. rewrite app_nil_r. split; [reflexivity | constructor].
    + destruct (run_creation_opening (creation env)
                  (set_hook (fun h => record_call (CreateMLCEngine modelId)
                                        (set_isInitializing true h)) s)) as (l & Hl & Hall).
      exists (CreateMLCEngine modelId :: l). split.
      * destruct (creation_result env) as [engine|e]; [|destruct (isAbortError e)];
          cbn; rewrite Hl; cbn; rewrite <- app_assoc; reflexivity.
      * constructor; [reflexivity | exact Hall].
Qed.

(** What an attempt looks like when it gets as far as the stream: the
    state [s1] and the result that [generateSVG] hands to the loop, and the
    calls it has made. *)
Lemma stream_attempt env p (s : State) c engine :
  shouldStopRef s = false ->
  abortControllerRef s = Some c -> ctrl_aborted c = false ->
  stream_opens env p s engine ->
  ~ In (Acted PressStop) (creation env) ->
  exists b s1 opening,
    beginAttempt s = Some b /\
    generateSVG env p (abortControllerRef b) b =
      (s1, match stream_end env with
           | None => Ok (streamed_text (stream_events env))
           | Some e => Throw e
           end) /\
    loop_view s1 = loop_view b /\
    adapterCalls (hook s1) =
      adapterCalls (hook s) ++ opening ++
      ChatCompletionsCreate engine ::
        button_calls (Some engine) true (stream_events env) /\
    Forall (fun call => is_chat_call call = false) opening /\
    (In UserStop (stream_events env) -> shouldStopRef s1 = true) /\
    (~ In UserStop (stream_events env) -> stop_view s1 = stop_view s).
Proof.
  intros Hstop Hctrl Hsig [Hinit Hchat] Hquiet.
  destruct (beginAttempt s) as [b|] eqn:Hb;
    [|unfold beginAttempt in Hb; rewrite Hstop in Hb; discriminate].
  pose proof (beginAttempt_Some s b Hb) as (_ & _ & Hsv & _ & _ & _ & Hhook & _).
  destruct (signal_of_stop_view _ _ Hsv) as [Hbstop Hbctrl].
  assert (Hsigb : signal_aborted (abortControllerRef b) = false)
    by (rewrite Hbctrl, Hctrl; exact Hsig).
  (* the state in which the stream starts *)
  assert (Hstart : exists s0 opening,
    stop_view s0 = stop_view b /\ engineRef (hook s0) = Some engine /\
    adapterCalls (hook s0) = adapterCalls (hook b) ++ opening ++ [ChatCompletionsCreate engine] /\
    Forall (fun call => is_chat_call call = false) opening /\
    generateSVG env p (abortControllerRef b) b =
      (finish_stream
         (snd (run_stream (abortControllerRef b) (stream_events env) (stream_end env) [] s0))
         (fst (run_stream (abortControllerRef b) (stream_events env) (stream_end env) [] s0)),
       snd (run_stream (abortControllerRef b) (stream_events env) (stream_end env) [] s0))).
  { unfold generateSVG.
    pose proof (initializeEngine_await_result env (selectedModel p) (abortControllerRef b)
                  (set_hook (set_isGenerating true) b)) as Hres.
    cbn [set_hook hook] in Hres.
    rewrite initializeEngine_generating, Hbctrl, Hhook, Hinit in Hres.
    rewrite <- Hbctrl in Hres.
    pose proof (initializeEngine_await_engine env (selectedModel p) (abortControllerRef b)
                  (set_hook (set_isGenerating true) b) engine Hres) as Heng.
    pose proof (initializeEngine_await_stop_view env (selectedModel p) (abortControllerRef b)
                  (set_hook (set_isGenerating true) b) Hquiet) as Hsv1.
    destruct (initializeEngine_await_opening env (selectedModel p) (abortControllerRef b)
                (set_hook (set_isGenerating true) b)) as (opening & Hopening & Hall).
    destruct (initializeEngine_await _ _ _ _) as [s1 r].
    cbn [fst snd] in Hres, Heng, Hsv1, Hopening. subst r.
    rewrite Hsigb, Hchat.
    match goal with |- context [run_stream _ _ _ _ ?s0] => exists s0, opening end.
    split; [exact Hsv1|]. split; [exact Heng|]. split.
    - cbn. rewrite Hopening. cbn. rewrite <- app_assoc. reflexivity.
    - split; [exact Hall|].
      destruct (run_stream _ _ _ _ _) as [s5 [fullResponse|e]]; reflexivity. }
  destruct Hstart as (s0 & opening & Hsv0 & Heng0 & Hcalls0 & Hall & Hgen).
  destruct (signal_of_stop_view _ _ Hsv0) as [Hstop0 Hctrl0].
  pose proof (run_stream_result (abortControllerRef b) (stream_events env)
                (stream_end env) [] s0 Hsigb) as Hres.
  pose proof (run_stream_buttons (abortControllerRef b) (stream_events env)
                (stream_end env) [] s0 Hsigb) as Hbuttons.
  pose proof (run_stream_loop_view (abortControllerRef b) (stream_events env)
                (stream_end env) [] s0) as Hlv0.
  pose proof (generateSVG_loop_view env p (abortControllerRef b) b) as Hlv.
  pose proof (run_stream_stop_pressed (abortControllerRef b) (stream_events env)
                (stream_end env) [] s0 Hsigb) as Hflag.
  pose proof (run_stream_stop_view (abortControllerRef b) (stream_events env)
                (stream_end env) [] s0) as Hquiet0.
  rewrite Hres in Hgen. cbn [app] in Hgen.
  rewrite Hgen in Hlv. cbn [fst] in Hlv.
  assert (Harmed : bool_decide (is_Some (abortControllerRef s0)) = true)
    by (apply bool_decide_eq_true_2; rewrite Hctrl0, Hbctrl, Hctrl; eexists; reflexivity).
  rewrite Heng0, Harmed in Hbuttons.
  eexists b, _, opening. split; [reflexivity|]. split; [exact Hgen|].
  split; [exact Hlv|]. split; [|split; [exact Hall|split]].
  - unfold finish_stream. destruct (stream_end env); cbn;
      rewrite Hbuttons, Hcalls0, Hhook, <- !app_assoc; reflexivity.
  - intros Hin. unfold finish_stream. destruct (stream_end env); cbn; apply Hflag; auto;
      rewrite Hctrl0, Hbctrl, Hctrl; eexists; reflexivity.
  - intros Hno. specialize (Hquiet0 Hno).
    unfold finish_stream. destruct (stream_end env); cbn;
      unfold stop_view in *; cbn; rewrite Hquiet0; congruence.
Qed.

(** ** The stop button *)

Lemma attempt_cause_None r :
  attempt_cause r = None ->
  (exists err, r = Throw err /\ isAbortError err = true) \/
  (exists full, r = Ok full /\ valid_blocks full <> []).
Proof.
  destruct r as [full|err]; cbn [attempt_cause].
  - intros Hc. right. exists full. split; [reflexivity|].
    destruct (svg_matches full); [discriminate|].
    destruct (valid_blocks full); [discriminate | discriminate].
  - intros Hc. left. exists err. split; [reflexivity|].
    destruct (isAbortError err); [reflexivity | discriminate].
Qed.

(** How the call ends when the result [r] of an attempt is looked at with
    the stop flag set. *)
Lemma stopped_dispatch fuel envs p r (s1 : State) :
  shouldStopRef s1 = true -> (attempt s1 <= maxRetries)%nat ->
  exists e s',
    match (match r with
           | Ok fullResponse => onResponse p fullResponse s1
           | Throw error => onError error s1
           end) with
    | Return e s' => Some (e, s')
    | Continue s2 => generateLoop (S fuel) envs p s2
    end = Some (e, s') /\
    hook s' = hook s1 /\ attempt s' = attempt s1 /\
    (forall err, r = Throw err -> isAbortError err = true -> e = ExitStoppedOnAbort) /\
    (forall full, r = Ok full -> valid_blocks full <> [] ->
       e = ExitSuccess /\ extractedSVGs s' = valid_blocks full) /\
    (forall cause, attempt_cause r = Some cause ->
       ((attempt s1 < maxRetries)%nat -> e = ExitStoppedAtEntry) /\
       (attempt s1 = maxRetries ->
        e = cause_exit cause /\ last (toasts s') = Some (cause_toast cause))) /\
    (e <> ExitSuccess ->
     selectedSVGIndex s' = selectedSVGIndex s1 /\ cachedModels s' = cachedModels s1).
Proof.
  intros Hstop Hle.
  pose proof (dispatch_hook p r s1) as Hhook.
  destruct (attempt_cause r) as [cause|] eqn:Hcause.
  - destruct (dispatch_cause p r cause s1 Hcause) as (s2 & Hsv & Hlv & Hd).
    rewrite Hd in Hhook |- *.
    destruct (signal_of_stop_view _ _ Hsv) as [Hstop2 _].
    unfold loop_view in Hlv. injection Hlv as Ha2 Hn2 Hs2 Hc2.
    assert (Hnot_abort : forall err, r = Throw err -> isAbortError err = false).
    { intros err ->. apply (attempt_cause_Throw err cause Hcause). }
    assert (Hnot_valid : forall full, r = Ok full -> valid_blocks full = []).
    { intros full ->. apply (attempt_cause_Ok full cause Hcause). }
    destruct (attempt s1 <? maxRetries)%nat eqn:Hlt.
    + apply Nat.ltb_lt in Hlt. cbv beta iota in Hhook |- *.
      rewrite generateLoop_stopped_at_entry by (congruence || lia).
      exists ExitStoppedAtEntry, (stopped s2).
      cbn [stopped set_shouldStop set_controller addLog setDebugLogs attempt hook
             selectedSVGIndex cachedModels].
      split; [reflexivity|]. split; [apply Hhook|]. split; [exact Ha2|].
      split; [intros err Hr Hab; rewrite (Hnot_abort err Hr) in Hab; discriminate|].
      split; [intros full Hr Hv; destruct (Hv (Hnot_valid full Hr))|].
      split; [|intros _; split; assumption].
      intros cause' _. split; [reflexivity | lia].
    + apply Nat.ltb_ge in Hlt. cbv beta iota in Hhook |- *.
      eexists _, _. split; [reflexivity|].
      split; [apply Hhook|]. split; [apply Hhook|].
      split; [intros err Hr Hab; rewrite (Hnot_abort err Hr) in Hab; discriminate|].
      split; [intros full Hr Hv; destruct (Hv (Hnot_valid full Hr))|].
      split.
      * intros cause' Hc'. assert (cause' = cause) by congruence. subst cause'.
        split; [lia|]. intros _. split; [reflexivity|].
        cbn [toast toasts]. apply last_snoc.
      * intros _. destruct r; cbn [toast set_controller selectedSVGIndex cachedModels];
          split; assumption.
  - destruct (attempt_cause_None r Hcause) as [(err & -> & Hab)|(full & -> & Hv)].
    + unfold onError in *. rewrite Hab, Hstop in *.
      exists ExitStoppedOnAbort, (stopped s1).
      split; [reflexivity|]. split; [reflexivity|]. split; [reflexivity|].
      split; [reflexivity|]. split; [discriminate|]. split; [discriminate|].
      intros _. split; reflexivity.
    + destruct (onResponse_success p full s1 Hv) as (logs & Hd & _).
      rewrite Hd in Hhook |- *. eexists _, _. split; [reflexivity|].
      split; [apply Hhook|]. split; [apply Hhook|].
      split; [discriminate|]. split.
      * intros full' Hfull _. inversion Hfull; subst full'.
        split; [reflexivity|]. apply succeed_fields.
      * split; [discriminate|]. intros Hne. destruct (Hne eq_refl).
Qed.

(** C2, as far as the code goes.  A stop flag that is set when an
    iteration begins ends the call there: no adapter call is made and the
    attempt counter does not move; a flag left from before the call is
    cleared, so the first attempt always begins.  When stop is first pressed
    while an attempt streams, no further attempt is started, and the calls
    of the attempt are those that obtain the engine, the chat completion and
    those of the buttons; [interruptGenerate] is among them if the model was
    not changed earlier in the stream, and after a change of the model the
    press reaches no adapter.  How the call ends is decided by how the
    stream ends: an abort error ends it as stopped; a normal end with a
    valid block ends it with success and these blocks; any other end is
    followed by the stop at the head of the loop, or, in the tenth attempt,
    by the failure of its cause.  Unless the call succeeds the selection
    and the cached models are as they were. *)
Theorem stop_semantics fuel envs p (s_entry s : State) c engine pre post
    (Hentry_stop : shouldStopRef s_entry = true)
    (Hentry_budget : (attempt s_entry < maxRetries)%nat)
    (Hbudget : (attempt s < maxRetries)%nat)
    (Hnostop : shouldStopRef s = false)
    (Hctrl : abortControllerRef s = Some c)
    (Hsignal : ctrl_aborted c = false)
    (Hopens : stream_opens (envs (S (attempt s))) p s engine)
    (Hcreation : ~ In (Acted PressStop) (creation (envs (S (attempt s)))))
    (Hpress : stream_events (envs (S (attempt s))) = pre ++ UserStop :: post)
    (Hfirst : ~ In UserStop pre) :
  (generateLoop (S fuel) envs p s_entry = Some (ExitStoppedAtEntry, stopped s_entry) /\
   hook (stopped s_entry) = hook s_entry /\
   attempt (stopped s_entry) = attempt s_entry) /\
  (forall s0 : State, exists b, beginAttempt (startGeneration p s0) = Some b) /\
  exists e s' opening,
    generateLoop (S (S fuel)) envs p s = Some (e, s') /\
    attempt s' = S (attempt s) /\
    adapterCalls (hook s') =
      adapterCalls (hook s) ++ opening ++
      ChatCompletionsCreate engine ::
        button_calls (Some engine) true (stream_events (envs (S (attempt s)))) /\
    Forall (fun call => is_chat_call call = false) opening /\
    ((forall value, ~ In (UserChangeModel value) pre) ->
     In (InterruptGenerate engine)
        (button_calls (Some engine) true (stream_events (envs (S (attempt s)))))) /\
    ((exists value, In (UserChangeModel value) pre) ->
     button_calls (Some engine) true (stream_events (envs (S (attempt s)))) =
     button_calls (Some engine) true pre) /\
    (forall err, stream_end (envs (S (attempt s))) = Some err ->
                 isAbortError err = true -> e = ExitStoppedOnAbort) /\
    (stream_end (envs (S (attempt s))) = None ->
     valid_blocks (streamed_text (stream_events (envs (S (attempt s))))) <> [] ->
     e = ExitSuccess /\
     extractedSVGs s' =
       valid_blocks (streamed_text (stream_events (envs (S (attempt s)))))) /\
    (forall cause,
       attempt_cause (stream_result (envs (S (attempt s)))) = Some cause ->
       ((S (attempt s) < maxRetries)%nat -> e = ExitStoppedAtEntry) /\
       (S (attempt s) = maxRetries ->
        e = cause_exit cause /\ last (toasts s') = Some (cause_toast cause))) /\
    (e <> ExitSuccess ->
     selectedSVGIndex s' = selectedSVGIndex s /\ cachedModels s' = cachedModels s).
Proof.
  split.
  { split; [apply generateLoop_stopped_at_entry; assumption|]. split; reflexivity. }
  split; [apply startGeneration_begins|].
  destruct (stream_attempt (envs (S (attempt s))) p s c engine Hnostop Hctrl Hsignal
              Hopens Hcreation)
    as (b & s1 & opening & Hb & Hgen & Hlv & Hcalls & Hall & Hflag & _).
  assert (Hin : In UserStop (stream_events (envs (S (attempt s)))))
    by (rewrite Hpress; apply in_or_app; right; left; reflexivity).
  specialize (Hflag Hin).
  pose proof (beginAttempt_Some s b Hb) as (_ & Hatt & _ & _ & Hsel & Hcm & _).
  unfold loop_view in Hlv. inversion Hlv as [[Ha1 Hn1 Hs1 Hc1]].
  rewrite (generateLoop_step _ envs p s Hbudget), (iteration_begun _ p s b Hb), Hgen.
  destruct (stopped_dispatch fuel envs p (stream_result (envs (S (attempt s)))) s1 Hflag)
    as (e & s' & Hrun & Hhook & Hatt' & Habort & Hsuccess & Hcause & Hkeep);
    [lia|].
  exists e, s', opening. split; [exact Hrun|]. split; [congruence|].
  split; [rewrite Hhook; exact Hcalls|]. split; [exact Hall|].
  split.
  { intros Hmodel. rewrite Hpress.
    apply button_calls_pressed; [left; reflexivity | exact Hfirst | exact Hmodel]. }
  split.
  { intros Hmodel. rewrite Hpress. apply button_calls_silent. left. exact Hmodel. }
  split.
  { intros err Hend Hab. apply (Habort err); [|exact Hab].
    unfold stream_result. rewrite Hend. reflexivity. }
  split.
  { intros Hend Hv. apply Hsuccess; [|exact Hv].
    unfold stream_result. rewrite Hend. reflexivity. }
  split.
  { intros cause Hc. destruct (Hcause cause Hc) as [Hbefore Htenth].
    split; intros Hn; [apply Hbefore | apply Htenth]; lia. }
  intros Hne. destruct (Hkeep Hne) as [Hs Hc']. split; congruence.
Qed.

(** ** The retry button *)

(** C3, as far as the code goes.  When the retry button is pressed during
    the stream of an attempt in which stop is not pressed, and the stream
    ends with an abort error, the iteration ends in [continue]: the attempt
    counter has advanced by one, exactly as after any recoverable attempt
    such as a transport failure, and a new controller, different from the
    one of the skipped attempt and not aborted, is in place.  The calls of
    the attempt are those that obtain the engine, the chat completion and
    those of the buttons; [interruptGenerate] is among them if the model was
    not changed earlier in the stream, and after a change of the model the
    press reaches no adapter.  If the skipped attempt was not the tenth, the
    next iteration begins the following attempt with an empty buffer and the
    new controller; if it was the tenth, the loop is left and the call ends
    with the maximum-retries failure. *)
Theorem skip_semantics fuel envs p (s : State) c engine err env_t pre post
    (Hbudget : (attempt s < maxRetries)%nat)
    (Hnostop : shouldStopRef s = false)
    (Hctrl : abortControllerRef s = Some c)
    (Hsignal : ctrl_aborted c = false)
    (Hknown : (ctrl_id c < nextControllerId s)%nat)
    (Hopens : stream_opens (envs (S (attempt s))) p s engine)
    (Hcreation : ~ In (Acted PressStop) (creation (envs (S (attempt s)))))
    (Hskip : stream_events (envs (S (attempt s))) = pre ++ UserSkip :: post)
    (Hquiet : ~ In UserStop (stream_events (envs (S (attempt s)))))
    (Hend : stream_end (envs (S (attempt s))) = Some err)
    (Habort : isAbortError err = true)
    (Htransport : recoverable env_t) :
  exists s1 fresh opening,
    iteration (envs (S (attempt s))) p s = Continue s1 /\
    attempt s1 = S (attempt s) /\
    shouldStopRef s1 = false /\
    abortControllerRef s1 = Some fresh /\
    fresh <> c /\ ctrl_aborted fresh = false /\
    adapterCalls (hook s1) =
      adapterCalls (hook s) ++ opening ++
      ChatCompletionsCreate engine ::
        button_calls (Some engine) true (stream_events (envs (S (attempt s)))) /\
    Forall (fun call => is_chat_call call = false) opening /\
    ((forall value, ~ In (UserChangeModel value) pre) ->
     In (InterruptGenerate engine)
        (button_calls (Some engine) true (stream_events (envs (S (attempt s)))))) /\
    ((exists value, In (UserChangeModel value) pre) ->
     button_calls (Some engine) true (stream_events (envs (S (attempt s)))) =
     button_calls (Some engine) true pre) /\
    generateLoop (S (S fuel)) envs p s = generateLoop (S fuel) envs p s1 /\
    ((S (attempt s) < maxRetries)%nat ->
     exists b, beginAttempt s1 = Some b /\ attempt b = S (S (attempt s)) /\
               currentOutput b = [] /\ aiRawOutput b = [] /\
               abortControllerRef b = Some fresh) /\
    (S (attempt s) = maxRetries ->
     generateLoop (S (S fuel)) envs p s = Some (ExitMaxRetries, afterLoop s1)) /\
    (exists s_t, attempt s_t = attempt s1 /\
       (iteration env_t p s = Continue s_t \/
        exists e, iteration env_t p s = Return e s_t)).
Proof.
  destruct (stream_attempt (envs (S (attempt s))) p s c engine Hnostop Hctrl Hsignal
              Hopens Hcreation)
    as (b & s1 & opening & Hb & Hgen & Hlv & Hcalls & Hall & _ & Hsv).
  specialize (Hsv Hquiet). destruct (signal_of_stop_view _ _ Hsv) as [Hstop1 Hctrl1].
  pose proof (beginAttempt_Some s b Hb) as (_ & Hatt & _ & Hnext & _).
  unfold loop_view in Hlv. inversion Hlv as [[Ha1 Hn1 Hs1 Hc1]].
  assert (Hit : iteration (envs (S (attempt s))) p s =
                Continue (new_controller (addLog LogSkipping s1))).
  { rewrite (iteration_begun _ p s b Hb), Hgen, Hend. unfold onError.
    rewrite Habort, Hstop1, Hnostop. reflexivity. }
  assert (Hpre : ~ In UserStop pre).
  { intros Hin. apply Hquiet. rewrite Hskip. apply in_or_app. left. exact Hin. }
  exists (new_controller (addLog LogSkipping s1)),
    {| ctrl_id := nextControllerId s1; ctrl_aborted := false |}, opening.
  cbn [new_controller addLog setDebugLogs attempt shouldStopRef abortControllerRef hook].
  split; [exact Hit|]. split; [congruence|]. split; [congruence|].
  split; [reflexivity|]. split.
  { intros Heq. rewrite <- Heq in Hknown. cbn in Hknown. lia. }
  split; [reflexivity|]. split; [exact Hcalls|]. split; [exact Hall|]. split.
  { intros Hmodel. rewrite Hskip.
    apply button_calls_pressed; [right; reflexivity | exact Hpre | exact Hmodel]. }
  split.
  { intros Hmodel. rewrite Hskip. apply button_calls_silent. left. exact Hmodel. }
  split.
  { rewrite (generateLoop_step _ envs p s Hbudget), Hit. reflexivity. }
  split; [|split].
  - intros Hlt.
    destruct (beginAttempt (new_controller (addLog LogSkipping s1))) as [b'|] eqn:Hb'.
    + pose proof (beginAttempt_Some _ b' Hb') as (_ & Hatt' & Hsv' & _ & _ & _ & _ & Hout).
      destruct (signal_of_stop_view _ _ Hsv') as [_ Hctrl'].
      cbn [new_controller addLog setDebugLogs attempt abortControllerRef] in Hatt', Hctrl', Hout.
      destruct (Hout ltac:(lia)) as [Ho1 Ho2].
      exists b'. split; [reflexivity|]. split; [congruence|]. auto.
    + unfold beginAttempt in Hb'.
      cbn [new_controller addLog setDebugLogs shouldStopRef] in Hb'.
      rewrite Hstop1, Hnostop in Hb'. discriminate.
  - intros Hmax. rewrite (generateLoop_step _ envs p s Hbudget), Hit.
    apply generateLoop_exhausted.
    cbn [new_controller addLog setDebugLogs attempt]. lia.
  - destruct (iteration_recoverable env_t p s Hnostop)
      as (b_t & s1_t & r_t & c_t & s2_t & _ & _ & _ & _ & Hatt_t & Hit_t).
    { rewrite Hctrl. exact Hsignal. }
    { exact Htransport. }
    destruct (S (attempt s) <? maxRetries)%nat.
    + exists s2_t. split; [congruence|]. left. exact Hit_t.
    + eexists. split; [|right; eexists; exact Hit_t].
      destruct r_t; cbn [toast set_controller attempt]; congruence.
Qed.

End Properties.

(** ** The engine and the cache *)

Section HookProperties.

Context `{Externals}.

Lemma initializeEngine_wf cenv modelId signal (h : Hook) :
  hook_wf h -> hook_wf (fst (fst (initializeEngine cenv modelId signal h))).
Proof.
  unfold hook_wf, initializeEngine. intros Hwf.
  destruct (reusable_engine h modelId); [exact Hwf|].
  destruct (signal_aborted signal); [exact Hwf|].
  destruct (create_result cenv) as [engine|e]; [|destruct (isAbortError e)]; cbn.
  - split; discriminate.
  - exact Hwf.
  - split; reflexivity.
Qed.

(** C8.  When the model asked for is the one the hook was last
    initialized with, [initializeEngine] returns the engine it holds
    without touching the hook or the adapter, whatever the abort signal.
    [resetEngine], and with it a change of model, clears both refs; the
    next [initializeEngine], for any model, then asks the adapter for a new
    engine.  The refs stay paired throughout. *)
Theorem engine_reuse_and_reset cenv modelId modelId' signal signal' value
    (h : Hook) (s : State)
    (Hwf : hook_wf h)
    (Hsame : currentModelRef h = Some modelId)
    (Hsignal : signal_aborted signal' = false) :
  (exists e, engineRef h = Some e /\
             initializeEngine cenv modelId signal h = (h, [], Ok e)) /\
  (engineRef (resetEngine h) = None /\ currentModelRef (resetEngine h) = None /\
   hook (handleModelChange value s) = resetEngine (hook s)) /\
  (adapterCalls (fst (fst (initializeEngine cenv modelId' signal' (resetEngine h)))) =
     adapterCalls h ++ [CreateMLCEngine modelId'] /\
   snd (initializeEngine cenv modelId' signal' (resetEngine h)) = create_result cenv) /\
  (hook_wf (resetEngine h) /\
   hook_wf (fst (fst (initializeEngine cenv modelId' signal' h))) /\
   hook_wf (interruptGenerate h) /\
   hook_wf hook_init).
Proof.
  split; [|split; [|split]].
  - destruct (engineRef h) as [e|] eqn:He.
    + exists e. split; [reflexivity|]. unfold initializeEngine, reusable_engine.
      rewrite He, Hsame. unfold str_eqb. rewrite bool_decide_eq_true_2 by reflexivity.
      reflexivity.
    + apply Hwf in He. congruence.
  - split; [reflexivity|]. split; reflexivity.
  - split.
    + unfold initializeEngine. cbn. rewrite Hsignal.
      destruct (create_result cenv) as [engine|e]; [|destruct (isAbortError e)]; reflexivity.
    + rewrite initializeEngine_result. cbn. rewrite Hsignal. reflexivity.
  - split; [unfold hook_wf; cbn; tauto|].
    split; [apply initializeEngine_wf; exact Hwf|].
    split; [|unfold hook_wf; cbn; tauto].
    unfold interruptGenerate. destruct (engineRef h); exact Hwf.
Qed.

End HookProperties.

Lemma for_each_throw {A B} (f : A -> Result B) pre x post e :
  (forall y, In y pre -> exists b, f y = Ok b) ->
  f x = Throw e ->
  for_each f (pre ++ x :: post) = Throw e.
Proof.
  intros Hpre Hx. induction pre as [|y pre IH]; simpl.
  - rewrite Hx. reflexivity.
  - destruct (Hpre y (or_introl eq_refl)) as [b ->]. simpl.
    apply IH. intros z Hz. apply Hpre. right. exact Hz.
Qed.

Lemma for_each_ok {A B} (f : A -> Result B) xs :
  for_each f xs = Ok tt -> forall x, In x xs -> exists b, f x = Ok b.
Proof.
  induction xs as [|y xs IH]; simpl; intros Hok x Hin; [destruct Hin|].
  destruct (f y) as [b|e] eqn:Hy; [|discriminate]. simpl in Hok.
  destruct Hin as [<-|Hin]; [eauto | apply IH; assumption].
Qed.

Lemma for_each_pass {A B} (f : A -> Result B) xs :
  for_each f xs = Ok tt <-> forall x, In x xs -> exists b, f x = Ok b.
Proof.
  split; [apply for_each_ok|].
  induction xs as [|x xs IH]; intros Hall; [reflexivity|]. cbn [for_each].
  destruct (Hall x (or_introl eq_refl)) as [b ->]. cbn [bind].
  apply IH. intros y Hy. apply Hall. right. exact Hy.
Qed.

Lemma clearIndexedDB_pass env : clearIndexedDB env = Ok tt <-> databases_pass env.
Proof.
  unfold clearIndexedDB, databases_pass. destruct (indexedDB_defined env).
  - destruct (indexedDB_databases env) as [names|e]; cbn [bind].
    + rewrite for_each_pass. split.
      * intros Hall _. exists names. split; [reflexivity | exact Hall].
      * intros Hp. destruct (Hp eq_refl) as (names' & Heq & Hall).
        inversion Heq; subst. exact Hall.
    + split; [discriminate|]. intros Hp. destruct (Hp eq_refl) as (names & Heq & _).
      discriminate.
  - split; [discriminate | reflexivity].
Qed.

Lemma clearCacheStorage_pass env : clearCacheStorage env = Ok tt <-> caches_pass env.
Proof.
  unfold clearCacheStorage, caches_pass. destruct (caches_defined env).
  - destruct (caches_keys env) as [names|e]; cbn [bind].
    + rewrite for_each_pass. split.
      * intros Hall _. exists names. split; [reflexivity | exact Hall].
      * intros Hp. destruct (Hp eq_refl) as (names' & Heq & Hall).
        inversion Heq; subst. exact Hall.
    + split; [discriminate|]. intros Hp. destruct (Hp eq_refl) as (names & Heq & _).
      discriminate.
  - split; [discriminate | reflexivity].
Qed.

Lemma clearLocalStorage_pass env : clearLocalStorage env = Ok tt <-> localStorage_passes env.
Proof.
  unfold clearLocalStorage, localStorage_passes. destruct (localStorage_defined env).
  - split; auto.
  - split; [discriminate | reflexivity].
Qed.

Lemma clearSessionStorage_pass env :
  clearSessionStorage env = Ok tt <-> sessionStorage_passes env.
Proof.
  unfold clearSessionStorage, sessionStorage_passes. destruct (sessionStorage_defined env).
  - split; auto.
  - split; [discriminate | reflexivity].
Qed.

Lemma unregisterServiceWorkers_pass env :
  unregisterServiceWorkers env = Ok tt <-> workers_pass env.
Proof.
  unfold unregisterServiceWorkers, workers_pass. destruct (serviceWorker_defined env).
  - destruct (serviceWorker_getRegistrations env) as [registrations|e]; cbn [bind].
    + rewrite for_each_pass. split.
      * intros Hall _. exists registrations. split; [reflexivity | exact Hall].
      * intros Hp. destruct (Hp eq_refl) as (registrations' & Heq & Hall).
        inversion Heq; subst. exact Hall.
    + split; [discriminate|]. intros Hp.
      destruct (Hp eq_refl) as (registrations & Heq & _). discriminate.
  - split; [discriminate | reflexivity].
Qed.

Lemma for_each_requests (f g : jsstring -> Result (Result unit)) xs :
  (forall x, match f x, g x with
             | Ok _, Ok _ => True
             | Throw e, Throw e' => e = e'
             | _, _ => False
             end) ->
  for_each f xs = for_each g xs.
Proof.
  intros Hfg. induction xs as [|x xs IH]; [reflexivity|]. cbn [for_each].
  specialize (Hfg x). destruct (f x), (g x); cbn [bind]; try contradiction;
    [exact IH | congruence].
Qed.

(** C9, as far as the code goes.  [hasModelInCache] never throws: an
    error of the adapter is turned into [false].  [deleteModelCache] throws
    the error of the adapter, of the enumeration of the caches, or of the
    first failing deletion of a cache whose name contains the model; it
    returns normally only when each of these calls did.
    [deleteAllModelCache] throws the error of the first call that throws:
    the enumeration of the databases, a call of [indexedDB.deleteDatabase],
    the enumeration of the caches, the deletion of a cache, the clearing of
    [localStorage] or of [sessionStorage], the enumeration of the service
    workers or the unregistration of one; it returns normally exactly when
    every step passes.  What the requests of [indexedDB.deleteDatabase]
    report never reaches the caller. *)
Theorem cache_errors (env : CacheEnv) (modelId : jsstring) (e : JsError) :
  hasModelInCache env modelId =
    Ok (match adapter_hasModelInCache env modelId with Ok b => b | Throw _ => false end) /\
  (adapter_deleteModelInCache env modelId = Throw e ->
   deleteModelCache env modelId = Throw e) /\
  (forall u, adapter_deleteModelInCache env modelId = Ok u -> caches_defined env = true ->
   caches_keys env = Throw e -> deleteModelCache env modelId = Throw e) /\
  (forall u pre name post,
     adapter_deleteModelInCache env modelId = Ok u -> caches_defined env = true ->
     caches_keys env = Ok (pre ++ name :: post) ->
     (forall n, In n pre -> includes n modelId = true -> exists b, caches_delete env n = Ok b) ->
     includes name modelId = true -> caches_delete env name = Throw e ->
     deleteModelCache env modelId = Throw e) /\
  (deleteModelCache env modelId = Ok tt ->
   exists u, adapter_deleteModelInCache env modelId = Ok u /\
     (caches_defined env = true ->
      exists names, caches_keys env = Ok names /\
        forall n, In n names -> includes n modelId = true ->
                  exists b, caches_delete env n = Ok b)) /\
  (indexedDB_defined env = true -> indexedDB_databases env = Throw e ->
   deleteAllModelCache env = Throw e) /\
  (forall pre name post,
     indexedDB_defined env = true -> indexedDB_databases env = Ok (pre ++ name :: post) ->
     (forall n, In n pre -> exists request, indexedDB_deleteDatabase env n = Ok request) ->
     indexedDB_deleteDatabase env name = Throw e ->
     deleteAllModelCache env = Throw e) /\
  (databases_pass env -> caches_defined env = true -> caches_keys env = Throw e ->
   deleteAllModelCache env = Throw e) /\
  (forall pre name post,
     databases_pass env -> caches_defined env = true ->
     caches_keys env = Ok (pre ++ name :: post) ->
     (forall n, In n pre -> exists deleted, caches_delete env n = Ok deleted) ->
     caches_delete env name = Throw e ->
     deleteAllModelCache env = Throw e) /\
  (databases_pass env -> caches_pass env ->
   localStorage_defined env = true -> localStorage_clear env = Throw e ->
   deleteAllModelCache env = Throw e) /\
  (databases_pass env -> caches_pass env -> localStorage_passes env ->
   sessionStorage_defined env = true -> sessionStorage_clear env = Throw e ->
   deleteAllModelCache env = Throw e) /\
  (databases_pass env -> caches_pass env -> localStorage_passes env ->
   sessionStorage_passes env ->
   serviceWorker_defined env = true -> serviceWorker_getRegistrations env = Throw e ->
   deleteAllModelCache env = Throw e) /\
  (forall pre r post,
     databases_pass env -> caches_pass env -> localStorage_passes env ->
     sessionStorage_passes env ->
     serviceWorker_defined env = true ->
     serviceWorker_getRegistrations env = Ok (pre ++ r :: post) ->
     (forall n, In n pre -> exists done, registration_unregister env n = Ok done) ->
     registration_unregister env r = Throw e ->
     deleteAllModelCache env = Throw e) /\
  (deleteAllModelCache env = Ok tt <->
   databases_pass env /\ caches_pass env /\ localStorage_passes env /\
   sessionStorage_passes env /\ workers_pass env) /\
  (forall outcome, deleteAllModelCache (with_requests outcome env) = deleteAllModelCache env).
Proof.
  split; [unfold hasModelInCache; destruct (adapter_hasModelInCache env modelId); reflexivity|].
  split; [intros Hd; unfold deleteModelCache; rewrite Hd; reflexivity|].
  split; [intros u Hd Hc Hk; unfold deleteModelCache; rewrite Hd, Hc, Hk; reflexivity|].
  split.
  { intros u pre name post Hd Hc Hk Hpre Hinc Hdel.
    unfold deleteModelCache. rewrite Hd, Hc, Hk. cbn [bind rethrow].
    rewrite (for_each_throw _ pre name post e); [reflexivity| |].
    - intros n Hn. destruct (includes n modelId) eqn:Hi; [|eauto].
      destruct (Hpre n Hn Hi) as [b ->]. eauto.
    - rewrite Hinc, Hdel. reflexivity. }
  split.
  { unfold deleteModelCache. intros Hok.
    destruct (adapter_deleteModelInCache env modelId) as [u|e0]; [|discriminate].
    exists u. split; [reflexivity|]. intros Hc. rewrite Hc in Hok. cbn [bind] in Hok.
    destruct (caches_keys env) as [names|e0]; [|discriminate].
    exists names. split; [reflexivity|]. intros n Hn Hinc. cbn [bind] in Hok.
    assert (Hfe : for_each (fun cacheName =>
                    if includes cacheName modelId
                    then do _b <- caches_delete env cacheName; Ok tt
                    else Ok tt) names = Ok tt).
    { destruct (for_each _ names) as [[]|e0]; [reflexivity | discriminate]. }
    destruct (for_each_ok _ names Hfe n Hn) as [b Hb]. rewrite Hinc in Hb.
    destruct (caches_delete env n) as [b'|e0]; [eauto | discriminate]. }
  assert (Hall : deleteAllModelCache env =
                 do _a <- clearIndexedDB env;
                 do _b <- clearCacheStorage env;
                 do _c <- clearLocalStorage env;
                 do _d <- clearSessionStorage env;
                 unregisterServiceWorkers env).
  { unfold deleteAllModelCache, rethrow. destruct (bind _ _); reflexivity. }
  rewrite Hall.
  split.
  { intros Hdef Hdb. unfold clearIndexedDB. rewrite Hdef, Hdb. reflexivity. }
  split.
  { intros pre name post Hdef Hdb Hpre Hdel. unfold clearIndexedDB.
    rewrite Hdef, Hdb. cbn [bind].
    rewrite (for_each_throw _ pre name post e Hpre Hdel). reflexivity. }
  split.
  { intros Hp1 Hdef Hkeys. apply clearIndexedDB_pass in Hp1. rewrite Hp1. cbn [bind].
    unfold clearCacheStorage. rewrite Hdef, Hkeys. reflexivity. }
  split.
  { intros pre name post Hp1 Hdef Hkeys Hpre Hdel.
    apply clearIndexedDB_pass in Hp1. rewrite Hp1. cbn [bind].
    unfold clearCacheStorage. rewrite Hdef, Hkeys. cbn [bind].
    rewrite (for_each_throw _ pre name post e Hpre Hdel). reflexivity. }
  split.
  { intros Hp1 Hp2 Hdef Hclear.
    apply clearIndexedDB_pass in Hp1. apply clearCacheStorage_pass in Hp2.
    rewrite Hp1, Hp2. cbn [bind]. unfold clearLocalStorage. rewrite Hdef, Hclear.
    reflexivity. }
  split.
  { intros Hp1 Hp2 Hp3 Hdef Hclear.
    apply clearIndexedDB_pass in Hp1. apply clearCacheStorage_pass in Hp2.
    apply clearLocalStorage_pass in Hp3.
    rewrite Hp1, Hp2, Hp3. cbn [bind]. unfold clearSessionStorage. rewrite Hdef, Hclear.
    reflexivity. }
  split.
  { intros Hp1 Hp2 Hp3 Hp4 Hdef Hregs.
    apply clearIndexedDB_pass in Hp1. apply clearCacheStorage_pass in Hp2.
    apply clearLocalStorage_pass in Hp3. apply clearSessionStorage_pass in Hp4.
    rewrite Hp1, Hp2, Hp3, Hp4. cbn [bind]. unfold unregisterServiceWorkers.
    rewrite Hdef, Hregs. reflexivity. }
  split.
  { intros pre r post Hp1 Hp2 Hp3 Hp4 Hdef Hregs Hpre Hun.
    apply clearIndexedDB_pass in Hp1. apply clearCacheStorage_pass in Hp2.
    apply clearLocalStorage_pass in Hp3. apply clearSessionStorage_pass in Hp4.
    rewrite Hp1, Hp2, Hp3, Hp4. cbn [bind]. unfold unregisterServiceWorkers.
    rewrite Hdef, Hregs. cbn [bind].
    rewrite (for_each_throw _ pre r post e Hpre Hun). reflexivity. }
  split.
  { rewrite <- clearIndexedDB_pass, <- clearCacheStorage_pass, <- clearLocalStorage_pass,
      <- clearSessionStorage_pass, <- unregisterServiceWorkers_pass.
    split.
    - intros Hok.
      destruct (clearIndexedDB env) as [[]|]; [|discriminate].
      destruct (clearCacheStorage env) as [[]|]; [|discriminate].
      destruct (clearLocalStorage env) as [[]|]; [|discriminate].
      destruct (clearSessionStorage env) as [[]|]; [|discriminate].
      destruct (unregisterServiceWorkers env) as [[]|]; [|discriminate].
      repeat split.
    - intros (-> & -> & -> & -> & ->). reflexivity. }
  intros outcome. rewrite <- Hall.
  unfold deleteAllModelCache, clearIndexedDB, clearCacheStorage, clearLocalStorage,
    clearSessionStorage, unregisterServiceWorkers.
  cbn [with_requests indexedDB_defined indexedDB_databases indexedDB_deleteDatabase
         caches_defined caches_keys caches_delete localStorage_defined localStorage_clear
         sessionStorage_defined sessionStorage_clear serviceWorker_defined
         serviceWorker_getRegistrations registration_unregister].
  destruct (indexedDB_defined env); [|reflexivity].
  destruct (indexedDB_databases env) as [names|]; [|reflexivity]. cbn [bind].
  rewrite (for_each_requests
             (fun name => match indexedDB_deleteDatabase env name with
                          | Ok _ => Ok (outcome name)
                          | Throw e0 => Throw e0
                          end)
             (indexedDB_deleteDatabase env) names); [reflexivity|].
  intros x. destruct (indexedDB_deleteDatabase env x); auto.
Qed.

(** ** The extraction on whole buffers *)

Section Extraction.

Context `{Externals}.

(** C4.  A buffer made of [n] blocks, each an opening tag, any text and
    the first closing tag after it, tags in any case, with no opening tag
    in the text before each block and no block in the text after the last,
    yields exactly these [n] blocks, in order; with [n = 0], a buffer
    without any block yields nothing and [match] returns [null].  If the
    blocks also pass [isSvg], they are the valid blocks of the buffer; and
    a buffer none of whose blocks passes [isSvg] has no valid block. *)
Theorem extract_blocks (parts : list (jsstring * jsstring)) (tail buffer : jsstring)
    (Hparts : Forall (fun gb => ~ occurs svg_open (fst gb) /\ svg_block (snd gb)) parts)
    (Htail : no_block tail)
    (Hbuffer : forall pre b post,
       buffer = pre ++ b ++ post -> svg_block b -> isSvg b = false) :
  svg_matches (assemble parts tail) = map snd parts /\
  length (svg_matches (assemble parts tail)) = length parts /\
  match_svg (assemble parts tail) =
    match parts with [] => None | _ :: _ => Some (map snd parts) end /\
  (Forall (fun gb => isSvg (snd gb) = true) parts ->
   valid_blocks (assemble parts tail) = map snd parts) /\
  valid_blocks buffer = [].
Proof.
  pose proof (svg_matches_assemble parts tail Hparts Htail) as Hm.
  split; [exact Hm|]. split; [rewrite Hm, length_map; reflexivity|].
  split; [|split].
  - rewrite match_svg_eq, Hm. destruct parts; reflexivity.
  - intros Hvalid. unfold valid_blocks. rewrite Hm. clear Hm Hparts.
    induction Hvalid as [|gb parts' Hgb _ IH]; simpl; [reflexivity|].
    rewrite Hgb, IH. reflexivity.
  - unfold valid_blocks, svg_matches.
    destruct (List.filter isSvg (svg_matches_from (length buffer) buffer))
      as [|v vs] eqn:Hf; [reflexivity|].
    assert (Hin : In v (List.filter isSvg (svg_matches_from (length buffer) buffer)))
      by (rewrite Hf; left; reflexivity).
    apply filter_In in Hin as [Hin Hv].
    destruct (svg_matches_from_sub _ _ _ Hin) as (pre & post & Heq & Hb).
    rewrite (Hbuffer pre v post Heq Hb) in Hv. discriminate.
Qed.

End Extraction.

Lemma svg_here_is_block b : svg_here b = Some (b, []) -> svg_block b.
Proof. intros Hh. apply svg_here_sound in Hh as [_ Hb]. exact Hb. Qed.

(** ** The preview while the stream grows *)






Section Preview.

Context `{Externals}.



Lemma handleStop_preview (s : State) :
  extractedSVGs (handleStop s) = extractedSVGs s /\
  currentOutput (handleStop s) = currentOutput s /\
  aiRawOutput (handleStop s) = aiRawOutput s.
Proof. unfold handleStop. destruct (abortControllerRef s); repeat split. Qed.

Lemma handleRetry_preview (s : State) :
  extractedSVGs (handleRetry s) = extractedSVGs s /\
  currentOutput (handleRetry s) = currentOutput s /\
  aiRawOutput (handleRetry s) = aiRawOutput s.
Proof. unfold handleRetry. destruct (abortControllerRef s); repeat split. Qed.

Lemma userAction_preview a (s : State) :
  extractedSVGs (userAction a s) = extractedSVGs s /\
  currentOutput (userAction a s) = currentOutput s /\
  aiRawOutput (userAction a s) = aiRawOutput s.
Proof.
  destruct a; cbn [userAction];
    [apply handleStop_preview | apply handleRetry_preview | repeat split].
Qed.

Lemma run_waiting_preview events : forall s : State,
  extractedSVGs (run_waiting events s) = extractedSVGs s /\
  currentOutput (run_waiting events s) = currentOutput s /\
  aiRawOutput (run_waiting events s) = aiRawOutput s.
Proof.
  induction events as [|[content|a] events IH]; intros s; simpl; [repeat split | apply IH |].
  destruct (IH (userAction a s)) as (He & Hc & Ha).
  destruct (userAction_preview a s) as (He' & Hc' & Ha').
  repeat split; congruence.
Qed.

Lemma run_creation_preview events : forall s : State,
  extractedSVGs (run_creation events s) = extractedSVGs s /\
  currentOutput (run_creation events s) = currentOutput s /\
  aiRawOutput (run_creation events s) = aiRawOutput s.
Proof.
  induction events as [|[text|a] events IH]; intros s; simpl;
    [repeat split | apply (IH (onProgress text s)) |].
  destruct (IH (userAction a s)) as (He & Hc & Ha).
  destruct (userAction_preview a s) as (He' & Hc' & Ha').
  repeat split; congruence.
Qed.

Lemma initializeEngine_await_preview env modelId signal (s : State) :
  extractedSVGs (fst (initializeEngine_await env modelId signal s)) = extractedSVGs s /\
  currentOutput (fst (initializeEngine_await env modelId signal s)) = currentOutput s /\
  aiRawOutput (fst (initializeEngine_await env modelId signal s)) = aiRawOutput s.
Proof.
  unfold initializeEngine_await. destruct (reusable_engine (hook s) modelId); [repeat split|].
  destruct (signal_aborted signal); [repeat split|].
  destruct (run_creation_preview (creation env)
              (set_hook (fun h => record_call (CreateMLCEngine modelId)
                                    (set_isInitializing true h)) s)) as (He & Hc & Ha).
  destruct (creation_result env) as [engine|e];
    cbn [fst set_hook extractedSVGs currentOutput aiRawOutput];
    rewrite He, Hc, Ha; repeat split.
Qed.






End Preview.

(** ** The buffer and the response *)

Section Postconditions.

Context `{Externals}.

Lemma onChunk_buffer chunk (s : State) :
  currentOutput (onChunk chunk s) = currentOutput s ++ chunk /\
  (aiRawOutput s = currentOutput s ->
   aiRawOutput (onChunk chunk s) = currentOutput (onChunk chunk s)).
Proof.
  unfold onChunk. destruct chunk as [|c chunk].
  - rewrite app_nil_r. auto.
  - destruct (match_svg _) as [ms|]; [destruct (0 <? length ms)%nat|];
      (split; [reflexivity | intros _; reflexivity]).
Qed.

Lemma run_stream_buffer signal events ending : forall full (s : State),
  exists text,
    currentOutput (fst (run_stream signal events ending full s)) = currentOutput s ++ text /\
    (aiRawOutput s = currentOutput s ->
     aiRawOutput (fst (run_stream signal events ending full s)) =
     currentOutput (fst (run_stream signal events ending full s))) /\
    forall full', snd (run_stream signal events ending full s) = Ok full' ->
                  full' = full ++ text.
Proof.
  induction events as [|[content|a] events IH]; intros full s; simpl.
  - exists []. rewrite !app_nil_r.
    destruct ending; simpl; (split; [reflexivity|]); (split; [auto|]);
      intros full' Hr; [discriminate | congruence].
  - destruct (signal_aborted signal).
    + exists []. rewrite app_nil_r. simpl. split; [reflexivity|]. split; [auto|].
      intros full' Hr. discriminate.
    + destruct (onChunk_buffer content s) as [Hc Ha].
      destruct (IH (full ++ content) (onChunk content s)) as (text & Hcur & Hraw & Hfull).
      exists (content ++ text).
      split; [rewrite Hcur, Hc, <- app_assoc; reflexivity|].
      split; [intros Heq; apply Hraw, Ha, Heq|].
      intros full' Hr. rewrite (Hfull full' Hr), <- app_assoc. reflexivity.
  - destruct (userAction_preview a s) as (_ & Hc & Ha).
    destruct (IH full (userAction a s)) as (text & Hcur & Hraw & Hfull).
    exists text. split; [rewrite Hcur, Hc; reflexivity|].
    split; [intros Heq; apply Hraw; congruence | exact Hfull].
Qed.

Lemma generateSVG_buffer env p signal (s : State) :
  exists text,
    currentOutput (fst (generateSVG env p signal s)) = currentOutput s ++ text /\
    (aiRawOutput s = currentOutput s ->
     aiRawOutput (fst (generateSVG env p signal s)) =
     currentOutput (fst (generateSVG env p signal s))) /\
    forall full, snd (generateSVG env p signal s) = Ok full -> full = text.
Proof.
  unfold generateSVG.
  destruct (initializeEngine_await_preview env (selectedModel p) signal
              (set_hook (set_isGenerating true) s)) as (_ & Hc0 & Ha0).
  destruct (initializeEngine_await _ _ _ _) as [s0 r].
  cbn [fst set_hook currentOutput aiRawOutput] in Hc0, Ha0.
  destruct r as [engine|e].
  2:{ exists []. rewrite app_nil_r. simpl. split; [exact Hc0|]. split; [congruence|].
      intros full Hr. discriminate. }
  destruct (signal_aborted signal).
  { exists []. rewrite app_nil_r. simpl. split; [exact Hc0|]. split; [congruence|].
    intros full Hr. discriminate. }
  destruct (chat_create_error env).
  { exists []. rewrite app_nil_r. cbn [fst snd set_hook currentOutput aiRawOutput].
    match goal with |- context [run_waiting ?evs ?s1] =>
      destruct (run_waiting_preview evs s1) as (_ & Hc1 & Ha1) end.
    rewrite Hc1, Ha1. cbn. split; [exact Hc0|]. split; [congruence|].
    intros full Hr. discriminate. }
  match goal with |- context [run_stream ?a ?b ?c ?d ?e] =>
    destruct (run_stream_buffer a b c d e) as (text & Hcur & Hraw & Hfull);
    destruct (run_stream a b c d e) as [s' [full'|e']] end;
    simpl in Hcur, Hraw, Hfull; exists text; simpl; rewrite <- Hc0.
  - split; [exact Hcur|]. split; [intros Heq; apply Hraw; congruence|].
    intros full Hr. inversion Hr; subst. exact (Hfull full eq_refl).
  - split; [exact Hcur|]. split; [intros Heq; apply Hraw; congruence|].
    intros full Hr. discriminate.
Qed.

Lemma beginAttempt_buffer (s b : State) :
  buffer_reset s -> beginAttempt s = Some b ->
  currentOutput b = [] /\ aiRawOutput b = [].
Proof.
  intros Hreset Hb. destruct (attempt s) as [|n] eqn:Hn.
  - unfold beginAttempt in Hb. destruct (shouldStopRef s); [discriminate|].
    inversion Hb; subst; clear Hb. cbn [set_attempt attempt]. rewrite Hn. cbn.
    exact (Hreset Hn).
  - apply beginAttempt_Some in Hb as (_ & _ & _ & _ & _ & _ & _ & Hout).
    apply Hout. lia.
Qed.

(** What one iteration leaves behind, by the way it ends. *)
Lemma iteration_post env p (s : State) :
  buffer_reset s ->
  match iteration env p s with
  | Continue s' =>
      cachedModels s' = cachedModels s /\ selectedSVGIndex s' = selectedSVGIndex s /\
      attempt s' = S (attempt s)
  | Return e s' =>
      (e = ExitSuccess /\
       extractedSVGs s' = valid_blocks (aiRawOutput s') /\
       extractedSVGs s' <> [] /\
       selectedSVGIndex s' = (Z.of_nat (length (extractedSVGs s')) - 1)%Z /\
       cachedModels s' = cachedModels s ∪ {[ selectedModel p ]} /\
       abortControllerRef s' = None) \/
      (e <> ExitSuccess /\
       cachedModels s' = cachedModels s /\ selectedSVGIndex s' = selectedSVGIndex s /\
       (e <> ExitNoSvgFound -> e <> ExitNoValidSvg -> abortControllerRef s' = None))
  end.
Proof.
  intros Hreset. destruct (beginAttempt s) as [b|] eqn:Hb.
  - rewrite (iteration_begun env p s b Hb).
    destruct (beginAttempt_buffer s b Hreset Hb) as [Hcur Hraw].
    apply beginAttempt_Some in Hb as (_ & Hatt & _ & _ & Hsel & Hcm & _).
    pose proof (generateSVG_loop_view env p (abortControllerRef b) b) as Hg.
    destruct (generateSVG_buffer env p (abortControllerRef b) b) as (text & Hc1 & Hr1 & Hfull).
    destruct (generateSVG env p (abortControllerRef b) b) as [s1 [fullResponse|error]];
      unfold loop_view in Hg; simpl in Hg, Hc1, Hr1, Hfull;
      inversion Hg as [[Ha1 Hn1 Hs1 Hm1]].
    + destruct (valid_blocks fullResponse) as [|v vs] eqn:Hv.
      * destruct (onResponse_retry p fullResponse s1 Hv) as (c & logs & Hcause & ->).
        unfold retryOrGiveUp. cbn [setDebugLogs attempt].
        destruct (_ <? _)%nat.
        -- cbn. repeat split; congruence.
        -- right. cbn. split; [destruct c; discriminate|].
           split; [congruence|]. split; [congruence|].
           intros H1 H2. exfalso. unfold attempt_cause in Hcause.
           destruct (svg_matches fullResponse); [inversion Hcause; subst; auto|].
           destruct (valid_blocks fullResponse); [inversion Hcause; subst; auto | discriminate].
      * destruct (onResponse_success p fullResponse s1) as (logs & -> & _);
          [rewrite Hv; discriminate|].
        left. split; [reflexivity|]. cbn.
        rewrite (Hr1 ltac:(congruence)), Hc1, Hcur, <- (Hfull fullResponse eq_refl).
        split; [reflexivity|]. split; [rewrite Hv; discriminate|].
        split; [reflexivity|]. split; [congruence | reflexivity].
    + unfold onError.
      destruct (isAbortError error); [destruct (shouldStopRef s1)|
        destruct (maxRetries <=? _)%nat]; cbn.
      * right. split; [discriminate|]. repeat split; congruence.
      * repeat split; congruence.
      * right. split; [discriminate|]. repeat split; congruence.
      * repeat split; congruence.
  - unfold iteration. rewrite Hb. right. split; [discriminate|]. repeat split.
Qed.

(** Induction over the loop: a property kept by every iteration that
    continues holds when the loop returns. *)
Lemma generateLoop_inv envs p (I : State -> Prop) (Q : Exit -> State -> Prop) :
  (forall s, I s -> (attempt s < maxRetries)%nat ->
     match iteration (envs (S (attempt s))) p s with
     | Continue s' => I s'
     | Return e s' => Q e s'
     end) ->
  (forall s, I s -> (maxRetries <= attempt s)%nat -> Q ExitMaxRetries (afterLoop s)) ->
  forall fuel s e s',
    I s -> generateLoop fuel envs p s = Some (e, s') -> Q e s'.
Proof.
  intros Hstep Hend. induction fuel as [|fuel IH]; intros s e s' Hs Hloop.
  - discriminate.
  - cbn [generateLoop] in Hloop.
    destruct (attempt s <? maxRetries)%nat eqn:Hlt.
    + apply Nat.ltb_lt in Hlt. specialize (Hstep s Hs Hlt).
      destruct (iteration (envs (S (attempt s))) p s) as [e0 s0|s0].
      * inversion Hloop; subst. exact Hstep.
      * exact (IH s0 e s' Hstep Hloop).
    + apply Nat.ltb_ge in Hlt. inversion Hloop; subst. apply Hend; assumption.
Qed.

(** X2.  What a call of [handleGenerate] leaves behind.  On success the
    accepted blocks are exactly the valid blocks of the raw text on
    display, there is at least one, each passes [isSvg], the selection is
    the last of them, and the model has joined the cached models.  On every
    other exit the cached models are untouched, and once the loop was
    entered the selection is 0.  The controller ref is cleared on every
    exit from the loop except the two that report that no SVG was found. *)
Theorem handleGenerate_leaves envs p (s s' : State) e
    (Hrun : handleGenerate envs p s = Some (e, s')) :
  (e = ExitSuccess ->
   extractedSVGs s' = valid_blocks (aiRawOutput s') /\
   extractedSVGs s' <> [] /\
   Forall (fun block => isSvg block = true) (extractedSVGs s') /\
   selectedSVGIndex s' = (Z.of_nat (length (extractedSVGs s')) - 1)%Z /\
   cachedModels s' = cachedModels s ∪ {[ selectedModel p ]}) /\
  (e <> ExitSuccess ->
   cachedModels s' = cachedModels s /\
   (e <> ExitPromptRequired -> e <> ExitModelRequired -> selectedSVGIndex s' = 0%Z)) /\
  (e = ExitSuccess \/ stopped_exit e \/ e = ExitMaxRetries \/ (exists err, e = ExitFailed err) ->
   abortControllerRef s' = None).
Proof.
  unfold handleGenerate in Hrun.
  destruct (is_blank (prompt p)).
  { inversion Hrun; subst. split; [discriminate|]. split.
    - intros _. split; [reflexivity|]. intros Hp. contradiction Hp; reflexivity.
    - intros [Hd|[[Hd|Hd]|[Hd|[err Hd]]]]; discriminate. }
  destruct (bool_decide (selectedModel p = [])).
  { inversion Hrun; subst. split; [discriminate|]. split.
    - intros _. split; [reflexivity|]. intros _ Hp. contradiction Hp; reflexivity.
    - intros [Hd|[[Hd|Hd]|[Hd|[err Hd]]]]; discriminate. }
  refine (generateLoop_inv envs p
            (fun s0 => cachedModels s0 = cachedModels s /\ selectedSVGIndex s0 = 0%Z /\
                       buffer_reset s0)
            (fun e s' =>
               (e = ExitSuccess ->
                extractedSVGs s' = valid_blocks (aiRawOutput s') /\
                extractedSVGs s' <> [] /\
                Forall (fun block => isSvg block = true) (extractedSVGs s') /\
                selectedSVGIndex s' = (Z.of_nat (length (extractedSVGs s')) - 1)%Z /\
                cachedModels s' = cachedModels s ∪ {[ selectedModel p ]}) /\
               (e <> ExitSuccess ->
                cachedModels s' = cachedModels s /\
                (e <> ExitPromptRequired -> e <> ExitModelRequired ->
                 selectedSVGIndex s' = 0%Z)) /\
               (e = ExitSuccess \/ stopped_exit e \/ e = ExitMaxRetries \/
                (exists err, e = ExitFailed err) ->
                abortControllerRef s' = None))
            _ _ _ _ e s' _ Hrun).
  - intros s0 (Hcm & Hsel & Hreset) _.
    pose proof (iteration_post (envs (S (attempt s0))) p s0 Hreset) as Hpost.
    destruct (iteration (envs (S (attempt s0))) p s0) as [e0 s1|s1].
    + destruct Hpost as [(-> & Hex & Hne & Hidx & Hc & Hctrl)|(Hne & Hc & Hidx & Hctrl)].
      * split.
        -- intros _. split; [exact Hex|]. split; [exact Hne|]. split.
           ++ rewrite Hex. unfold valid_blocks. apply List.Forall_forall. intros x Hx.
              apply filter_In in Hx as [_ Hx]. exact Hx.
           ++ split; [exact Hidx | congruence].
        -- split; [intros Hd; contradiction Hd; reflexivity | intros _; exact Hctrl].
      * split; [intros Hd; contradiction (Hne Hd)|]. split.
        -- intros _. split; [congruence|]. intros _ _. congruence.
        -- intros [Hd|[[Hd|Hd]|[Hd|[err Hd]]]]; subst;
             first [contradiction Hne; reflexivity | apply Hctrl; discriminate].
    + destruct Hpost as (Hc & Hidx & Hatt). split; [congruence|]. split; [congruence|].
      intros Hzero. lia.
  - intros s0 (Hcm & Hsel & _) _. split; [discriminate|]. split.
    + intros _. split; [exact Hcm|]. intros _ _. exact Hsel.
    + intros _. reflexivity.
  - split; [reflexivity|]. split; [reflexivity|]. intros _. split; reflexivity.
Qed.

End Postconditions.

(** ** The calls that reach the adapter *)

Lemma count_calls_app kind l1 l2 :
  count_calls kind (l1 ++ l2) = (count_calls kind l1 + count_calls kind l2)%nat.
Proof. unfold count_calls. rewrite List.filter_app, length_app. reflexivity. Qed.

Lemma count_calls_cons kind c l :
  count_calls kind (c :: l) = ((if kind c then 1 else 0) + count_calls kind l)%nat.
Proof. unfold count_calls. simpl. destruct (kind c); reflexivity. Qed.

Lemma count_calls_interrupts l :
  Forall (fun c => is_interrupt_call c = true) l ->
  count_calls is_chat_call l = 0%nat /\ count_calls is_create_call l = 0%nat /\
  Forall (fun c => is_create_call c = true -> False) l.
Proof.
  induction 1 as [|c l Hc _ (IH1 & IH2 & IH3)]; [repeat split; constructor|].
  destruct c; try discriminate. rewrite !count_calls_cons. simpl.
  repeat split; try assumption. constructor; [discriminate | assumption].
Qed.

Lemma reusable_engine_refs (h h' : Hook) m :
  engineRef h' = engineRef h -> currentModelRef h' = currentModelRef h ->
  reusable_engine h' m = reusable_engine h m.
Proof. unfold reusable_engine. intros -> ->. reflexivity. Qed.

Lemma interruptGenerate_trace (h : Hook) :
  engineRef (interruptGenerate h) = engineRef h /\
  currentModelRef (interruptGenerate h) = currentModelRef h /\
  isInitializing (interruptGenerate h) = isInitializing h /\
  isGenerating (interruptGenerate h) = isGenerating h /\
  exists l, adapterCalls (interruptGenerate h) = adapterCalls h ++ l /\
            Forall (fun c => is_interrupt_call c = true) l.
Proof.
  unfold interruptGenerate. destruct (engineRef h) as [e|] eqn:He; cbn.
  - rewrite He. repeat split. eexists. split; [reflexivity|]. repeat constructor.
  - rewrite He. repeat split. exists []. rewrite app_nil_r. split; [reflexivity | constructor].
Qed.

Section AdapterTrace.

Context `{Externals}.

Lemma hook_extends_trans (s1 s2 s3 : State) l1 l2 :
  hook_extends s1 s2 l1 -> hook_extends s2 s3 l2 -> hook_extends s1 s3 (l1 ++ l2).
Proof.
  intros (Hc1 & Hi1 & Hg1) (Hc2 & Hi2 & Hg2).
  repeat split; try congruence.
  rewrite Hc2, Hc1, app_assoc. reflexivity.
Qed.

Lemma hook_extends_same (s s' : State) : hook s' = hook s -> hook_extends s s' [].
Proof. intros Hh. unfold hook_extends. rewrite Hh, app_nil_r. auto. Qed.

Lemma refs_kept_trans (s1 s2 s3 : State) :
  refs_kept s1 s2 -> refs_kept s2 s3 -> refs_kept s1 s3.
Proof. unfold refs_kept. intros [He1 Hm1] [He2 Hm2]. split; congruence. Qed.

Lemma refs_kept_same (s s' : State) : hook s' = hook s -> refs_kept s s'.
Proof. intros Hh. unfold refs_kept. rewrite Hh. auto. Qed.

Lemma userAction_trace a (s : State) :
  exists l, hook_extends s (userAction a s) l /\
            Forall (fun c => is_interrupt_call c = true) l /\
            ((forall value, a <> SelectModel value) -> refs_kept s (userAction a s)).
Proof.
  destruct (interruptGenerate_trace (hook s)) as (He & Hm & Hi & Hg & l & Hl & Hall).
  destruct a as [| |value]; cbn [userAction].
  - unfold handleStop. destruct (abortControllerRef s).
    + exists l. split; [repeat split; assumption|]. split; [exact Hall|].
      intros _. split; assumption.
    + exists []. split; [apply hook_extends_same; reflexivity|]. split; [constructor|].
      intros _. apply refs_kept_same. reflexivity.
  - unfold handleRetry. destruct (abortControllerRef s).
    + exists l. split; [repeat split; assumption|]. split; [exact Hall|].
      intros _. split; assumption.
    + exists []. split; [apply hook_extends_same; reflexivity|]. split; [constructor|].
      intros _. apply refs_kept_same. reflexivity.
  - exists []. split; [|split; [constructor|]].
    + unfold hook_extends. cbn. rewrite app_nil_r. auto.
    + intros Hne. destruct (Hne value eq_refl).
Qed.

Lemma run_stream_trace signal events ending : forall full (s : State),
  exists l, hook_extends s (fst (run_stream signal events ending full s)) l /\
            Forall (fun c => is_interrupt_call c = true) l /\
            (model_kept events -> refs_kept s (fst (run_stream signal events ending full s))).
Proof.
  induction events as [|[content|a] events IH]; intros full s; simpl.
  - exists []. split; [|split; [constructor|intros _]];
      [apply hook_extends_same | apply refs_kept_same]; destruct ending; reflexivity.
  - destruct (signal_aborted signal).
    + exists []. split; [apply hook_extends_same; reflexivity|]. split; [constructor|].
      intros _. apply refs_kept_same. reflexivity.
    + destruct (IH (full ++ content) (onChunk content s)) as (l & Hl & Hall & Hrefs).
      exists l. split; [|split; [exact Hall|]].
      * apply (hook_extends_trans s (onChunk content s) _ [] l); [|exact Hl].
        apply hook_extends_same, onChunk_hook.
      * intros Hkept. apply (refs_kept_trans s (onChunk content s));
          [apply refs_kept_same, onChunk_hook|].
        apply Hrefs. intros value Hin. apply (Hkept value). right. exact Hin.
  - destruct (userAction_trace a s) as (l1 & Hl1 & Hall1 & Hrefs1).
    destruct (IH full (userAction a s)) as (l & Hl & Hall & Hrefs).
    exists (l1 ++ l). split; [eapply hook_extends_trans; eassumption|].
    split; [apply Forall_app; auto|].
    intros Hkept. apply (refs_kept_trans s (userAction a s)).
    + apply Hrefs1. intros value ->. apply (Hkept value). left. reflexivity.
    + apply Hrefs. intros value Hin. apply (Hkept value). right. exact Hin.
Qed.

Lemma run_waiting_trace events : forall s : State,
  exists l, hook_extends s (run_waiting events s) l /\
            Forall (fun c => is_interrupt_call c = true) l /\
            (model_kept events -> refs_kept s (run_waiting events s)).
Proof.
  induction events as [|[content|a] events IH]; intros s; simpl.
  - exists []. split; [apply hook_extends_same; reflexivity|]. split; [constructor|].
    intros _. apply refs_kept_same. reflexivity.
  - destruct (IH s) as (l & Hl & Hall & Hrefs). exists l.
    split; [exact Hl|]. split; [exact Hall|].
    intros Hkept. apply Hrefs. intros value Hin. apply (Hkept value). right. exact Hin.
  - destruct (userAction_trace a s) as (l1 & Hl1 & Hall1 & Hrefs1).
    destruct (IH (userAction a s)) as (l & Hl & Hall & Hrefs).
    exists (l1 ++ l). split; [eapply hook_extends_trans; eassumption|].
    split; [apply Forall_app; auto|].
    intros Hkept. apply (refs_kept_trans s (userAction a s)).
    + apply Hrefs1. intros value ->. apply (Hkept value). left. reflexivity.
    + apply Hrefs. intros value Hin. apply (Hkept value). right. exact Hin.
Qed.

Lemma run_creation_trace events : forall s : State,
  exists l, hook_extends s (run_creation events s) l /\
            Forall (fun c => is_interrupt_call c = true) l.
Proof.
  induction events as [|[text|a] events IH]; intros s; simpl.
  - exists []. split; [apply hook_extends_same; reflexivity | constructor].
  - destruct (IH (onProgress text s)) as (l & Hl & Hall). exists l.
    split; [exact Hl | exact Hall].
  - destruct (userAction_trace a s) as (l1 & Hl1 & Hall1 & _).
    destruct (IH (userAction a s)) as (l & Hl & Hall).
    exists (l1 ++ l). split; [eapply hook_extends_trans; eassumption|].
    apply Forall_app; auto.
Qed.

(** What happens in [generateSVG] once it has an engine. *)
Lemma chat_trace env signal engine (s0 : State) : forall s1 r,
  (if signal_aborted signal then (s0, Throw AbortedException)
   else
     let s := onGenerationStart s0 in
     let s := set_hook (record_call (ChatCompletionsCreate engine)) s in
     match chat_create_error env with
     | Some e => (run_waiting (stream_events env) s, Throw e)
     | None =>
         match run_stream signal (stream_events env) (stream_end env) [] s with
         | (s, Ok fullResponse) => (onGenerationEnd s, Ok fullResponse)
         | (s, Throw e) => (s, Throw e)
         end
     end) = (s1, r) ->
  exists l, hook_extends s0 s1 l /\
            (count_calls is_chat_call l <= 1)%nat /\
            count_calls is_create_call l = 0%nat /\
            Forall (fun c => is_create_call c = true -> False) l /\
            (model_kept (stream_events env) -> refs_kept s0 s1).
Proof.
  intros s1 r. destruct (signal_aborted signal).
  { intros Heq. inversion Heq; subst. exists [].
    split; [apply hook_extends_same; reflexivity|]. split; [apply Nat.le_0_l|].
    split; [reflexivity|]. split; [constructor|]. intros _. apply refs_kept_same. reflexivity. }
  cbv zeta.
  assert (Hfirst : hook_extends s0
            (set_hook (record_call (ChatCompletionsCreate engine)) (onGenerationStart s0))
            [ChatCompletionsCreate engine]) by (repeat split).
  assert (Hrefs0 : refs_kept s0
            (set_hook (record_call (ChatCompletionsCreate engine)) (onGenerationStart s0)))
    by (split; reflexivity).
  assert (Hcount : forall l, Forall (fun c => is_interrupt_call c = true) l ->
            (count_calls is_chat_call (ChatCompletionsCreate engine :: l) <= 1)%nat /\
            count_calls is_create_call (ChatCompletionsCreate engine :: l) = 0%nat /\
            Forall (fun c => is_create_call c = true -> False)
              (ChatCompletionsCreate engine :: l)).
  { intros l Hall. apply count_calls_interrupts in Hall as (Hchat & Hcreate & Hno).
    rewrite !count_calls_cons, Hchat, Hcreate. cbn. split; [lia|]. split; [reflexivity|].
    constructor; [discriminate | exact Hno]. }
  destruct (chat_create_error env) as [e|].
  - intros Heq. inversion Heq; subst; clear Heq.
    destruct (run_waiting_trace (stream_events env)
                (set_hook (record_call (ChatCompletionsCreate engine))
                   (onGenerationStart s0))) as (l & Hl & Hall & Hrefs).
    exists ([ChatCompletionsCreate engine] ++ l).
    split; [eapply hook_extends_trans; eassumption|].
    destruct (Hcount l Hall) as (Hc1 & Hc2 & Hc3).
    split; [exact Hc1|]. split; [exact Hc2|]. split; [exact Hc3|].
    intros Hkept. eapply refs_kept_trans; [exact Hrefs0 | apply Hrefs, Hkept].
  - destruct (run_stream_trace signal (stream_events env) (stream_end env) []
                (set_hook (record_call (ChatCompletionsCreate engine))
                   (onGenerationStart s0))) as (l & Hl & Hall & Hrefs).
    destruct (run_stream _ _ _ _ _) as [s2 [full|e]]; cbn [fst] in Hl, Hrefs;
      intros Heq; inversion Heq; subst; clear Heq;
      exists ([ChatCompletionsCreate engine] ++ l);
      destruct (Hcount l Hall) as (Hc1 & Hc2 & Hc3).
    + split.
      { apply (hook_extends_trans s0 _ _ _ l Hfirst).
        destruct Hl as (Ha & Hi & Hg). repeat split; assumption. }
      split; [exact Hc1|]. split; [exact Hc2|]. split; [exact Hc3|].
      intros Hkept. eapply refs_kept_trans; [exact Hrefs0|].
      destruct (Hrefs Hkept) as [He Hm]. split; assumption.
    + split; [eapply hook_extends_trans; eassumption|].
      split; [exact Hc1|]. split; [exact Hc2|]. split; [exact Hc3|].
      intros Hkept. eapply refs_kept_trans; [exact Hrefs0 | apply Hrefs, Hkept].
Qed.

Lemma generateSVG_trace env p signal (s : State) :
  exists l, attempt_trace p (model_kept (stream_events env)) s
              (fst (generateSVG env p signal s)) l /\
            (isInitializing (hook s) = false ->
             isInitializing (hook (fst (generateSVG env p signal s))) = false) /\
            isGenerating (hook (fst (generateSVG env p signal s))) = false.
Proof.
  unfold generateSVG, attempt_trace, initializeEngine_await. cbn [set_hook hook].
  assert (Hre : reusable_engine (set_isGenerating true (hook s)) (selectedModel p) =
                reusable_engine (hook s) (selectedModel p)) by reflexivity.
  rewrite Hre.
  destruct (reusable_engine (hook s) (selectedModel p)) as [e|] eqn:Hreuse.
  - match goal with |- context [if signal_aborted signal then (?s0, _) else _] =>
      pose proof (chat_trace env signal e s0) as Hchat end.
    match type of Hchat with forall s1 r, ?t = _ -> _ =>
      destruct t as [s1 r] eqn:Ht end.
    destruct (Hchat s1 r eq_refl) as (l & (Hl & Hi & Hg) & Hc1 & Hc2 & Hc3 & Hrefs).
    cbn [set_hook hook set_isGenerating adapterCalls isInitializing isGenerating] in Hl, Hi, Hg.
    exists l. cbn [fst set_hook hook set_isGenerating adapterCalls isInitializing isGenerating].
    split; [|split; [congruence | reflexivity]].
    split; [exact Hl|]. split; [exact Hc1|]. split; [lia|].
    split; [eapply Forall_impl; [exact Hc3 | intros c Hc Hd; destruct (Hc Hd)]|].
    intros e0 He0. split; [exact Hc2|]. intros Hkept.
    destruct (Hrefs Hkept) as [He Hm]. cbn in He, Hm. rewrite <- He0, <- Hreuse.
    apply reusable_engine_refs; assumption.
  - destruct (signal_aborted signal) eqn:Hsig.
    + exists []. cbn. rewrite app_nil_r.
      split; [|split; [auto | reflexivity]].
      repeat split; try constructor; unfold count_calls; simpl; auto; discriminate.
    + destruct (run_creation_trace (creation env)
                  (set_hook (fun h => record_call (CreateMLCEngine (selectedModel p))
                                        (set_isInitializing true h))
                     (set_hook (set_isGenerating true) s)))
        as (lc & (Hlc & Hic & Hgc) & Hallc).
      apply count_calls_interrupts in Hallc as (Hchatc & Hcreatec & Hnoc).
      cbn [set_hook hook set_isGenerating set_isInitializing record_call adapterCalls
             isInitializing isGenerating] in Hlc, Hic, Hgc.
      destruct (creation_result env) as [engine|err].
      * cbv beta iota zeta.
        match goal with |- context [onGenerationStart ?s0] =>
          pose proof (chat_trace env signal engine s0) as Hchat end.
        rewrite Hsig in Hchat. cbv beta iota zeta in Hchat.
        match type of Hchat with forall s1 r, ?t = _ -> _ =>
          destruct t as [s1 r] eqn:Ht end.
        destruct (Hchat s1 r eq_refl) as (l & (Hl & Hi & Hg) & Hc1 & Hc2 & Hc3 & _).
        cbn [set_hook hook set_isGenerating set_isInitializing set_refs record_call
               adapterCalls isInitializing isGenerating] in Hl, Hi, Hg.
        exists (CreateMLCEngine (selectedModel p) :: lc ++ l).
        cbn [fst set_hook hook set_isGenerating adapterCalls isInitializing isGenerating].
        split; [|split; [intros _; exact Hi | reflexivity]].
        split; [rewrite Hl, Hlc, <- !app_assoc; reflexivity|].
        rewrite !count_calls_cons, !count_calls_app, Hchatc, Hcreatec, Hc2. cbn.
        split; [lia|]. split; [lia|]. split; [|intros e0 He0; discriminate].
        constructor; [reflexivity|]. apply Forall_app. split.
        -- eapply Forall_impl; [exact Hnoc | intros c Hc Hd; destruct (Hc Hd)].
        -- eapply Forall_impl; [exact Hc3 | intros c Hc Hd; destruct (Hc Hd)].
      * exists (CreateMLCEngine (selectedModel p) :: lc).
        split; [|split; [intros _|]; destruct (isAbortError err); reflexivity].
        split; [destruct (isAbortError err); cbn; rewrite Hlc, <- app_assoc; reflexivity|].
        rewrite !count_calls_cons, Hchatc, Hcreatec. cbn.
        split; [lia|]. split; [lia|]. split; [|intros e0 He0; discriminate].
        constructor; [reflexivity|].
        eapply Forall_impl; [exact Hnoc | intros c Hc Hd; destruct (Hc Hd)].
Qed.

End AdapterTrace.

Section AdapterBudget.

Context `{Externals}.

Lemma attempt_trace_hooks p kept (s1 s2 s1' s2' : State) l :
  hook s1' = hook s1 -> hook s2' = hook s2 ->
  attempt_trace p kept s1 s2 l -> attempt_trace p kept s1' s2' l.
Proof. unfold attempt_trace. intros -> ->. auto. Qed.

Lemma attempt_trace_nil p kept (s s' : State) :
  hook s' = hook s -> attempt_trace p kept s s' [].
Proof.
  intros Hh. unfold attempt_trace. rewrite Hh, app_nil_r.
  repeat split; auto.
Qed.

Lemma iteration_trace env p (s : State) :
  match iteration env p s with
  | Continue s' | Return _ s' =>
      exists l, attempt_trace p (model_kept (stream_events env)) s s' l /\
                (l = [] \/ attempt s' = S (attempt s))
  end.
Proof.
  destruct (beginAttempt s) as [b|] eqn:Hb.
  - rewrite (iteration_begun env p s b Hb).
    apply beginAttempt_Some in Hb as (_ & Hb & _ & _ & _ & _ & Hhook & _).
    destruct (generateSVG_trace env p (abortControllerRef b) b) as (l & Hl & _).
    pose proof (generateSVG_loop_view env p (abortControllerRef b) b) as Hg.
    pose proof (dispatch_hook p (snd (generateSVG env p (abortControllerRef b) b))
                  (fst (generateSVG env p (abortControllerRef b) b))) as Hd.
    destruct (generateSVG env p (abortControllerRef b) b) as [s1 r].
    cbn [fst snd] in *.
    assert (Hs1 : attempt s1 = S (attempt s)).
    { unfold loop_view in Hg. simpl in Hg. congruence. }
    destruct r as [full|error].
    + destruct (onResponse p full s1) as [e s'|s']; destruct Hd as [Hh Ha]; exists l;
        (split; [apply (attempt_trace_hooks p _ b s1); auto | right; congruence]).
    + destruct (onError error s1) as [e s'|s']; destruct Hd as [Hh Ha]; exists l;
        (split; [apply (attempt_trace_hooks p _ b s1); auto | right; congruence]).
  - unfold iteration. rewrite Hb. exists []. split; [|left; reflexivity].
    apply attempt_trace_nil. reflexivity.
Qed.

End AdapterBudget.

Section AdapterBudgetTheorem.

Context `{Externals}.

Lemma attempt_trace_extend p (kept all_kept : Prop) (s0 s s' : State) l1 l2 :
  (all_kept -> kept) ->
  adapterCalls (hook s) = adapterCalls (hook s0) ++ l1 ->
  (count_calls is_chat_call l1 <= attempt s)%nat ->
  (count_calls is_create_call l1 <= attempt s)%nat ->
  Forall (fun c => is_create_call c = true -> c = CreateMLCEngine (selectedModel p)) l1 ->
  (forall e0, reusable_engine (hook s0) (selectedModel p) = Some e0 -> all_kept ->
              count_calls is_create_call l1 = 0%nat /\
              reusable_engine (hook s) (selectedModel p) = Some e0) ->
  attempt_trace p kept s s' l2 -> (l2 = [] \/ attempt s' = S (attempt s)) ->
  (attempt s <= attempt s')%nat ->
  adapterCalls (hook s') = adapterCalls (hook s0) ++ (l1 ++ l2) /\
  (count_calls is_chat_call (l1 ++ l2) <= attempt s')%nat /\
  (count_calls is_create_call (l1 ++ l2) <= attempt s')%nat /\
  Forall (fun c => is_create_call c = true -> c = CreateMLCEngine (selectedModel p))
    (l1 ++ l2) /\
  (forall e0, reusable_engine (hook s0) (selectedModel p) = Some e0 -> all_kept ->
              count_calls is_create_call (l1 ++ l2) = 0%nat /\
              reusable_engine (hook s') (selectedModel p) = Some e0).
Proof.
  intros Hkept Hcalls Hchat Hcreate Hall Hreuse
    (Hl2 & Hchat2 & Hcreate2 & Hall2 & Hreuse2) Hatt Hle.
  rewrite !count_calls_app. split; [rewrite Hl2, Hcalls, app_assoc; reflexivity|].
  assert (Hzero : l2 = [] -> count_calls is_chat_call l2 = 0%nat /\
                             count_calls is_create_call l2 = 0%nat)
    by (intros ->; split; reflexivity).
  split; [destruct Hatt as [Hnil|Hs]; [destruct (Hzero Hnil)|]; lia|].
  split; [destruct Hatt as [Hnil|Hs]; [destruct (Hzero Hnil)|]; lia|].
  split; [apply Forall_app; auto|].
  intros e0 He0 Hk. destruct (Hreuse e0 He0 Hk) as [Hc1 Hr1].
  destruct (Hreuse2 e0 Hr1) as [Hc2 Hr2]. split; [lia | exact (Hr2 (Hkept Hk))].
Qed.

(** X3. One call of [handleGenerate] that returns appends calls to the
    adapter's history, among them at most [maxRetries] chat completions
    and at most [maxRetries] engine creations; every engine it creates is
    for the selected model; and when the hook holds an engine of the
    selected model at the start and the model is not changed while an
    attempt runs, no engine is created and the same engine is held at the
    end. *)
Theorem adapter_budget envs p (s s' : State) e
    (Hrun : handleGenerate envs p s = Some (e, s')) :
  exists calls,
    adapterCalls (hook s') = adapterCalls (hook s) ++ calls /\
    (count_calls is_chat_call calls <= maxRetries)%nat /\
    (count_calls is_create_call calls <= maxRetries)%nat /\
    Forall (fun c => is_create_call c = true -> c = CreateMLCEngine (selectedModel p))
      calls /\
    (forall engine, reusable_engine (hook s) (selectedModel p) = Some engine ->
       (forall n, model_kept (stream_events (envs n))) ->
       count_calls is_create_call calls = 0%nat /\
       reusable_engine (hook s') (selectedModel p) = Some engine).
Proof.
  unfold handleGenerate in Hrun.
  assert (Hsame : forall t, exists calls,
    adapterCalls (hook (toast t s)) = adapterCalls (hook s) ++ calls /\
    (count_calls is_chat_call calls <= maxRetries)%nat /\
    (count_calls is_create_call calls <= maxRetries)%nat /\
    Forall (fun c => is_create_call c = true -> c = CreateMLCEngine (selectedModel p))
      calls /\
    (forall engine, reusable_engine (hook s) (selectedModel p) = Some engine ->
       (forall n, model_kept (stream_events (envs n))) ->
       count_calls is_create_call calls = 0%nat /\
       reusable_engine (hook (toast t s)) (selectedModel p) = Some engine)).
  { intros t. exists []. cbn [toast hook]. rewrite app_nil_r.
    repeat split; auto; apply Nat.le_0_l. }
  destruct (is_blank (prompt p)); [inversion Hrun; subst; apply Hsame|].
  destruct (bool_decide (selectedModel p = [])); [inversion Hrun; subst; apply Hsame|].
  clear Hsame.
  pose (I := fun s0 : State =>
    (attempt s0 <= maxRetries)%nat /\
    exists calls,
      adapterCalls (hook s0) = adapterCalls (hook s) ++ calls /\
      (count_calls is_chat_call calls <= attempt s0)%nat /\
      (count_calls is_create_call calls <= attempt s0)%nat /\
      Forall (fun c => is_create_call c = true -> c = CreateMLCEngine (selectedModel p))
        calls /\
      (forall engine, reusable_engine (hook s) (selectedModel p) = Some engine ->
         (forall n, model_kept (stream_events (envs n))) ->
         count_calls is_create_call calls = 0%nat /\
         reusable_engine (hook s0) (selectedModel p) = Some engine)).
  assert (Hfinish : forall s0, I s0 -> exists calls,
    adapterCalls (hook s0) = adapterCalls (hook s) ++ calls /\
    (count_calls is_chat_call calls <= maxRetries)%nat /\
    (count_calls is_create_call calls <= maxRetries)%nat /\
    Forall (fun c => is_create_call c = true -> c = CreateMLCEngine (selectedModel p))
      calls /\
    (forall engine, reusable_engine (hook s) (selectedModel p) = Some engine ->
       (forall n, model_kept (stream_events (envs n))) ->
       count_calls is_create_call calls = 0%nat /\
       reusable_engine (hook s0) (selectedModel p) = Some engine)).
  { intros s0 (Hle & calls & Hc & Hchat & Hcreate & Hall & Hreuse).
    exists calls. split; [exact Hc|]. split; [lia|]. split; [lia|]. auto. }
  assert (Hstep : forall n s0 s1 l,
    I s0 -> (attempt s0 < maxRetries)%nat ->
    attempt_trace p (model_kept (stream_events (envs n))) s0 s1 l ->
    (l = [] \/ attempt s1 = S (attempt s0)) ->
    (attempt s1 = attempt s0 \/ attempt s1 = S (attempt s0)) -> I s1).
  { intros n s0 s1 l (Hle & calls & Hc & Hchat & Hcreate & Hall & Hreuse) Hlt Htr Hatt Hs.
    split; [lia|]. exists (calls ++ l).
    apply (attempt_trace_extend p (model_kept (stream_events (envs n)))
             (forall n, model_kept (stream_events (envs n))) s s0 s1 calls l); auto.
    lia. }
  refine (generateLoop_inv envs p I
            (fun _ s1 => exists calls,
               adapterCalls (hook s1) = adapterCalls (hook s) ++ calls /\
               (count_calls is_chat_call calls <= maxRetries)%nat /\
               (count_calls is_create_call calls <= maxRetries)%nat /\
               Forall (fun c => is_create_call c = true ->
                                c = CreateMLCEngine (selectedModel p)) calls /\
               (forall engine, reusable_engine (hook s) (selectedModel p) = Some engine ->
                  (forall n, model_kept (stream_events (envs n))) ->
                  count_calls is_create_call calls = 0%nat /\
                  reusable_engine (hook s1) (selectedModel p) = Some engine))
            _ _ _ _ e s' _ Hrun).
  - intros s0 Hs0 Hlt.
    pose proof (iteration_trace (envs (S (attempt s0))) p s0) as Htr.
    pose proof (iteration_attempt (envs (S (attempt s0))) p s0) as Hatt.
    destruct (iteration (envs (S (attempt s0))) p s0) as [e1 s1|s1];
      destruct Htr as (l & Htr & Hl).
    + apply Hfinish. apply (Hstep (S (attempt s0)) s0 s1 l); auto.
    + apply (Hstep (S (attempt s0)) s0 s1 l); auto.
  - intros s0 Hs0 _. apply (Hfinish (afterLoop s0)).
    destruct Hs0 as (Hle & calls & Hc). split; [exact Hle|]. exists calls. exact Hc.
  - split; [apply Nat.le_0_l|]. exists []. cbn. rewrite app_nil_r.
    repeat split; auto.
Qed.

End AdapterBudgetTheorem.

(** ** Stop while the engine is created *)

Section StopWhileLoading.

Context `{Externals}.

Lemma button_calls_off engine events : button_calls engine false events = [].
Proof.
  revert engine. induction events as [|[content|[| |value]] events IH]; intros engine; cbn;
    auto; rewrite IH; destruct engine; reflexivity.
Qed.

(** What [handleStop] leaves stays: the flag is set and the controller is
    gone, whatever the user does next. *)
Lemma userAction_stays_stopped a (s : State) :
  stop_view s = (true, None) -> stop_view (userAction a s) = (true, None).
Proof.
  unfold stop_view. intros Hv. inversion Hv as [[Hstop Hctrl]].
  destruct a; cbn [userAction]; unfold handleStop, handleRetry; rewrite ?Hctrl, ?Hstop;
    cbn; rewrite ?Hctrl, ?Hstop; reflexivity.
Qed.

Lemma run_creation_stays_stopped events : forall s : State,
  stop_view s = (true, None) -> stop_view (run_creation events s) = (true, None).
Proof.
  induction events as [|[text|a] events IH]; intros s Hv; simpl.
  - exact Hv.
  - apply IH. exact Hv.
  - apply IH, userAction_stays_stopped, Hv.
Qed.

Lemma run_creation_stop_pressed events : forall (s : State),
  is_Some (abortControllerRef s) -> In (Acted PressStop) events ->
  stop_view (run_creation events s) = (true, None).
Proof.
  induction events as [|[text|a] events IH]; intros s Hc Hin; simpl.
  - destruct Hin.
  - destruct Hin as [Hd|Hin]; [discriminate|]. apply IH; assumption.
  - destruct a as [| |value].
    + apply run_creation_stays_stopped. cbn [userAction]. unfold handleStop.
      destruct Hc as [c ->]. reflexivity.
    + destruct Hin as [Hd|Hin]; [discriminate|]. apply IH; [|exact Hin].
      pose proof (handleRetry_stop_view s) as Hv.
      apply signal_of_stop_view in Hv as [_ Hv]. cbn [userAction]. rewrite Hv. exact Hc.
    + destruct Hin as [Hd|Hin]; [discriminate|]. apply IH; [exact Hc | exact Hin].
Qed.

(** The interrupts of the user's actions go to the engine that the hook
    holds, never to one that is still being created. *)
Lemma userAction_interrupts a (s : State) :
  exists l,
    adapterCalls (hook (userAction a s)) = adapterCalls (hook s) ++ l /\
    Forall (fun call => exists held, engineRef (hook s) = Some held /\
                                     call = InterruptGenerate held) l /\
    (engineRef (hook (userAction a s)) = engineRef (hook s) \/
     engineRef (hook (userAction a s)) = None).
Proof.
  assert (Hint : forall s0 : State,
    exists l,
      adapterCalls (interruptGenerate (hook s0)) = adapterCalls (hook s0) ++ l /\
      Forall (fun call => exists held, engineRef (hook s0) = Some held /\
                                       call = InterruptGenerate held) l /\
      engineRef (interruptGenerate (hook s0)) = engineRef (hook s0)).
  { intros s0. unfold interruptGenerate. destruct (engineRef (hook s0)) as [e|] eqn:He.
    - exists [InterruptGenerate e]. cbn. rewrite He. split; [reflexivity|].
      split; [|reflexivity]. constructor; [eauto | constructor].
    - exists []. rewrite app_nil_r, He. split; [reflexivity|]. split; [constructor | reflexivity]. }
  assert (Hnone : exists l,
    adapterCalls (hook s) = adapterCalls (hook s) ++ l /\
    Forall (fun call => exists held, engineRef (hook s) = Some held /\
                                     call = InterruptGenerate held) l /\
    (engineRef (hook s) = engineRef (hook s) \/ engineRef (hook s) = None)).
  { exists []. rewrite app_nil_r. split; [reflexivity|]. split; [constructor | left; reflexivity]. }
  destruct a as [| |value]; cbn [userAction].
  - unfold handleStop. destruct (abortControllerRef s); [|exact Hnone].
    destruct (Hint s) as (l & Hl & Hall & He). exists l. cbn. auto.
  - unfold handleRetry. destruct (abortControllerRef s); [|exact Hnone].
    destruct (Hint s) as (l & Hl & Hall & He). exists l. cbn. auto.
  - exists []. cbn. rewrite app_nil_r. split; [reflexivity|]. split; [constructor | right; reflexivity].
Qed.

Lemma run_creation_interrupts events : forall s : State,
  exists l,
    adapterCalls (hook (run_creation events s)) = adapterCalls (hook s) ++ l /\
    Forall (fun call => exists held, engineRef (hook s) = Some held /\
                                     call = InterruptGenerate held) l.
Proof.
  induction events as [|[text|a] events IH]; intros s; simpl.
  - exists []. rewrite app_nil_r. split; [reflexivity | constructor].
  - apply (IH (onProgress text s)).
  - destruct (userAction_interrupts a s) as (l1 & Hl1 & Hall1 & Heng).
    destruct (IH (userAction a s)) as (l & Hl & Hall).
    exists (l1 ++ l). split; [rewrite Hl, Hl1, app_assoc; reflexivity|].
    apply Forall_app. split; [exact Hall1|].
    eapply Forall_impl; [exact Hall|]. intros call (held & Hheld & ->).
    exists held. split; [|reflexivity].
    destruct Heng as [Heq|Hnone]; congruence.
Qed.

(** What an attempt looks like when stop is pressed while its engine is
    created, and the engine is created all the same. *)
Lemma loading_attempt env p (s : State) c engine :
  shouldStopRef s = false ->
  abortControllerRef s = Some c -> ctrl_aborted c = false ->
  reusable_engine (hook s) (selectedModel p) = None ->
  creation_result env = Ok engine ->
  chat_create_error env = None ->
  In (Acted PressStop) (creation env) ->
  exists b s1 loading,
    beginAttempt s = Some b /\
    generateSVG env p (abortControllerRef b) b = (s1, stream_result env) /\
    loop_view s1 = loop_view b /\
    adapterCalls (hook s1) =
      adapterCalls (hook s) ++
      CreateMLCEngine (selectedModel p) :: loading ++ [ChatCompletionsCreate engine] /\
    Forall (fun call => exists held, engineRef (hook s) = Some held /\
                                     call = InterruptGenerate held) loading /\
    shouldStopRef s1 = true.
Proof.
  intros Hstop Hctrl Hsig Hnone Hcreated Hchat Hpress.
  destruct (beginAttempt s) as [b|] eqn:Hb;
    [|unfold beginAttempt in Hb; rewrite Hstop in Hb; discriminate].
  pose proof (beginAttempt_Some s b Hb) as (_ & _ & Hsv & _ & _ & _ & Hhook & _).
  destruct (signal_of_stop_view _ _ Hsv) as [Hbstop Hbctrl].
  assert (Hsigb : signal_aborted (abortControllerRef b) = false)
    by (rewrite Hbctrl, Hctrl; exact Hsig).
  pose proof (generateSVG_loop_view env p (abortControllerRef b) b) as Hlv.
  pose (s0 := set_hook (fun h => record_call (CreateMLCEngine (selectedModel p))
                                   (set_isInitializing true h))
                (set_hook (set_isGenerating true) b)).
  destruct (run_creation_interrupts (creation env) s0) as (loading & Hloading & Hall).
  assert (Hstopped : stop_view (run_creation (creation env) s0) = (true, None)).
  { apply run_creation_stop_pressed; [|exact Hpress].
    subst s0. cbn [set_hook abortControllerRef]. rewrite Hbctrl, Hctrl. eexists; reflexivity. }
  unfold stop_view in Hstopped. injection Hstopped as Hflag Hgone.
  exists b.
  unfold generateSVG, initializeEngine_await in Hlv |- *. cbn [set_hook hook] in Hlv |- *.
  assert (Hre : reusable_engine (set_isGenerating true (hook b)) (selectedModel p) = None)
    by (rewrite Hhook; exact Hnone).
  rewrite Hre, Hsigb, Hcreated in Hlv |- *. cbv beta iota zeta in Hlv |- *.
  rewrite Hchat in Hlv |- *. fold s0 in Hlv |- *.
  match goal with |- context [run_stream ?sig ?evs ?ending ?full ?st] =>
    pose proof (run_stream_result sig evs ending full st Hsigb) as Hres;
    pose proof (run_stream_buttons sig evs ending full st Hsigb) as Hbuttons;
    pose proof (run_stream_stays_stopped sig evs ending full st) as Hstays;
    destruct (run_stream sig evs ending full st) as [s5 r] end.
  cbn [fst snd app] in Hres, Hbuttons, Hstays, Hlv.
  cbn [set_hook hook onGenerationStart addLog setDebugLogs abortControllerRef shouldStopRef
         record_call set_isInitializing set_refs adapterCalls engineRef] in Hbuttons, Hstays.
  rewrite Hgone in Hbuttons.
  rewrite bool_decide_eq_false_2 in Hbuttons by (intros [x Hx]; discriminate).
  rewrite button_calls_off, app_nil_r, Hloading in Hbuttons.
  subst s0. cbn [set_hook hook set_isGenerating record_call set_isInitializing adapterCalls]
    in Hbuttons, Hall.
  specialize (Hstays Hflag). subst r.
  unfold stream_result.
  destruct (stream_end env) as [err|]; eexists _, loading;
    (split; [reflexivity|]); (split; [reflexivity|]); (split; [exact Hlv|]);
    cbn [set_hook hook onGenerationEnd addLog setDebugLogs set_isGenerating adapterCalls
           shouldStopRef];
    (split; [rewrite Hbuttons, Hhook; cbn; rewrite <- !app_assoc; reflexivity|]);
    (split; [rewrite <- Hhook; exact Hall | exact Hstays]).
Qed.

(** X18.  Stop pressed while the engine of an attempt is created.  The
    creation is not interrupted: an interrupt goes to the engine that the
    hook held before, if it held one.  When the engine arrives the stream
    is opened all the same, and from then on neither button reaches the
    adapter, since the controller is gone: the calls of the attempt end
    with the chat completion.  No further attempt is started, and the call
    ends as the stream does: an abort error ends it as stopped, a normal
    end with a valid block ends it with success and these blocks, and any
    other end is followed by the stop at the head of the loop, or, in the
    tenth attempt, by the failure of its cause. *)
Theorem stop_while_loading fuel envs p (s : State) c engine
    (Hbudget : (attempt s < maxRetries)%nat)
    (Hnostop : shouldStopRef s = false)
    (Hctrl : abortControllerRef s = Some c)
    (Hsignal : ctrl_aborted c = false)
    (Hnone : reusable_engine (hook s) (selectedModel p) = None)
    (Hcreated : creation_result (envs (S (attempt s))) = Ok engine)
    (Hchat : chat_create_error (envs (S (attempt s))) = None)
    (Hpress : In (Acted PressStop) (creation (envs (S (attempt s))))) :
  exists e s' loading,
    generateLoop (S (S fuel)) envs p s = Some (e, s') /\
    attempt s' = S (attempt s) /\
    adapterCalls (hook s') =
      adapterCalls (hook s) ++
      CreateMLCEngine (selectedModel p) :: loading ++ [ChatCompletionsCreate engine] /\
    Forall (fun call => exists held, engineRef (hook s) = Some held /\
                                     call = InterruptGenerate held) loading /\
    (forall err, stream_end (envs (S (attempt s))) = Some err ->
                 isAbortError err = true -> e = ExitStoppedOnAbort) /\
    (stream_end (envs (S (attempt s))) = None ->
     valid_blocks (streamed_text (stream_events (envs (S (attempt s))))) <> [] ->
     e = ExitSuccess /\
     extractedSVGs s' =
       valid_blocks (streamed_text (stream_events (envs (S (attempt s)))))) /\
    (forall cause,
       attempt_cause (stream_result (envs (S (attempt s)))) = Some cause ->
       ((S (attempt s) < maxRetries)%nat -> e = ExitStoppedAtEntry) /\
       (S (attempt s) = maxRetries ->
        e = cause_exit cause /\ last (toasts s') = Some (cause_toast cause))).
Proof.
  destruct (loading_attempt (envs (S (attempt s))) p s c engine Hnostop Hctrl Hsignal
              Hnone Hcreated Hchat Hpress)
    as (b & s1 & loading & Hb & Hgen & Hlv & Hcalls & Hall & Hflag).
  pose proof (beginAttempt_Some s b Hb) as (_ & Hatt & _).
  unfold loop_view in Hlv. injection Hlv as Ha1 _ _ _.
  rewrite (generateLoop_step _ envs p s Hbudget), (iteration_begun _ p s b Hb), Hgen.
  destruct (stopped_dispatch fuel envs p (stream_result (envs (S (attempt s)))) s1 Hflag)
    as (e & s' & Hrun & Hhook & Hatt' & Habort & Hsuccess & Hcause & _);
    [lia|].
  exists e, s', loading. split; [exact Hrun|]. split; [congruence|].
  split; [rewrite Hhook; exact Hcalls|]. split; [exact Hall|].
  split.
  { intros err Hend Hab. apply (Habort err); [|exact Hab].
    unfold stream_result. rewrite Hend. reflexivity. }
  split.
  { intros Hend Hv. apply Hsuccess; [|exact Hv].
    unfold stream_result. rewrite Hend. reflexivity. }
  intros cause Hc. destruct (Hcause cause Hc) as [Hbefore Htenth].
  split; intros Hn; [apply Hbefore | apply Htenth]; lia.
Qed.

End StopWhileLoading.

(** ** The prompt history *)

Lemma filter_index_delete {A} (index : nat) : forall (xs : list A) (n : nat),
  filter_index (fun i => negb (i =? n + index)%nat) n xs = delete index xs.
Proof.
  intros xs. revert index.
  induction xs as [|x xs IH]; intros index n; [destruct index; reflexivity|].
  cbn [filter_index]. destruct index as [|index].
  - rewrite Nat.add_0_r, Nat.eqb_refl. cbn [negb].
    change (delete 0%nat (x :: xs)) with xs.
    clear IH. revert n. induction xs as [|y ys IHy]; intros n; [reflexivity|].
    cbn [filter_index].
    destruct (S n =? n)%nat eqn:Hn; [apply Nat.eqb_eq in Hn; lia|].
    cbn [negb]. f_equal.
    specialize (IHy (S n)).
    assert (Hext : forall k zs, (n < k)%nat ->
              filter_index (fun i => negb (i =? n)%nat) k zs = (zs : list A)).
    { intros k zs. revert k. induction zs as [|z zs IHz]; intros k Hk; [reflexivity|].
      cbn [filter_index]. destruct (k =? n)%nat eqn:Hkn; [apply Nat.eqb_eq in Hkn; lia|].
      cbn [negb]. f_equal. apply IHz. lia. }
    apply Hext. lia.
  - destruct (n =? n + S index)%nat eqn:Hn; [apply Nat.eqb_eq in Hn; lia|].
    cbn [negb]. change (delete (S index) (x :: xs)) with (x :: delete index xs).
    f_equal. rewrite <- (IH index (S n)).
    replace (n + S index)%nat with (S n + index)%nat by lia. reflexivity.
Qed.

Lemma deleteHistoryItem_delete index (e : Editor.T) :
  Editor.promptHistory (Editor.deleteHistoryItem index e) =
  delete index (Editor.promptHistory e).
Proof. apply (filter_index_delete index (Editor.promptHistory e) 0). Qed.

Lemma delete_sublist {A} (i : nat) (xs : list A) : delete i xs `sublist_of` xs.
Proof. apply sublist_delete. Qed.

Lemma persisted_history_eq st :
  persisted_history st = default [] (history_item st).
Proof.
  unfold persisted_history, Editor.mount.
  destruct (history_item st), (prompt_item st) as [[|c p]|]; reflexivity.
Qed.

Lemma saveToHistory_history newPrompt (e : Editor.T) :
  is_blank newPrompt = false ->
  Editor.promptHistory (Editor.saveToHistory newPrompt e) =
    take MAX_HISTORY
      (newPrompt :: List.filter (fun p => negb (str_eqb p newPrompt)) (Editor.promptHistory e)) /\
  history_item (Editor.localStorage (Editor.saveToHistory newPrompt e)) =
    Some (Editor.promptHistory (Editor.saveToHistory newPrompt e)) /\
  Editor.historyIndex (Editor.saveToHistory newPrompt e) = (-1)%Z /\
  Editor.prompt (Editor.saveToHistory newPrompt e) = Editor.prompt e.
Proof. intros Hb. unfold Editor.saveToHistory. rewrite Hb. repeat split. Qed.

Lemma filter_ne_spec (p : jsstring) (history : list jsstring) :
  let filtered := List.filter (fun q => negb (str_eqb q p)) history in
  (forall q, q ∈ filtered <-> q ∈ history /\ q <> p) /\
  filtered `sublist_of` history /\
  (NoDup history -> NoDup filtered) /\
  (p ∈ history -> (length filtered < length history)%nat) /\
  (p ∉ history -> filtered = history).
Proof.
  cbn zeta. induction history as [|h history (IHin & IHsub & IHnd & IHlen & IHid)].
  - split; [|split; [|split; [|split]]].
    + intros q. simpl. split; [intros Hq; inversion Hq | intros [Hq _]; inversion Hq].
    + constructor.
    + intros _. constructor.
    + intros Hp. inversion Hp.
    + reflexivity.
  - cbn [List.filter]. destruct (str_eqb h p) eqn:Hhp; unfold str_eqb in Hhp;
      [apply bool_decide_eq_true in Hhp as -> | apply bool_decide_eq_false in Hhp as Hne].
    + cbn [negb].
      split; [|split; [|split; [|split]]].
      * intros q. rewrite IHin, elem_of_cons. split; [tauto|].
        intros [[->|Hq] Hqp]; [contradiction | tauto].
      * apply sublist_cons, IHsub.
      * intros Hnd. apply NoDup_cons in Hnd as [_ Hnd]. auto.
      * intros _. pose proof (sublist_length _ _ IHsub). simpl. lia.
      * intros Hnot. contradiction Hnot. left.
    + cbn [negb].
      split; [|split; [|split; [|split]]].
      * intros q. rewrite !elem_of_cons, IHin. split; [|tauto].
        intros [->|[Hq Hqp]]; tauto.
      * apply sublist_skip, IHsub.
      * intros Hnd. apply NoDup_cons in Hnd as [Hh Hnd]. apply NoDup_cons.
        split; [|auto]. rewrite IHin. tauto.
      * intros Hp. apply elem_of_cons in Hp as [->|Hp]; [contradiction|].
        specialize (IHlen Hp). simpl. lia.
      * intros Hnot. f_equal. apply IHid. intros Hp. apply Hnot. right. exact Hp.
Qed.

(** X4.  Submitting a prompt that is not blank puts it first in the
    history and nowhere else; the other entries follow in the order they
    had, and only the tail beyond [MAX_HISTORY] entries is dropped: no
    entry is lost while the history has room, and a history without
    duplicates stays so.  The browsing index returns to [-1], the stored
    copy is the new history, and saving the same prompt again changes
    nothing. *)
Theorem saveToHistory_moves_to_front newPrompt (e : Editor.T)
    (Hprompt : is_blank newPrompt = false) :
  let e' := Editor.saveToHistory newPrompt e in
  (exists rest,
     Editor.promptHistory e' = newPrompt :: rest /\
     (newPrompt ∉ rest) /\
     rest `sublist_of` Editor.promptHistory e /\
     (forall q, q ∈ Editor.promptHistory e -> q <> newPrompt ->
        (length (Editor.promptHistory e) < MAX_HISTORY)%nat \/
        (newPrompt ∈ Editor.promptHistory e /\
         length (Editor.promptHistory e) <= MAX_HISTORY)%nat -> q ∈ rest)) /\
  (length (Editor.promptHistory e') <= MAX_HISTORY)%nat /\
  (NoDup (Editor.promptHistory e) -> NoDup (Editor.promptHistory e')) /\
  Editor.historyIndex e' = (-1)%Z /\
  persisted_history (Editor.localStorage e') = Editor.promptHistory e' /\
  Editor.saveToHistory newPrompt e' = e'.
Proof.
  cbn zeta.
  destruct (saveToHistory_history newPrompt e Hprompt) as (Hh & Hst & Hidx & _).
  destruct (filter_ne_spec newPrompt (Editor.promptHistory e))
    as (Hin & Hsub & Hnd & Hlen & Hid).
  set (filtered := List.filter (fun p => negb (str_eqb p newPrompt)) (Editor.promptHistory e))
    in *.
  assert (Hcons : Editor.promptHistory (Editor.saveToHistory newPrompt e) =
                  newPrompt :: take (MAX_HISTORY - 1) filtered).
  { rewrite Hh. reflexivity. }
  split; [|split; [|split; [|split; [|split]]]].
  - exists (take (MAX_HISTORY - 1) filtered). split; [exact Hcons|].
    split; [|split].
    + intros Hp. apply elem_of_take in Hp as (i & Hp & _).
      apply list_elem_of_lookup_2, Hin in Hp. tauto.
    + etrans; [apply sublist_take | exact Hsub].
    + intros q Hq Hne Hroom. rewrite take_ge; [apply Hin; tauto|].
      pose proof (sublist_length _ _ Hsub) as Hle.
      unfold MAX_HISTORY in *. destruct Hroom as [Hroom|[Hp Hmax]]; [lia|].
      specialize (Hlen Hp). lia.
  - rewrite Hh. rewrite length_take. lia.
  - intros Hno. rewrite Hcons. apply NoDup_cons. split.
    + intros Hp. apply elem_of_take in Hp as (i & Hp & _).
      apply list_elem_of_lookup_2, Hin in Hp. tauto.
    + eapply sublist_NoDup; [auto | apply sublist_take].
  - exact Hidx.
  - rewrite persisted_history_eq, Hst. reflexivity.
  - assert (Hupd : take MAX_HISTORY
             (newPrompt :: List.filter (fun p => negb (str_eqb p newPrompt))
                             (Editor.promptHistory (Editor.saveToHistory newPrompt e))) =
           Editor.promptHistory (Editor.saveToHistory newPrompt e)).
    { rewrite Hcons. cbn [List.filter]. unfold str_eqb at 1.
      rewrite bool_decide_eq_true_2 by reflexivity. cbn [negb].
      destruct (filter_ne_spec newPrompt (take (MAX_HISTORY - 1) filtered))
        as (_ & _ & _ & _ & ->).
      - apply take_ge. cbn [length]. rewrite length_take. unfold MAX_HISTORY. lia.
      - intros Hp. apply elem_of_take in Hp as (i & Hp & _).
        apply list_elem_of_lookup_2, Hin in Hp. tauto. }
    unfold Editor.saveToHistory at 1. rewrite Hprompt. cbn zeta. rewrite Hupd.
    unfold Editor.saveToHistory. rewrite Hprompt. reflexivity.
Qed.

Lemma Forall_sublist_of {A} (P : A -> Prop) (l1 l2 : list A) :
  l1 `sublist_of` l2 -> Forall P l2 -> Forall P l1.
Proof.
  intros Hsub Hall. apply Forall_forall. intros x Hx.
  rewrite Forall_forall in Hall. apply Hall. eapply elem_of_sublist; eassumption.
Qed.

Lemma history_ok_same (e e' : Editor.T) :
  Editor.promptHistory e' = Editor.promptHistory e ->
  history_item (Editor.localStorage e') = history_item (Editor.localStorage e) ->
  history_ok e -> history_ok e'.
Proof.
  unfold history_ok. rewrite !persisted_history_eq. intros -> ->. auto.
Qed.

Lemma saveToHistory_ok newPrompt (e : Editor.T) :
  history_ok e -> history_ok (Editor.saveToHistory newPrompt e).
Proof.
  intros Hok. destruct (is_blank newPrompt) eqn:Hb.
  - unfold Editor.saveToHistory. rewrite Hb. exact Hok.
  - destruct Hok as (Hnd & _ & Hall & _).
    destruct (saveToHistory_history newPrompt e Hb) as (Hh & Hst & _).
    destruct (filter_ne_spec newPrompt (Editor.promptHistory e)) as (Hin & Hsub & Hnd' & _).
    unfold history_ok. rewrite persisted_history_eq, Hst. cbn [default].
    split; [|split; [|split; [|reflexivity]]].
    + rewrite Hh. change (take MAX_HISTORY (newPrompt :: ?l))
        with (newPrompt :: take (MAX_HISTORY - 1) l).
      apply NoDup_cons. split.
      * intros Hp. apply elem_of_take in Hp as (i & Hp & _).
        apply list_elem_of_lookup_2, Hin in Hp. tauto.
      * eapply sublist_NoDup; [auto | apply sublist_take].
    + rewrite Hh, length_take. lia.
    + rewrite Hh. apply (Forall_sublist_of _ _ (newPrompt :: Editor.promptHistory e)).
      * etrans; [apply sublist_take|]. apply sublist_skip, Hsub.
      * constructor; assumption.
Qed.

Lemma deleteHistoryItem_ok index (e : Editor.T) :
  history_ok e -> history_ok (Editor.deleteHistoryItem index e).
Proof.
  intros (Hnd & Hlen & Hall & _).
  pose proof (deleteHistoryItem_delete index e) as Hdel.
  pose proof (sublist_delete (Editor.promptHistory e) index) as Hsub.
  unfold history_ok. rewrite persisted_history_eq, Hdel.
  split; [|split; [|split]].
  - eapply sublist_NoDup; eassumption.
  - pose proof (sublist_length _ _ Hsub). lia.
  - eapply Forall_sublist_of; eassumption.
  - unfold Editor.deleteHistoryItem. cbn.
    apply (filter_index_delete index (Editor.promptHistory e) 0).
Qed.

Lemma handleGenerate_prompt_ok r (e : Editor.T) :
  history_ok e ->
  match Editor.handleGenerate_prompt r e with
  | Ok (e', _) => history_ok e'
  | Throw _ => True
  end.
Proof.
  intros Hok. unfold Editor.handleGenerate_prompt.
  destruct (render_prompt r) as [currentPrompt|]; [|exact I].
  destruct (is_blank currentPrompt); [exact Hok|].
  destruct (bool_decide (render_model r = [])); [exact Hok|].
  apply (history_ok_same (Editor.saveToHistory currentPrompt e)); try reflexivity.
  apply saveToHistory_ok, Hok.
Qed.

Lemma handlePromptKeyDown_ok isInitializing isGenerating held ev (e : Editor.T) :
  history_ok e ->
  history_ok (Editor.handlePromptKeyDown isInitializing isGenerating held ev e).
Proof.
  intros Hok. pose proof (handleGenerate_prompt_ok held e Hok) as Hgen.
  unfold Editor.handlePromptKeyDown.
  assert (Harrows : history_ok
    (match key ev with
     | ArrowUp =>
         if (currentLineNumber ev =? 1)%nat &&
            (0 <? Z.of_nat (length (Editor.promptHistory e)))%Z
         then
           Editor.setPrompt
             (at_index
                (Editor.promptHistory
                   (Editor.setHistoryIndex
                      (Z.min (Editor.historyIndex e + 1)
                         (Z.of_nat (length (Editor.promptHistory e)) - 1)) e))
                (Z.min (Editor.historyIndex e + 1)
                   (Z.of_nat (length (Editor.promptHistory e)) - 1)))
             (Editor.setHistoryIndex
                (Z.min (Editor.historyIndex e + 1)
                   (Z.of_nat (length (Editor.promptHistory e)) - 1)) e)
         else e
     | ArrowDown =>
         if (-1 <? Editor.historyIndex e)%Z
         then
           Editor.setPrompt
             (if (Editor.historyIndex e - 1 =? -1)%Z then Some []
              else at_index
                     (Editor.promptHistory
                        (Editor.setHistoryIndex (Editor.historyIndex e - 1) e))
                     (Editor.historyIndex e - 1))
             (Editor.setHistoryIndex (Editor.historyIndex e - 1) e)
         else e
     | _ => e
     end)).
  { destruct (key ev); try exact Hok.
    - destruct (_ && _); exact Hok.
    - destruct (_ <? _)%Z; exact Hok. }
  destruct (key ev) eqn:Hkey; try exact Harrows.
  destruct (ctrlKey ev); [|exact Harrows].
  destruct (negb isInitializing && negb isGenerating); [|exact Hok].
  destruct (Editor.handleGenerate_prompt held e) as [[e' started]|err];
    [exact Hgen | exact Hok].
Qed.

Lemma act_ok a (e : Editor.T) : history_ok e -> history_ok (Editor.act a e).
Proof.
  intros Hok. destruct a as [newPrompt|b1 b2 m ev|m|index|index| |]; cbn [Editor.act].
  - apply (history_ok_same e); [reflexivity | reflexivity | exact Hok].
  - apply handlePromptKeyDown_ok, Hok.
  - pose proof (handleGenerate_prompt_ok (Editor.present m e) e Hok) as Hgen.
    destruct (Editor.handleGenerate_prompt (Editor.present m e) e) as [[e' started]|err];
      assumption.
  - destruct (Editor.promptHistory e !! index); [|exact Hok].
    apply (history_ok_same e); [reflexivity | reflexivity | exact Hok].
  - destruct (_ <? _)%nat; [apply deleteHistoryItem_ok, Hok | exact Hok].
  - destruct (Editor.promptHistory e) eqn:Hh; [exact Hok|].
    unfold history_ok. rewrite persisted_history_eq. cbn.
    repeat split; try constructor. lia.
  - destruct Hok as (Hnd & Hlen & Hall & Hst).
    assert (Hm : Editor.promptHistory (Editor.mount (Editor.localStorage e)) =
                 Editor.promptHistory e) by exact Hst.
    assert (Hs : Editor.localStorage (Editor.mount (Editor.localStorage e)) =
                 Editor.localStorage e).
    { unfold Editor.mount.
      destruct (history_item _), (prompt_item _) as [[|c p]|]; reflexivity. }
    unfold history_ok. rewrite Hm, Hs. auto.
Qed.

(** X5.  The history keeps its shape whatever the user does with the
    prompt field and the history dialog, in any order and any number of
    times: no prompt is in it twice, it has at most [MAX_HISTORY]
    entries, none of them blank, and a reload of the page shows the same
    history. *)
Theorem history_invariant actions (e : Editor.T) (Hok : history_ok e) :
  history_ok (Editor.run actions e).
Proof.
  unfold Editor.run. revert e Hok.
  induction actions as [|a actions IH]; intros e Hok; [exact Hok|].
  cbn [fold_left]. apply IH, act_ok, Hok.
Qed.

(** ** Browsing the history with the arrow keys *)

Lemma arrow_up_step b1 b2 m ev (e : Editor.T) :
  first_line ArrowUp ev -> index_ok e ->
  Editor.promptHistory (Editor.handlePromptKeyDown b1 b2 m ev e) = Editor.promptHistory e /\
  Editor.historyIndex (Editor.handlePromptKeyDown b1 b2 m ev e) =
    Z.min (Editor.historyIndex e + 1) (Z.of_nat (length (Editor.promptHistory e)) - 1) /\
  (Editor.promptHistory e <> [] ->
   Editor.prompt (Editor.handlePromptKeyDown b1 b2 m ev e) =
     at_index (Editor.promptHistory e)
       (Editor.historyIndex (Editor.handlePromptKeyDown b1 b2 m ev e))).
Proof.
  intros [Hkey Hline] Hidx. unfold index_ok in Hidx.
  unfold Editor.handlePromptKeyDown. rewrite Hkey, Hline. cbn [Nat.eqb andb].
  destruct (0 <? Z.of_nat (length (Editor.promptHistory e)))%Z eqn:Hlen.
  - cbn. repeat split.
  - apply Z.ltb_ge in Hlen. split; [reflexivity|]. split; [lia|].
    intros Hne. destruct (Editor.promptHistory e); [contradiction|]. simpl in Hlen. lia.
Qed.

Lemma arrow_down_step b1 b2 m ev (e : Editor.T) :
  key ev = ArrowDown -> (-1 <= Editor.historyIndex e)%Z ->
  Editor.promptHistory (Editor.handlePromptKeyDown b1 b2 m ev e) = Editor.promptHistory e /\
  Editor.historyIndex (Editor.handlePromptKeyDown b1 b2 m ev e) =
    Z.max (Editor.historyIndex e - 1) (-1) /\
  ((-1 < Editor.historyIndex e)%Z ->
   Editor.prompt (Editor.handlePromptKeyDown b1 b2 m ev e) =
     shown_at (Editor.promptHistory e)
       (Editor.historyIndex (Editor.handlePromptKeyDown b1 b2 m ev e))).
Proof.
  intros Hkey Hidx. unfold Editor.handlePromptKeyDown. rewrite Hkey.
  destruct (-1 <? Editor.historyIndex e)%Z eqn:Hlt.
  - apply Z.ltb_lt in Hlt. cbn. split; [reflexivity|]. split; [lia|]. intros _. reflexivity.
  - apply Z.ltb_ge in Hlt. split; [reflexivity|]. split; [lia|]. lia.
Qed.

Lemma arrow_ups b1 b2 m ups : forall e : Editor.T,
  Forall (first_line ArrowUp) ups -> index_ok e ->
  let e' := Editor.run (map (Editor.KeyDown b1 b2 m) ups) e in
  Editor.promptHistory e' = Editor.promptHistory e /\
  Editor.historyIndex e' =
    Z.min (Editor.historyIndex e + Z.of_nat (length ups))
          (Z.of_nat (length (Editor.promptHistory e)) - 1) /\
  (ups <> [] -> Editor.promptHistory e <> [] ->
   Editor.prompt e' = at_index (Editor.promptHistory e) (Editor.historyIndex e')).
Proof.
  cbn zeta. unfold Editor.run.
  induction ups as [|ev ups IH] using rev_ind; intros e Hall Hidx.
  - cbn. unfold index_ok in Hidx. split; [reflexivity|]. split; [lia|]. contradiction.
  - apply Forall_app in Hall as [Hall Hev]. inversion Hev as [|? ? Hup _]; subst.
    rewrite map_app, fold_left_app. cbn [map fold_left Editor.act].
    destruct (IH e Hall Hidx) as (Hh & Hi & Hp).
    set (e1 := fold_left (fun e0 a => Editor.act a e0) (map (Editor.KeyDown b1 b2 m) ups) e)
      in *.
    assert (Hidx1 : index_ok e1).
    { unfold index_ok in *. rewrite Hh, Hi. lia. }
    destruct (arrow_up_step b1 b2 m ev e1 Hup Hidx1) as (Hh' & Hi' & Hp').
    rewrite Hh', Hi', Hh, Hi, length_app. cbn [length].
    split; [reflexivity|]. split; [lia|].
    intros _ Hne. rewrite Hp' by (rewrite Hh; exact Hne).
    rewrite Hi', Hh, Hi. reflexivity.
Qed.

Lemma arrow_downs b1 b2 m downs : forall e : Editor.T,
  Forall (fun ev => key ev = ArrowDown) downs -> (-1 <= Editor.historyIndex e)%Z ->
  let e' := Editor.run (map (Editor.KeyDown b1 b2 m) downs) e in
  Editor.promptHistory e' = Editor.promptHistory e /\
  Editor.historyIndex e' = Z.max (Editor.historyIndex e - Z.of_nat (length downs)) (-1) /\
  (downs <> [] -> (-1 < Editor.historyIndex e)%Z ->
   Editor.prompt e' = shown_at (Editor.promptHistory e) (Editor.historyIndex e')).
Proof.
  cbn zeta. unfold Editor.run.
  induction downs as [|ev downs IH]; intros e Hall Hidx.
  - cbn. split; [reflexivity|]. split; [lia|]. contradiction.
  - inversion Hall as [|? ? Hdown Hall']; subst.
    cbn [map fold_left Editor.act].
    destruct (arrow_down_step b1 b2 m ev e Hdown Hidx) as (Hh1 & Hi1 & Hp1).
    set (e1 := Editor.handlePromptKeyDown b1 b2 m ev e) in *.
    assert (Hidx1 : (-1 <= Editor.historyIndex e1)%Z) by lia.
    destruct (IH e1 Hall' Hidx1) as (Hh & Hi & Hp).
    rewrite Hh, Hi, Hh1, Hi1. cbn [length].
    split; [reflexivity|]. split; [lia|].
    intros _ Hlt. destruct downs as [|ev' downs'].
    + cbn [map fold_left]. rewrite Hp1 by exact Hlt. rewrite Hi1. f_equal. cbn. lia.
    + destruct (Z.eq_dec (Editor.historyIndex e1) (-1)%Z) as [Heq|Hneq].
      * (* the index is back at -1: further presses change nothing *)
        assert (Hstay : forall evs (e0 : Editor.T),
                  Forall (fun ev => key ev = ArrowDown) evs ->
                  Editor.historyIndex e0 = (-1)%Z ->
                  fold_left (fun e2 a => Editor.act a e2)
                    (map (Editor.KeyDown b1 b2 m) evs) e0 = e0).
        { clear. induction evs as [|ev evs IHs]; intros e0 Hall H0; [reflexivity|].
          inversion Hall as [|? ? Hd Hall']; subst. cbn [map fold_left Editor.act].
          assert (Hsame : Editor.handlePromptKeyDown b1 b2 m ev e0 = e0).
          { unfold Editor.handlePromptKeyDown. rewrite Hd, H0. reflexivity. }
          rewrite Hsame. apply IHs; assumption. }
        rewrite (Hstay _ e1 Hall' Heq). rewrite Hp1 by exact Hlt.
        rewrite Hi1. f_equal. lia.
      * rewrite Hp by (try discriminate; lia). rewrite Hh1. f_equal.
        rewrite Hi, Hi1. reflexivity.
Qed.

(** X6.  Browsing with the arrow keys.  [ArrowUp] pressed [n] times in
    the first line of the field moves the index [n] entries towards the
    oldest one and stops there; [ArrowDown] pressed [k] times moves it
    back and stops at [-1].  The history is left as it is, the index
    stays within it, and after each run of presses that moved or could
    move the index the field shows the entry at the index, or the empty
    text at [-1]. *)
Theorem browse_history b1 b2 m ups downs (e : Editor.T)
    (Hindex : index_ok e)
    (Hups : Forall (first_line ArrowUp) ups)
    (Hdowns : Forall (fun ev => key ev = ArrowDown) downs) :
  let history := Editor.promptHistory e in
  let e1 := Editor.run (map (Editor.KeyDown b1 b2 m) ups) e in
  let e2 := Editor.run (map (Editor.KeyDown b1 b2 m) downs) e1 in
  (Editor.promptHistory e1 = history /\ Editor.promptHistory e2 = history) /\
  (index_ok e1 /\ index_ok e2) /\
  Editor.historyIndex e1 =
    Z.min (Editor.historyIndex e + Z.of_nat (length ups)) (Z.of_nat (length history) - 1) /\
  Editor.historyIndex e2 = Z.max (Editor.historyIndex e1 - Z.of_nat (length downs)) (-1) /\
  (ups <> [] -> history <> [] ->
   exists entry, Editor.prompt e1 = Some entry /\
                 history !! Z.to_nat (Editor.historyIndex e1) = Some entry) /\
  (downs <> [] -> (-1 < Editor.historyIndex e1)%Z ->
   Editor.prompt e2 = shown_at history (Editor.historyIndex e2) /\
   is_Some (Editor.prompt e2)).
Proof.
  cbn zeta.
  destruct (arrow_ups b1 b2 m ups e Hups Hindex) as (Hh1 & Hi1 & Hp1).
  set (e1 := Editor.run (map (Editor.KeyDown b1 b2 m) ups) e) in *.
  assert (Hidx1 : index_ok e1).
  { unfold index_ok in *. rewrite Hh1, Hi1. lia. }
  destruct (arrow_downs b1 b2 m downs e1 Hdowns) as (Hh2 & Hi2 & Hp2);
    [unfold index_ok in Hidx1; lia|].
  set (e2 := Editor.run (map (Editor.KeyDown b1 b2 m) downs) e1) in *.
  assert (Hidx2 : index_ok e2).
  { unfold index_ok in *. rewrite Hh2, Hi2. lia. }
  split; [split; congruence|]. split; [split; assumption|].
  split; [exact Hi1|]. split; [exact Hi2|]. split.
  - intros Hne Hhist. specialize (Hp1 Hne Hhist).
    assert (Hpos : (0 <= Editor.historyIndex e1)%Z).
    { rewrite Hi1. unfold index_ok in Hindex.
      destruct ups; [contradiction|]. destruct (Editor.promptHistory e); [contradiction|].
      cbn [length]. lia. }
    unfold at_index in Hp1.
    destruct (Editor.historyIndex e1 <? 0)%Z eqn:Hneg; [apply Z.ltb_lt in Hneg; lia|].
    destruct (lookup_lt_is_Some_2 (Editor.promptHistory e) (Z.to_nat (Editor.historyIndex e1)))
      as [entry Hentry].
    { unfold index_ok in Hidx1. rewrite Hh1 in Hidx1. lia. }
    exists entry. split; [congruence | exact Hentry].
  - intros Hne Hlt. specialize (Hp2 Hne Hlt). rewrite Hh1 in Hp2.
    split; [exact Hp2|]. rewrite Hp2. unfold shown_at, at_index.
    destruct (Editor.historyIndex e2 =? -1)%Z eqn:Hm1; [eexists; reflexivity|].
    apply Z.eqb_neq in Hm1. unfold index_ok in Hidx2. rewrite Hh2, Hh1 in Hidx2.
    destruct (Editor.historyIndex e2 <? 0)%Z eqn:Hneg; [apply Z.ltb_lt in Hneg; lia|].
    apply lookup_lt_is_Some_2. lia.
Qed.

Lemma deleteHistoryItem_length index (e : Editor.T) :
  (index < length (Editor.promptHistory e))%nat ->
  length (Editor.promptHistory (Editor.deleteHistoryItem index e)) =
    (length (Editor.promptHistory e) - 1)%nat /\
  Editor.historyIndex (Editor.deleteHistoryItem index e) = Editor.historyIndex e /\
  Editor.prompt (Editor.deleteHistoryItem index e) = Editor.prompt e.
Proof.
  intros Hlt. rewrite deleteHistoryItem_delete.
  rewrite length_delete by (apply lookup_lt_is_Some_2; exact Hlt).
  repeat split.
Qed.

(** X7.  [deleteHistoryItem] leaves the browsing index as it is.  When
    the index stands at the oldest entry of a history of two or more
    entries and two entries are deleted in the dialog, the next
    [ArrowDown] in the field moves the index to a position that has no
    entry any more: the prompt becomes [undefined], and the
    [handleGenerate] of the button then throws a [TypeError] at
    [prompt.trim()] without saving or starting anything. *)
Theorem stale_index_gives_undefined b1 b2 m m' ev i j (e : Editor.T)
    (Hkey : key ev = ArrowDown)
    (Holdest : Editor.historyIndex e = (Z.of_nat (length (Editor.promptHistory e)) - 1)%Z)
    (Hi : (i < length (Editor.promptHistory e))%nat)
    (Hj : (j < length (Editor.promptHistory e) - 1)%nat) :
  let e' := Editor.run [Editor.ClickDelete i; Editor.ClickDelete j;
                        Editor.KeyDown b1 b2 m ev] e in
  length (Editor.promptHistory e') = (length (Editor.promptHistory e) - 2)%nat /\
  Editor.historyIndex e' = Z.of_nat (length (Editor.promptHistory e')) /\
  Editor.prompt e' = None /\
  Editor.handleGenerate_prompt (Editor.present m' e') e' = Throw TypeError /\
  Editor.act (Editor.ClickGenerate m') e' = e'.
Proof.
  cbn zeta. unfold Editor.run. cbn [fold_left Editor.act].
  assert (Hi' : (i <? length (Editor.promptHistory e))%nat = true)
    by (apply Nat.ltb_lt; exact Hi).
  rewrite Hi'.
  destruct (deleteHistoryItem_length i e Hi) as (Hlen1 & Hidx1 & _).
  set (e1 := Editor.deleteHistoryItem i e) in *.
  assert (Hj1 : (j < length (Editor.promptHistory e1))%nat) by lia.
  assert (Hj' : (j <? length (Editor.promptHistory e1))%nat = true)
    by (apply Nat.ltb_lt; exact Hj1).
  rewrite Hj'.
  destruct (deleteHistoryItem_length j e1 Hj1) as (Hlen2 & Hidx2 & _).
  set (e2 := Editor.deleteHistoryItem j e1) in *.
  assert (Hidx : Editor.historyIndex e2 =
                 (Z.of_nat (length (Editor.promptHistory e2)) + 1)%Z) by lia.
  destruct (arrow_down_step b1 b2 m ev e2 Hkey) as (Hh3 & Hi3 & Hp3); [lia|].
  set (e3 := Editor.handlePromptKeyDown b1 b2 m ev e2) in *.
  assert (Hprompt : Editor.prompt e3 = None).
  { rewrite Hp3 by lia. rewrite Hi3. unfold shown_at, at_index.
    destruct (_ =? -1)%Z eqn:Hm1; [apply Z.eqb_eq in Hm1; lia|].
    destruct (_ <? 0)%Z eqn:Hneg; [reflexivity|].
    apply lookup_ge_None_2. lia. }
  assert (Hthrow : Editor.handleGenerate_prompt (Editor.present m' e3) e3 = Throw TypeError).
  { unfold Editor.handleGenerate_prompt, Editor.present. cbn [render_prompt].
    rewrite Hprompt. reflexivity. }
  split; [rewrite Hh3; lia|]. split; [rewrite Hi3, Hh3; lia|].
  split; [exact Hprompt|]. split; [exact Hthrow|].
  rewrite Hthrow. reflexivity.
Qed.

(** ** The lines of the debug log *)

Lemma not_bracket_run_app timestamp rest :
  bracket_close ∉ timestamp ->
  not_bracket_run (timestamp ++ bracket_close :: rest) = (timestamp, bracket_close :: rest).
Proof.
  induction timestamp as [|c timestamp IH]; intros Hno.
  - reflexivity.
  - cbn [app not_bracket_run].
    destruct (Ascii.eqb c bracket_close) eqn:Hc.
    + apply Ascii.eqb_eq in Hc. subst. contradiction Hno. left.
    + rewrite IH; [reflexivity|]. intros Hin. apply Hno. right. exact Hin.
Qed.

Lemma not_bracket_run_spec s :
  let '(run, rest) := not_bracket_run s in
  s = run ++ rest /\ (bracket_close ∉ run) /\
  (rest = [] \/ exists rest', rest = bracket_close :: rest').
Proof.
  induction s as [|c s IH]; cbn [not_bracket_run].
  - split; [reflexivity|]. split; [apply not_elem_of_nil | left; reflexivity].
  - destruct (Ascii.eqb c bracket_close) eqn:Hc.
    + apply Ascii.eqb_eq in Hc. subst.
      split; [reflexivity|]. split; [apply not_elem_of_nil | right; eexists; reflexivity].
    + destruct (not_bracket_run s) as [run rest]. destruct IH as (-> & Hno & Hrest).
      split; [reflexivity|]. split; [|exact Hrest].
      apply not_elem_of_cons. split; [|exact Hno].
      intros <-. rewrite Ascii.eqb_refl in Hc. discriminate.
Qed.

(** X8.  What [addLog] writes, the log view reads back.  For a time
    stamp that is not empty and has no closing bracket, the pattern of the
    view splits the stored line into that time stamp and the message
    exactly when the message is not empty and has no line terminator;
    otherwise the line is shown as it is, unparsed.  A line that the
    pattern accepts is the line [addLog] builds from the two parts it is
    split into. *)
Theorem log_line_round_trip timestamp message
    (Hstamp : timestamp <> [])
    (Hbracket : bracket_close ∉ timestamp) :
  timestampMatch (addLog_line timestamp message) =
    (if bool_decide (message <> []) &&
        forallb (fun c => negb (is_line_terminator c)) message
     then Some (timestamp, message) else None) /\
  (forall log stamp text,
     timestampMatch log = Some (stamp, text) ->
     log = addLog_line stamp text /\ stamp <> [] /\ (bracket_close ∉ stamp) /\ text <> [] /\
     forallb (fun c => negb (is_line_terminator c)) text = true).
Proof.
  split.
  - unfold timestampMatch, addLog_line.
    change (Ascii.eqb bracket_open bracket_open) with true. cbn iota.
    rewrite (not_bracket_run_app timestamp (space :: message) Hbracket).
    destruct timestamp as [|t timestamp]; [contradiction|].
    destruct message as [|m message]; [reflexivity|].
    change (Ascii.eqb bracket_close bracket_close) with true.
    change (Ascii.eqb space space) with true.
    rewrite bool_decide_eq_true_2 by discriminate. reflexivity.
  - intros log stamp text. unfold timestampMatch.
    destruct log as [|c s]; [discriminate|].
    destruct (Ascii.eqb c bracket_open) eqn:Hc; [|discriminate].
    apply Ascii.eqb_eq in Hc. subst c.
    pose proof (not_bracket_run_spec s) as Hrun.
    destruct (not_bracket_run s) as [[|t run] [|b [|sp [|m0 rest]]]]; try discriminate.
    destruct Hrun as (-> & Hno & _).
    destruct (Ascii.eqb b bracket_close) eqn:Hb; [|discriminate].
    destruct (Ascii.eqb sp space) eqn:Hsp; [|discriminate].
    apply Ascii.eqb_eq in Hb, Hsp. subst b sp. cbn [andb].
    destruct (forallb _ (m0 :: rest)) eqn:Hall; [|discriminate].
    intros Hsome. inversion Hsome; subst; clear Hsome.
    split; [reflexivity|]. split; [discriminate|]. split; [exact Hno|].
    split; [discriminate | exact Hall].
Qed.

Lemma strip_prefix_Some p : forall s r, strip_prefix p s = Some r <-> s = p ++ r.
Proof.
  induction p as [|a p IH]; intros s r.
  - destruct s; cbn; split; congruence.
  - destruct s as [|b s]; cbn [strip_prefix app].
    + split; discriminate.
    + destruct (Ascii.eqb a b) eqn:Hab.
      * apply Ascii.eqb_eq in Hab. subst b. rewrite IH. split; congruence.
      * split; [discriminate|]. intros Heq. inversion Heq; subst.
        rewrite Ascii.eqb_refl in Hab. discriminate.
Qed.

Lemma skip_ws_length s : (length (skip_ws s) <= length s)%nat.
Proof.
  induction s as [|c s IH]; [reflexivity|]. cbn [skip_ws].
  destruct (is_ws c); cbn [length]; lia.
Qed.

Lemma skip_ws_app blanks text :
  forallb is_ws blanks = true ->
  match text with c :: _ => is_ws c = false | [] => True end ->
  skip_ws (blanks ++ text) = text.
Proof.
  intros Hb Ht. induction blanks as [|c blanks IH].
  - destruct text as [|c text]; [reflexivity|]. cbn. rewrite Ht. reflexivity.
  - cbn in Hb. apply andb_true_iff in Hb as [Hc Hb]. cbn. rewrite Hc. apply IH, Hb.
Qed.

Lemma startsWith_strip s p :
  startsWith s p = match strip_prefix p s with Some _ => true | None => false end.
Proof.
  unfold startsWith. destruct (strip_prefix p s).
  - apply bool_decide_eq_true_2. eexists. reflexivity.
  - apply bool_decide_eq_false_2. intros [x Hx]. discriminate.
Qed.

(** X9.  The mark and the text of a log line agree.  The cascade of
    [startsWith] finds a level exactly when the pattern of
    [cleanMessage] removes one, which is then that level, so a line
    carries a mark if and only if its text was shortened.  For a message
    written as level, colon, white space and a text that does not begin
    with white space, the mark is that level and the text is shown without
    the level and the white space. *)
Theorem level_mark_agrees message :
  (level_of message = None <-> cleanMessage message = message) /\
  (forall l, level_of message = Some l <->
     exists body, message = level_name l ++ colon :: body) /\
  (forall l body, message = level_name l ++ colon :: body ->
     cleanMessage message = skip_ws body) /\
  (forall l blanks text,
     forallb is_ws blanks = true ->
     match text with c :: _ => is_ws c = false | [] => True end ->
     message = level_name l ++ colon :: blanks ++ text ->
     level_of message = Some l /\ cleanMessage message = text).
Proof.
  assert (Hshape : forall l body, message = level_name l ++ colon :: body ->
            level_of message = Some l /\ cleanMessage message = skip_ws body).
  { intros l body ->. destruct l; split; reflexivity. }
  assert (Hfound : forall l, level_of message = Some l ->
            exists body, message = level_name l ++ colon :: body).
  { intros l. unfold level_of. rewrite !startsWith_strip.
    destruct (strip_prefix (js "error:") message) as [r|] eqn:H1;
      [intros Hl; inversion Hl; subst; apply strip_prefix_Some in H1; exists r; exact H1|].
    destruct (strip_prefix (js "success:") message) as [r|] eqn:H2;
      [intros Hl; inversion Hl; subst; apply strip_prefix_Some in H2; exists r; exact H2|].
    destruct (strip_prefix (js "warning:") message) as [r|] eqn:H3;
      [intros Hl; inversion Hl; subst; apply strip_prefix_Some in H3; exists r; exact H3|].
    destruct (strip_prefix (js "progress:") message) as [r|] eqn:H4;
      [intros Hl; inversion Hl; subst; apply strip_prefix_Some in H4; exists r; exact H4|].
    destruct (strip_prefix (js "info:") message) as [r|] eqn:H5;
      [intros Hl; inversion Hl; subst; apply strip_prefix_Some in H5; exists r; exact H5|].
    discriminate. }
  assert (Hnone : level_of message = None -> cleanMessage message = message).
  { unfold level_of, cleanMessage. rewrite !startsWith_strip. cbn [strip_level].
    change (level_name LevelError ++ [colon]) with (js "error:").
    change (level_name LevelSuccess ++ [colon]) with (js "success:").
    change (level_name LevelWarning ++ [colon]) with (js "warning:").
    change (level_name LevelProgress ++ [colon]) with (js "progress:").
    change (level_name LevelInfo ++ [colon]) with (js "info:").
    destruct (strip_prefix (js "error:") message); [discriminate|].
    destruct (strip_prefix (js "success:") message); [discriminate|].
    destruct (strip_prefix (js "warning:") message); [discriminate|].
    destruct (strip_prefix (js "progress:") message); [discriminate|].
    destruct (strip_prefix (js "info:") message); [discriminate|].
    reflexivity. }
  split; [|split; [|split]].
  - split; [exact Hnone|]. intros Hclean.
    destruct (level_of message) as [l|] eqn:Hl; [|reflexivity].
    destruct (Hfound l eq_refl) as [body Hbody].
    destruct (Hshape l body Hbody) as [_ Hc].
    rewrite Hclean in Hc. pose proof (skip_ws_length body) as Hlen.
    rewrite <- Hc, Hbody, length_app in Hlen. cbn [length] in Hlen. lia.
  - intros l. split; [apply Hfound|]. intros [body Hbody]. apply (Hshape l body Hbody).
  - intros l body Hbody. apply (Hshape l body Hbody).
  - intros l blanks text Hb Ht Hm. destruct (Hshape l (blanks ++ text) Hm) as [Hl Hc].
    split; [exact Hl|]. rewrite Hc. apply skip_ws_app; assumption.
Qed.

(** ** The list of models *)

Lemma elem_of_List_filter {A} (f : A -> bool) (l : list A) (x : A) :
  x ∈ List.filter f l <-> x ∈ l /\ f x = true.
Proof. rewrite !list_elem_of_In. apply filter_In. Qed.

Lemma CategoryKey_eqb_eq a b : CategoryKey_eqb a b = true <-> a = b.
Proof. destruct a, b; cbn; split; congruence. Qed.

Lemma categorize_from models : forall (categories : Categories) k,
  fold_left (fun categories model_id => push (category_of model_id) model_id categories)
    models categories k =
  categories k ++ List.filter (fun m => CategoryKey_eqb k (category_of m)) models.
Proof.
  induction models as [|m models IH]; intros categories k; cbn [fold_left List.filter].
  - rewrite app_nil_r. reflexivity.
  - rewrite IH. unfold push at 1.
    destruct (CategoryKey_eqb k (category_of m)).
    + rewrite <- app_assoc. reflexivity.
    + reflexivity.
Qed.

Lemma categorize_filter models k :
  categorize models k = List.filter (fun m => CategoryKey_eqb k (category_of m)) models.
Proof. unfold categorize. rewrite categorize_from. reflexivity. Qed.

Lemma filter_filter_and {A} (f g : A -> bool) (l : list A) :
  List.filter g (List.filter f l) = List.filter (fun x => f x && g x) l.
Proof.
  induction l as [|x l IH]; [reflexivity|]. cbn [List.filter].
  destruct (f x); cbn [List.filter andb]; [destruct (g x)|]; rewrite IH; reflexivity.
Qed.

Lemma collect_cached_Ok env models : forall cached,
  exists found,
    collect_cached env models cached = Ok found /\
    forall m, m ∈ found <->
              m ∈ cached \/ (m ∈ models /\ adapter_hasModelInCache env m = Ok true).
Proof.
  induction models as [|model_id models IH]; intros cached; cbn [collect_cached].
  - exists cached. split; [reflexivity|]. intros m. split; [auto|].
    intros [Hm|[Hm _]]; [exact Hm | inversion Hm].
  - unfold hasModelInCache.
    destruct (adapter_hasModelInCache env model_id) as [[|]|error] eqn:Hhit; cbn [bind].
    + destruct (IH (cached ∪ {[ model_id ]})) as (found & -> & Hfound).
      exists found. split; [reflexivity|]. intros m.
      rewrite Hfound, elem_of_union, elem_of_singleton, elem_of_cons.
      split; [|intros [Hm|[[->|Hm] Hc]]; auto].
      intros [[Hm| ->]|[Hm Hc]]; auto.
    + destruct (IH cached) as (found & -> & Hfound).
      exists found. split; [reflexivity|]. intros m. rewrite Hfound, elem_of_cons.
      split; [intros [Hm|[Hm Hc]]; auto|].
      intros [Hm|[[->|Hm] Hc]]; auto. congruence.
    + destruct (IH cached) as (found & -> & Hfound).
      exists found. split; [reflexivity|]. intros m. rewrite Hfound, elem_of_cons.
      split; [intros [Hm|[Hm Hc]]; auto|].
      intros [Hm|[[->|Hm] Hc]]; auto. congruence.
Qed.

Lemma loadModels_fields allModels env st (s : Models.T) :
  let s' := Models.loadModels (Ok (Some allModels)) env st s in
  Models.models s' = categorize (List.filter isTextGeneration allModels) /\
  Models.selectedModel s' =
    default (Models.selectedModel s)
      (defaultModel allModels (categorize (List.filter isTextGeneration allModels))
         (model_item st)) /\
  exists cached,
    collect_cached env (List.filter isTextGeneration allModels) ∅ = Ok cached /\
    Models.cachedModels s' = cached /\
    last (Models.debugLogs s') = Some (LogCachedFound (base.size cached)).
Proof.
  cbn zeta. unfold Models.loadModels.
  destruct (collect_cached_Ok env (List.filter isTextGeneration allModels) ∅)
    as (cached & Hc & _).
  rewrite Hc.
  destruct (defaultModel _ _ _) as [model|]; cbn;
    (split; [reflexivity|]); (split; [reflexivity|]);
    exists cached; (split; [reflexivity|]); (split; [reflexivity|]);
    apply last_snoc.
Qed.

(** X10.  [loadModels] sorts every text model into exactly one category.
    Under each key the selector lists, in the order of the adapter's
    list, the models that the filter for text generation keeps and that
    the cascade sends to that key; a model whose id names an embedding,
    vision or clip model is under no key; and the categories together
    have as many entries as there are text models. *)
Theorem models_partition allModels env st (s : Models.T) :
  let s' := Models.loadModels (Ok (Some allModels)) env st s in
  (forall k, Models.models s' k =
     List.filter (fun m => isTextGeneration m && CategoryKey_eqb k (category_of m)) allModels) /\
  (forall m k, m ∈ Models.models s' k <->
     m ∈ allModels /\ isTextGeneration m = true /\ category_of m = k) /\
  (length (Models.models s' Llama) + length (Models.models s' Qwen) +
   length (Models.models s' Deepseek) + length (Models.models s' Phi) +
   length (Models.models s' Mistral) + length (Models.models s' Gemma) +
   length (Models.models s' Other) =
   length (List.filter isTextGeneration allModels))%nat.
Proof.
  cbn zeta. destruct (loadModels_fields allModels env st s) as (-> & _).
  split; [|split].
  - intros k. rewrite categorize_filter. apply filter_filter_and.
  - intros m k. rewrite categorize_filter, !elem_of_List_filter, CategoryKey_eqb_eq.
    split; [intros [[Hm Ht] Hk] | intros (Hm & Ht & Hk)]; auto.
  - rewrite !categorize_filter.
    induction (List.filter isTextGeneration allModels) as [|m l IH]; [reflexivity|].
    cbn [List.filter]. destruct (category_of m); cbn [CategoryKey_eqb length] in *; lia.
Qed.

Lemma truthy_Some v m : truthy v = Some m <-> v = Some m /\ m <> [].
Proof.
  destruct v as [[|c s]|]; cbn; split; try discriminate.
  - intros [Hv Hm]. inversion Hv; subst. contradiction.
  - intros Hv. inversion Hv; subst. split; [reflexivity | discriminate].
  - intros [Hv _]. exact Hv.
  - intros [Hv _]. discriminate.
Qed.

Lemma or_else_Some a b m :
  or_else a b = Some m -> (a = Some m \/ b = Some m) /\ m <> [].
Proof.
  unfold or_else. destruct (truthy a) as [v|] eqn:Ha.
  - intros Hv. inversion Hv; subst. apply truthy_Some in Ha as [-> Hm]. auto.
  - intros Hb. apply truthy_Some in Hb as [-> Hm]. auto.
Qed.

Lemma or_else_l a b m : a = Some m -> m <> [] -> or_else a b = Some m.
Proof.
  intros -> Hm. unfold or_else. destruct m; [contradiction | reflexivity].
Qed.

Lemma or_else_r a b : a = None -> or_else a b = truthy b.
Proof. intros ->. reflexivity. Qed.

Lemma truthy_or_else a b : truthy (or_else a b) = or_else a b.
Proof.
  unfold or_else. destruct (truthy a) as [v|] eqn:Ha.
  - apply truthy_Some in Ha as [_ Hv]. destruct v; [contradiction | reflexivity].
  - destruct b as [[|c s]|]; reflexivity.
Qed.

Lemma or_else_is_Some a b : is_Some (truthy b) -> is_Some (or_else a b).
Proof.
  intros Hb. unfold or_else. destruct (truthy a); [eexists; reflexivity | exact Hb].
Qed.

Lemma find_listed (saved : jsstring) (l : list jsstring) :
  (saved ∈ l -> List.find (fun m => str_eqb m saved) l = Some saved) /\
  (saved ∉ l -> List.find (fun m => str_eqb m saved) l = None).
Proof.
  induction l as [|x l [IHin IHout]]; cbn [List.find].
  - split; [intros Hin; inversion Hin | reflexivity].
  - unfold str_eqb at 1 3. destruct (decide (x = saved)) as [->|Hne].
    + rewrite bool_decide_eq_true_2 by reflexivity.
      split; [reflexivity|]. intros Hout. contradiction Hout. left.
    + rewrite bool_decide_eq_false_2 by exact Hne. split.
      * intros Hin. apply elem_of_cons in Hin as [->|Hin]; [contradiction | auto].
      * intros Hout. apply IHout. intros Hin. apply Hout. right. exact Hin.
Qed.

Lemma find_elem_of {A} (f : A -> bool) (l : list A) (x : A) :
  List.find f l = Some x -> x ∈ l /\ f x = true.
Proof. intros Hf. apply find_some in Hf. rewrite list_elem_of_In. exact Hf. Qed.

Lemma categorize_listed allModels k m :
  m ∈ categorize (List.filter isTextGeneration allModels) k -> m ∈ allModels.
Proof.
  rewrite categorize_filter, !elem_of_List_filter. tauto.
Qed.

Lemma defaultModel_listed allModels savedModel m :
  defaultModel allModels (categorize (List.filter isTextGeneration allModels)) savedModel =
    Some m ->
  m ∈ allModels /\ m <> [].
Proof.
  unfold defaultModel. intros Hd.
  apply or_else_Some in Hd as [[Hd|Hd] Hm]; (split; [|exact Hm]).
  - destruct (truthy savedModel); [|discriminate]. apply find_elem_of in Hd. tauto.
  - apply or_else_Some in Hd as [[Hd|Hd] _].
    + apply find_elem_of in Hd as [Hd _]. eapply categorize_listed, Hd.
    + apply or_else_Some in Hd as [[Hd|Hd] _].
      * apply find_elem_of in Hd as [Hd _]. eapply categorize_listed, Hd.
      * apply or_else_Some in Hd as [[Hd|Hd] _].
        -- apply head_Some_elem_of in Hd. eapply categorize_listed, Hd.
        -- apply head_Some_elem_of in Hd. exact Hd.
Qed.

Lemma defaultModel_saved allModels categories saved :
  saved <> [] -> saved ∈ allModels ->
  defaultModel allModels categories (Some saved) = Some saved.
Proof.
  intros Hne Hin. unfold defaultModel.
  assert (Ht : truthy (Some saved) = Some saved) by (apply truthy_Some; auto).
  rewrite Ht. apply or_else_l; [|exact Hne]. apply find_listed, Hin.
Qed.

Lemma defaultModel_unsaved allModels categories savedModel :
  (forall saved, savedModel = Some saved -> saved ∉ allModels) ->
  defaultModel allModels categories savedModel =
  or_else (List.find (fun m => includes m (js "7B")) (categories Qwen))
    (or_else (List.find (fun m => includes m (js "8B")) (categories Llama))
       (or_else (head (categories Mistral)) (head allModels))).
Proof.
  intros Hout. unfold defaultModel. rewrite or_else_r, truthy_or_else; [reflexivity|].
  destruct (truthy savedModel) as [saved|] eqn:Ht; [|reflexivity].
  apply truthy_Some in Ht as [-> _]. apply find_listed, Hout. reflexivity.
Qed.

Lemma loadModels_selection_log allModels env st (s : Models.T) model :
  defaultModel allModels (categorize (List.filter isTextGeneration allModels))
    (model_item st) = Some model ->
  LogModelSelected
    (match truthy (model_item st) with
     | Some saved => str_eqb saved model
     | None => false
     end) model ∈ Models.debugLogs (Models.loadModels (Ok (Some allModels)) env st s).
Proof.
  intros Hd. unfold Models.loadModels. rewrite Hd.
  destruct (collect_cached _ _ _); cbn; rewrite !elem_of_app, !list_elem_of_singleton; auto.
Qed.

(** X11.  The model that [loadModels] selects.  A selection is made only
    from the adapter's list and is never the empty id; when the list
    begins with a proper id, some model is selected.  The model stored by
    the last [handleModelChange] is restored whenever the list still has
    it, be it a text model or not, and the log says so; when the stored
    model is gone from the list, the first id with 7B under the key of the
    Qwen models is chosen if there is one. *)
Theorem default_model allModels env st (s : Models.T) :
  let s' := Models.loadModels (Ok (Some allModels)) env st s in
  (Models.selectedModel s' = Models.selectedModel s \/
   (Models.selectedModel s' ∈ allModels /\ Models.selectedModel s' <> [])) /\
  (forall first rest, allModels = first :: rest -> first <> [] ->
     Models.selectedModel s' ∈ allModels /\ Models.selectedModel s' <> []) /\
  (forall saved, model_item st = Some saved -> saved <> [] -> saved ∈ allModels ->
     Models.selectedModel s' = saved /\
     LogModelSelected true saved ∈ Models.debugLogs s') /\
  (forall m, (forall saved, model_item st = Some saved -> saved ∉ allModels) ->
     List.find (fun m => includes m (js "7B")) (Models.models s' Qwen) = Some m ->
     Models.selectedModel s' = m) /\
  (forall value s0 st0, value <> [] -> value ∈ allModels ->
     Models.selectedModel
       (Models.loadModels (Ok (Some allModels)) env
          (snd (Models.handleModelChange value s0 st0)) s) = value).
Proof.
  cbn zeta.
  destruct (loadModels_fields allModels env st s) as (Hmodels & Hsel & _).
  split; [|split; [|split; [|split]]].
  - rewrite Hsel. destruct (defaultModel _ _ _) as [m|] eqn:Hd; [right | left; reflexivity].
    apply (defaultModel_listed allModels (model_item st) m Hd).
  - intros first rest Hall Hfirst. rewrite Hsel.
    destruct (defaultModel _ _ _) as [m|] eqn:Hd.
    + apply (defaultModel_listed allModels (model_item st) m Hd).
    + assert (Hsome : is_Some (defaultModel allModels
                (categorize (List.filter isTextGeneration allModels)) (model_item st))).
      { unfold defaultModel. do 3 (apply or_else_is_Some; rewrite truthy_or_else).
        apply or_else_is_Some.
        rewrite Hall. destruct first; [contradiction | eexists; reflexivity]. }
      rewrite Hd in Hsome. destruct Hsome as [x Hx]. discriminate.
  - intros saved Hst Hne Hin.
    assert (Hd : defaultModel allModels
                   (categorize (List.filter isTextGeneration allModels)) (model_item st) =
                 Some saved).
    { rewrite Hst. apply defaultModel_saved; assumption. }
    split; [rewrite Hsel, Hd; reflexivity|].
    pose proof (loadModels_selection_log allModels env st s saved Hd) as Hlog.
    rewrite Hst in Hlog.
    assert (Ht : truthy (Some saved) = Some saved) by (apply truthy_Some; auto).
    rewrite Ht in Hlog. unfold str_eqb in Hlog.
    rewrite bool_decide_eq_true_2 in Hlog by reflexivity. exact Hlog.
  - intros m Hout Hfind. rewrite Hsel, Hmodels in *.
    rewrite (defaultModel_unsaved allModels _ (model_item st) Hout).
    rewrite (or_else_l _ _ m Hfind); [reflexivity|].
    apply find_elem_of in Hfind as [_ Hinc]. intros ->. discriminate.
  - intros value s0 st0 Hne Hin.
    destruct (loadModels_fields allModels env
                (snd (Models.handleModelChange value s0 st0)) s) as (_ & -> & _).
    cbn [Models.handleModelChange snd Editor.store_model model_item].
    rewrite (defaultModel_saved allModels _ value Hne Hin). reflexivity.
Qed.

(** X12.  The models marked as cached after [loadModels] are exactly the
    text models of the list for which the adapter answers that they are in
    the cache; what the set held before is dropped.  A model for which the
    adapter throws counts as not cached, and no such error stops the
    loading: the last line of the log reports the number of cached
    models. *)
Theorem cached_models_on_load allModels env st (s : Models.T) :
  let s' := Models.loadModels (Ok (Some allModels)) env st s in
  (forall m, m ∈ Models.cachedModels s' <->
     m ∈ allModels /\ isTextGeneration m = true /\
     adapter_hasModelInCache env m = Ok true) /\
  last (Models.debugLogs s') = Some (LogCachedFound (base.size (Models.cachedModels s'))).
Proof.
  cbn zeta.
  destruct (loadModels_fields allModels env st s) as (_ & _ & cached & Hc & -> & Hlast).
  split; [|exact Hlast].
  destruct (collect_cached_Ok env (List.filter isTextGeneration allModels) ∅)
    as (found & Hf & Hfound).
  assert (found = cached) as -> by congruence.
  intros m. rewrite Hfound, elem_of_List_filter. split.
  - intros [Hm|[[Hm Ht] Hhit]]; [exfalso; exact (not_elem_of_empty m Hm) | auto].
  - intros (Hm & Ht & Hhit). right. auto.
Qed.

(** ** What [initializeEngine] leaves in the hook *)

(** X13.  The refs of the hook after [initializeEngine], by outcome.
    When it returns an engine, the hook holds that engine for the model
    asked for and for no other model, and a second call for the same
    model returns it without touching the hook or the adapter.  When it
    throws an abort error the refs are as before; when it throws any
    other error both refs are empty, so that an engine held for another
    model is dropped as well.  A hook that was not initializing is not
    initializing afterwards. *)
Theorem initializeEngine_outcome cenv cenv' modelId signal signal' (h : Hook) :
  let '(h', _, r) := initializeEngine cenv modelId signal h in
  match r with
  | Ok engine =>
      reusable_engine h' modelId = Some engine /\
      initializeEngine cenv' modelId signal' h' = (h', [], Ok engine) /\
      (forall other, other <> modelId -> reusable_engine h' other = None)
  | Throw e =>
      if isAbortError e
      then engineRef h' = engineRef h /\ currentModelRef h' = currentModelRef h
      else forall m, reusable_engine h' m = None
  end /\
  (isInitializing h = false -> isInitializing h' = false) /\
  isGenerating h' = isGenerating h.
Proof.
  assert (Hself : str_eqb modelId modelId = true)
    by (apply bool_decide_eq_true_2; reflexivity).
  assert (Hother : forall other, other <> modelId -> str_eqb modelId other = false).
  { intros other Hne. apply bool_decide_eq_false_2. congruence. }
  unfold initializeEngine.
  destruct (reusable_engine h modelId) as [e|] eqn:Hre.
  - split; [|split; [auto | reflexivity]].
    split; [exact Hre|]. split; [rewrite Hre; reflexivity|].
    intros other Hne. unfold reusable_engine in *.
    destruct (engineRef h); [|reflexivity].
    destruct (currentModelRef h) as [m|]; [|reflexivity].
    destruct (str_eqb m modelId) eqn:Hm; [|discriminate].
    apply bool_decide_eq_true in Hm. subst m. rewrite (Hother other Hne). reflexivity.
  - destruct (signal_aborted signal).
    + split; [|split; [auto | reflexivity]]. cbn. split; reflexivity.
    + destruct (create_result cenv) as [engine|err].
      * split; [|split; reflexivity].
        assert (Hnew : reusable_engine
                  (set_isInitializing false
                     (set_refs (Some engine) (Some modelId)
                        (record_call (CreateMLCEngine modelId)
                           (set_isInitializing true h)))) modelId = Some engine).
        { unfold reusable_engine. cbn. rewrite Hself. reflexivity. }
        split; [exact Hnew|]. split; [rewrite Hnew; reflexivity|].
        intros other Hne. unfold reusable_engine. cbn. rewrite (Hother other Hne).
        reflexivity.
      * split; [|split; [intros _|]; destruct (isAbortError err); reflexivity].
        destruct (isAbortError err); [split; reflexivity|].
        intros m. reflexivity.
Qed.

Section BusyFlags.

Context `{Externals}.

Lemma generateSVG_flags env p signal (s : State) :
  isGenerating (hook (fst (generateSVG env p signal s))) = false /\
  (isInitializing (hook s) = false ->
   isInitializing (hook (fst (generateSVG env p signal s))) = false).
Proof.
  destruct (generateSVG_trace env p signal s) as (l & _ & Hi & Hg).
  split; assumption.
Qed.

(** X14.  The busy flags after a run.  When the hook is idle as
    [handleGenerate] is called, it is idle again when [handleGenerate]
    returns, whatever the exit: neither [isInitializing] nor
    [isGenerating] stays set, so the buttons that the flags disable are
    enabled again. *)
Theorem busy_flags_cleared envs p (s s' : State) e
    (Hidle : isInitializing (hook s) = false /\ isGenerating (hook s) = false)
    (Hrun : handleGenerate envs p s = Some (e, s')) :
  isInitializing (hook s') = false /\ isGenerating (hook s') = false.
Proof.
  unfold handleGenerate in Hrun.
  destruct (is_blank (prompt p)); [inversion Hrun; subst; exact Hidle|].
  destruct (bool_decide (selectedModel p = [])); [inversion Hrun; subst; exact Hidle|].
  refine (generateLoop_inv envs p
            (fun s0 => isInitializing (hook s0) = false /\ isGenerating (hook s0) = false)
            (fun _ s1 => isInitializing (hook s1) = false /\ isGenerating (hook s1) = false)
            _ _ _ _ e s' _ Hrun).
  - intros s0 [Hi Hg] _. unfold iteration.
    destruct (beginAttempt s0) as [b|] eqn:Hb; [|split; assumption].
    apply beginAttempt_Some in Hb as (_ & _ & _ & _ & _ & _ & Hhook & _).
    destruct (generateSVG_flags (envs (S (attempt s0))) p (abortControllerRef b) b)
      as [Hg1 Hi1].
    rewrite Hhook in Hi1. specialize (Hi1 Hi).
    pose proof (dispatch_hook p (snd (generateSVG (envs (S (attempt s0))) p
                                        (abortControllerRef b) b))
                  (fst (generateSVG (envs (S (attempt s0))) p (abortControllerRef b) b)))
      as Hd.
    destruct (generateSVG (envs (S (attempt s0))) p (abortControllerRef b) b) as [s1 r].
    cbn [fst snd] in *.
    destruct r as [full|error].
    + destruct (onResponse p full s1) as [e1 s2|s2]; destruct Hd as [-> _]; auto.
    + destruct (onError error s1) as [e1 s2|s2]; destruct Hd as [-> _]; auto.
  - intros s0 Hs0 _. exact Hs0.
  - exact Hidle.
Qed.

End BusyFlags.

(** ** Clearing every cache *)

Lemma deleteAllModelCache_eq env :
  deleteAllModelCache env =
  do _a <- clearIndexedDB env;
  do _b <- clearCacheStorage env;
  do _c <- clearLocalStorage env;
  do _d <- clearSessionStorage env;
  unregisterServiceWorkers env.
Proof. unfold deleteAllModelCache, rethrow. destruct (bind _ _); reflexivity. Qed.

(** X15.  Clearing every cache erases what the component has stored.
    [deleteAllModelCache] leaves the items of the component as they were
    or removes all of them, and removes them whenever it succeeds where
    [localStorage] exists.  Once they are removed, a reload starts with an
    empty history and an empty prompt, and [loadModels] chooses the
    model as if none had been stored.  The items are also removed when a
    later step fails: when the first three steps succeed and clearing
    [sessionStorage] throws, the call throws that error and
    [handleDeleteAllCache] reports a failure and keeps the cached
    models, but the history is gone. *)
Theorem delete_all_erases_storage env st (s : Models.T) err
    (Hdb : clearIndexedDB env = Ok tt)
    (Hcaches : clearCacheStorage env = Ok tt)
    (Hlocal : localStorage_defined env = true /\ localStorage_clear env = Ok tt)
    (Hsession : sessionStorage_defined env = true /\ sessionStorage_clear env = Throw err) :
  (forall env0 st0,
     (deleteAllModelCache_storage env0 st0 = st0 \/
      deleteAllModelCache_storage env0 st0 = storage_empty) /\
     (deleteAllModelCache env0 = Ok tt -> localStorage_defined env0 = true ->
      deleteAllModelCache_storage env0 st0 = storage_empty)) /\
  (Editor.mount storage_empty = Editor.initial storage_empty /\
   persisted_history storage_empty = [] /\
   forall allModels categories,
     defaultModel allModels categories (model_item storage_empty) =
     defaultModel allModels categories None) /\
  (deleteAllModelCache env = Throw err /\
   deleteAllModelCache_storage env st = storage_empty /\
   Models.cachedModels (Models.handleDeleteAllCache env s) = Models.cachedModels s /\
   last (Models.toasts (Models.handleDeleteAllCache env s)) = Some ToastCacheDeleteFailed).
Proof.
  split; [|split].
  - intros env0 st0. split.
    + unfold deleteAllModelCache_storage.
      destruct (bind _ _); [|left; reflexivity].
      destruct (localStorage_defined env0); [|left; reflexivity].
      destruct (localStorage_clear env0); [right | left]; reflexivity.
    + rewrite deleteAllModelCache_eq. unfold deleteAllModelCache_storage, clearLocalStorage.
      intros Hok Hdef. rewrite Hdef in *.
      destruct (clearIndexedDB env0) as [[]|e0]; [|discriminate]. cbn [bind] in *.
      destruct (clearCacheStorage env0) as [[]|e0]; [|discriminate]. cbn [bind] in *.
      destruct (localStorage_clear env0) as [[]|e0]; [reflexivity | discriminate].
  - repeat split.
  - destruct Hlocal as [Hldef Hlclear]. destruct Hsession as [Hsdef Hsclear].
    assert (Hthrow : deleteAllModelCache env = Throw err).
    { rewrite deleteAllModelCache_eq. unfold clearLocalStorage, clearSessionStorage.
      rewrite Hdb, Hcaches, Hldef, Hlclear, Hsdef, Hsclear. reflexivity. }
    split; [exact Hthrow|]. split.
    + unfold deleteAllModelCache_storage. rewrite Hdb, Hcaches. cbn [bind].
      rewrite Hldef, Hlclear. reflexivity.
    + unfold Models.handleDeleteAllCache. rewrite Hthrow. cbn.
      split; [reflexivity | apply last_snoc].
Qed.

Section Totality.

Context `{Externals}.

(** [handleGenerate] returns: the fuel of the loop is never used up. *)
Lemma handleGenerate_total envs p (s : State) :
  exists e s', handleGenerate envs p s = Some (e, s').
Proof.
  unfold handleGenerate.
  destruct (is_blank (prompt p)); [eexists _, _; reflexivity|].
  destruct (bool_decide (selectedModel p = [])); [eexists _, _; reflexivity|].
  destruct (generateLoop_terminates envs p maxRetries (S maxRetries) (startGeneration p s))
    as (e & s' & Hloop & _); [reflexivity | unfold maxRetries; lia |].
  exists e, s'. exact Hloop.
Qed.

End Totality.

(** ** The stored prompt *)

Lemma mount_prompt st :
  Editor.prompt (Editor.mount st) = Some (default [] (prompt_item st)) /\
  Editor.localStorage (Editor.mount st) = st.
Proof.
  unfold Editor.mount.
  destruct (history_item st), (prompt_item st) as [[|c p]|]; split; reflexivity.
Qed.

Lemma prompt_persisted_eq (e : Editor.T) :
  prompt_persisted e <->
  Editor.prompt e = Some (default [] (prompt_item (Editor.localStorage e))).
Proof.
  unfold prompt_persisted. destruct (mount_prompt (Editor.localStorage e)) as [-> _].
  split; congruence.
Qed.

Lemma handleGenerate_prompt_persisted r (e : Editor.T) :
  prompt_persisted e ->
  match Editor.handleGenerate_prompt r e with
  | Ok (e', _) => prompt_persisted e'
  | Throw _ => True
  end.
Proof.
  rewrite prompt_persisted_eq. intros Hp. unfold Editor.handleGenerate_prompt.
  destruct (render_prompt r) as [currentPrompt|]; [|exact I].
  destruct (is_blank currentPrompt) eqn:Hb; [apply prompt_persisted_eq; exact Hp|].
  destruct (bool_decide (render_model r = [])); [apply prompt_persisted_eq; exact Hp|].
  apply prompt_persisted_eq. reflexivity.
Qed.

Lemma act_prompt_persisted a (e : Editor.T) :
  keeps_prompt a = true -> prompt_persisted e -> prompt_persisted (Editor.act a e).
Proof.
  intros Hkeeps Hp.
  destruct a as [newPrompt|b1 b2 held ev|m|index|index| |]; cbn [Editor.act].
  - apply prompt_persisted_eq. reflexivity.
  - pose proof (handleGenerate_prompt_persisted held e Hp) as Hgen.
    cbn [keeps_prompt] in Hkeeps. unfold Editor.handlePromptKeyDown.
    destruct (key ev); try discriminate; [|exact Hp].
    destruct (ctrlKey ev); [|exact Hp].
    destruct (negb b1 && negb b2); [|exact Hp].
    destruct (Editor.handleGenerate_prompt held e) as [[e' started]|err]; assumption.
  - pose proof (handleGenerate_prompt_persisted (Editor.present m e) e Hp) as Hgen.
    destruct (Editor.handleGenerate_prompt (Editor.present m e) e) as [[e' started]|err];
      assumption.
  - discriminate.
  - destruct (_ <? _)%nat; [|exact Hp].
    apply prompt_persisted_eq. apply prompt_persisted_eq in Hp. exact Hp.
  - destruct (Editor.promptHistory e); [exact Hp|].
    apply prompt_persisted_eq. apply prompt_persisted_eq in Hp. exact Hp.
  - unfold prompt_persisted.
    destruct (mount_prompt (Editor.localStorage e)) as [_ ->]. reflexivity.
Qed.

(** X16.  The stored prompt follows what is typed, not what is chosen
    from the history.  As long as the user types, submits, deletes or
    clears history entries and reloads, a reload of the page shows the
    prompt that the field shows.  Choosing an entry of the history in the
    dialog changes the field only: a reload then brings back the text that
    was shown before the entry was chosen. *)
Theorem stored_prompt_in_step actions (e : Editor.T)
    (Hstart : prompt_persisted e)
    (Hkeeps : forallb keeps_prompt actions = true) :
  prompt_persisted (Editor.run actions e) /\
  (forall index entry,
     Editor.promptHistory (Editor.run actions e) !! index = Some entry ->
     Editor.prompt (Editor.act (Editor.ClickEntry index) (Editor.run actions e)) =
       Some entry /\
     Editor.prompt (Editor.act Editor.Reload
                      (Editor.act (Editor.ClickEntry index) (Editor.run actions e))) =
       Editor.prompt (Editor.run actions e)).
Proof.
  assert (Hrun : prompt_persisted (Editor.run actions e)).
  { unfold Editor.run. revert e Hstart.
    induction actions as [|a actions IH]; intros e Hstart; [exact Hstart|].
    cbn [forallb] in Hkeeps. apply andb_true_iff in Hkeeps as [Ha Hrest].
    cbn [fold_left]. apply (IH Hrest). apply act_prompt_persisted; assumption. }
  split; [exact Hrun|].
  intros index entry Hentry. cbn [Editor.act]. rewrite Hentry.
  split; [reflexivity|]. exact Hrun.
Qed.

(** ** Deleting the cache of one model *)

Lemma for_each_ext {A B} (f g : A -> Result B) xs :
  (forall x, In x xs -> f x = g x) -> for_each f xs = for_each g xs.
Proof.
  induction xs as [|x xs IH]; intros Hext; [reflexivity|]. cbn [for_each].
  rewrite (Hext x (or_introl eq_refl)). destruct (g x); [|reflexivity].
  cbn [bind]. apply IH. intros y Hy. apply Hext. right. exact Hy.
Qed.

Lemma deleteModelCache_eq env modelId :
  deleteModelCache env modelId =
  do _u <- adapter_deleteModelInCache env modelId;
  if caches_defined env then
    do cacheNames <- caches_keys env;
    for_each (fun cacheName =>
                if includes cacheName modelId
                then do _b <- caches_delete env cacheName; Ok tt
                else Ok tt) cacheNames
  else Ok tt.
Proof. unfold deleteModelCache, rethrow. destruct (bind _ _); reflexivity. Qed.

(** X17.  [deleteModelCache] touches the caches of the model only.  It
    succeeds exactly when the adapter's deletion succeeds and, where
    Cache Storage exists, the names can be listed and every cache whose
    name includes the model id is deleted without error; what deleting
    any other cache would do plays no part in its result.  The button
    [handleDeleteCache] removes the mark of that model exactly when the
    deletion succeeded, and changes the mark of no other model. *)
Theorem deleteModelCache_only_matching env env' modelId (s : Models.T)
    (Hadapter : adapter_deleteModelInCache env' modelId =
                adapter_deleteModelInCache env modelId)
    (Hcaches : caches_defined env' = caches_defined env /\ caches_keys env' = caches_keys env)
    (Hmatching : forall cacheName, includes cacheName modelId = true ->
                                   caches_delete env' cacheName = caches_delete env cacheName) :
  deleteModelCache env' modelId = deleteModelCache env modelId /\
  (deleteModelCache env modelId = Ok tt <->
   adapter_deleteModelInCache env modelId = Ok tt /\
   (caches_defined env = true ->
    exists cacheNames,
      caches_keys env = Ok cacheNames /\
      forall cacheName, In cacheName cacheNames -> includes cacheName modelId = true ->
                        exists deleted, caches_delete env cacheName = Ok deleted)) /\
  (forall m, m ∈ Models.cachedModels (Models.handleDeleteCache env modelId s) <->
             m ∈ Models.cachedModels s /\
             (m = modelId -> deleteModelCache env modelId <> Ok tt)).
Proof.
  destruct Hcaches as [Hdefined Hkeys]. split; [|split].
  - rewrite !deleteModelCache_eq, Hadapter, Hdefined, Hkeys.
    destruct (adapter_deleteModelInCache env modelId); [|reflexivity]. cbn [bind].
    destruct (caches_defined env); [|reflexivity].
    destruct (caches_keys env) as [cacheNames|]; [|reflexivity]. cbn [bind].
    apply for_each_ext. intros cacheName _.
    destruct (includes cacheName modelId) eqn:Hinc; [|reflexivity].
    rewrite (Hmatching cacheName Hinc). reflexivity.
  - rewrite deleteModelCache_eq.
    destruct (adapter_deleteModelInCache env modelId) as [[]|err]; cbn [bind];
      [|split; [discriminate | intros [Hd _]; discriminate]].
    destruct (caches_defined env).
    + destruct (caches_keys env) as [cacheNames|err]; cbn [bind].
      * rewrite for_each_pass. split.
        -- intros Hall. split; [reflexivity|]. intros _. exists cacheNames.
           split; [reflexivity|]. intros cacheName Hin Hinc.
           destruct (Hall cacheName Hin) as [b Hb]. rewrite Hinc in Hb.
           destruct (caches_delete env cacheName) as [deleted|]; [|discriminate].
           exists deleted. reflexivity.
        -- intros [_ Hnames]. destruct (Hnames eq_refl) as (names & Hk & Hall).
           inversion Hk; subst names. intros cacheName Hin.
           destruct (includes cacheName modelId) eqn:Hinc; [|exists tt; reflexivity].
           destruct (Hall cacheName Hin Hinc) as [deleted ->]. exists tt. reflexivity.
      * split; [discriminate|]. intros [_ Hnames].
        destruct (Hnames eq_refl) as (names & Hk & _). discriminate.
    + split; [intros _; split; [reflexivity | discriminate] | reflexivity].
  - intros m. unfold Models.handleDeleteCache.
    destruct (deleteModelCache env modelId) as [[]|err]; cbn.
    + rewrite elem_of_difference, elem_of_singleton. split.
      * intros [Hm Hne]. split; [exact Hm|]. intros Heq. contradiction.
      * intros [Hm Hne]. split; [exact Hm|]. intros Heq. apply (Hne Heq). reflexivity.
    + split; [intros Hm; split; [exact Hm | discriminate] | tauto].
Qed.

(** * The properties on sample runs *)

#[local] Existing Instance simple_externals.

Lemma no_graphics_recoverable k : recoverable (no_graphics k).
Proof.
  unfold recoverable, no_graphics, streaming; cbn.
  split; [split; [intros [Hd|[]]; discriminate | intros []]|].
  split; [intros e He; discriminate|].
  split; [intros e He; discriminate|].
  vm_compute. reflexivity.
Qed.

Lemma transport_failure_recoverable : recoverable transport_failure.
Proof.
  unfold recoverable, transport_failure, streaming; cbn.
  split; [split; [intros [Hd|[]]; discriminate | intros []]|].
  split; [intros e He; discriminate|].
  split; [intros e He; discriminate|].
  vm_compute. reflexivity.
Qed.

Lemma sample_start_opens env_events ending :
  stream_opens (streaming env_events ending) sample_params sample_start 1%nat.
Proof. split; reflexivity. Qed.

(** Ten attempts without graphics end in the failure of the tenth. *)
Lemma retry_bound_witness :
  (exists e s', handleGenerate no_graphics sample_params state_init = Some (e, s') /\
                (attempt s' <= maxRetries)%nat) /\
  exists s9 b s10 r c s',
    retried 9 no_graphics sample_params (startGeneration sample_params state_init) = Some s9 /\
    beginAttempt s9 = Some b /\ attempt b = maxRetries /\
    generateSVG (no_graphics maxRetries) sample_params (abortControllerRef b) b = (s10, r) /\
    attempt_cause r = Some c /\
    handleGenerate no_graphics sample_params state_init = Some (cause_exit c, s') /\
    attempt s' = maxRetries /\
    last (toasts s') = Some (cause_toast c).
Proof.
  destruct (retry_bound no_graphics sample_params state_init) as [Hbound Hfatal].
  - reflexivity.
  - discriminate.
  - split; [exact Hbound|]. apply Hfatal.
    intros k _. apply no_graphics_recoverable.
Defined.

Example no_graphics_fails :
  option_map (fun r => (fst r, attempt (snd r), toasts (snd r)))
    (handleGenerate no_graphics sample_params state_init) =
  Some (ExitNoSvgFound, 10%nat, [ToastExtractFailed]).
Proof. vm_compute. reflexivity. Qed.

(** Stop pressed in the middle of the first attempt.  The state in which
    the flag is found set at the head of the loop is the one that an
    attempt leaves when stop is pressed and the stream ends without a
    block. *)
Lemma stop_semantics_witness :
  (iteration (stop_then_end 1) sample_params sample_start = Continue sample_stopped /\
   shouldStopRef sample_stopped = true /\ attempt sample_stopped = 1%nat) /\
  (generateLoop 2 stop_midway sample_params sample_stopped =
     Some (ExitStoppedAtEntry, stopped sample_stopped) /\
   hook (stopped sample_stopped) = hook sample_stopped /\
   attempt (stopped sample_stopped) = attempt sample_stopped) /\
  (forall s0 : State, exists b, beginAttempt (startGeneration sample_params s0) = Some b) /\
  exists e s' opening,
    generateLoop 3 stop_midway sample_params sample_start = Some (e, s') /\
    attempt s' = S (attempt sample_start) /\
    adapterCalls (hook s') =
      adapterCalls (hook sample_start) ++ opening ++
      ChatCompletionsCreate 1%nat ::
        button_calls (Some 1%nat) true (stream_events (stop_midway (S (attempt sample_start)))) /\
    Forall (fun call => is_chat_call call = false) opening /\
    ((forall value, ~ In (UserChangeModel value) [Chunk (js "<svg><circ")]) ->
     In (InterruptGenerate 1%nat)
        (button_calls (Some 1%nat) true
           (stream_events (stop_midway (S (attempt sample_start)))))) /\
    ((exists value, In (UserChangeModel value) [Chunk (js "<svg><circ")]) ->
     button_calls (Some 1%nat) true (stream_events (stop_midway (S (attempt sample_start)))) =
     button_calls (Some 1%nat) true [Chunk (js "<svg><circ")]) /\
    (forall err, stream_end (stop_midway (S (attempt sample_start))) = Some err ->
                 isAbortError err = true -> e = ExitStoppedOnAbort) /\
    (stream_end (stop_midway (S (attempt sample_start))) = None ->
     valid_blocks (streamed_text (stream_events (stop_midway (S (attempt sample_start))))) <> [] ->
     e = ExitSuccess /\
     extractedSVGs s' =
       valid_blocks (streamed_text (stream_events (stop_midway (S (attempt sample_start)))))) /\
    (forall cause,
       attempt_cause (stream_result (stop_midway (S (attempt sample_start)))) = Some cause ->
       ((S (attempt sample_start) < maxRetries)%nat -> e = ExitStoppedAtEntry) /\
       (S (attempt sample_start) = maxRetries ->
        e = cause_exit cause /\ last (toasts s') = Some (cause_toast cause))) /\
    (e <> ExitSuccess ->
     selectedSVGIndex s' = selectedSVGIndex sample_start /\
     cachedModels s' = cachedModels sample_start).
Proof.
  split.
  { assert (Hcontinues : match iteration (stop_then_end 1) sample_params sample_start with
                         | Continue _ => true
                         | Return _ _ => false
                         end = true) by (vm_compute; reflexivity).
    split; [|split; vm_compute; reflexivity].
    unfold sample_stopped.
    destruct (iteration (stop_then_end 1) sample_params sample_start);
      [discriminate | reflexivity]. }
  apply (stop_semantics 1 stop_midway sample_params sample_stopped
           sample_start first_controller 1%nat [Chunk (js "<svg><circ")] []).
  - vm_compute. reflexivity.
  - vm_compute. lia.
  - vm_compute. lia.
  - reflexivity.
  - reflexivity.
  - reflexivity.
  - apply sample_start_opens.
  - intros Hin. exact Hin.
  - reflexivity.
  - intros [Hd|[]]. discriminate.
Defined.

Example stop_midway_stops :
  option_map (fun r => (fst r, attempt (snd r), extractedSVGs (snd r), toasts (snd r),
                        adapterCalls (hook (snd r))))
    (handleGenerate stop_midway sample_params state_init) =
  Some (ExitStoppedOnAbort, 1%nat, [], [ToastStopped],
        [CreateMLCEngine (js "m1"); ChatCompletionsCreate 1; InterruptGenerate 1]).
Proof. vm_compute. reflexivity. Qed.

(** The stop that is found at the head of the loop: the first attempt
    ends without a block after stop was pressed, and no second attempt
    begins. *)
Example stop_then_end_stops :
  option_map (fun r => (fst r, attempt (snd r), toasts (snd r),
                        adapterCalls (hook (snd r))))
    (handleGenerate stop_then_end sample_params state_init) =
  Some (ExitStoppedAtEntry, 1%nat, [ToastStopped],
        [CreateMLCEngine (js "m1"); ChatCompletionsCreate 1; InterruptGenerate 1]).
Proof. vm_compute. reflexivity. Qed.

(** After a change of the model the hook holds no engine: the stop button
    reaches no adapter, and the stream that nobody interrupts ends with
    success. *)
Example stop_after_model_change :
  option_map (fun r => (fst r, attempt (snd r), extractedSVGs (snd r), toasts (snd r),
                        adapterCalls (hook (snd r)), engineRef (hook (snd r))))
    (handleGenerate change_then_stop sample_params state_init) =
  Some (ExitSuccess, 1%nat, [js "<svg></svg>"], [ToastStopped; ToastGenerated 1 None],
        [CreateMLCEngine (js "m1"); ChatCompletionsCreate 1], None).
Proof. vm_compute. reflexivity. Qed.

(** Against C2 as stated: stop is pressed while the first attempt
    streams, [interruptGenerate] is called, the stream ends normally, and
    the call ends with success and one artifact.  And when the stream
    aborts and the call ends as stopped, the block that the live preview
    has extracted is still in [extractedSVGs]: no path clears it. *)
Lemma stop_after_block_succeeds :
  (In UserStop (stream_events (stop_after_block 1)) /\
   option_map (fun r => (fst r, attempt (snd r), extractedSVGs (snd r), toasts (snd r),
                         adapterCalls (hook (snd r))))
     (handleGenerate stop_after_block sample_params state_init) =
   Some (ExitSuccess, 1%nat, [js "<svg></svg>"], [ToastStopped; ToastGenerated 1 None],
         [CreateMLCEngine (js "m1"); ChatCompletionsCreate 1; InterruptGenerate 1])) /\
  option_map (fun r => (fst r, attempt (snd r), extractedSVGs (snd r), toasts (snd r)))
    (handleGenerate stop_in_second_block sample_params state_init) =
  Some (ExitStoppedOnAbort, 1%nat, [js "<svg></svg>"], [ToastStopped]).
Proof.
  split; [split; [right; left; reflexivity | vm_compute; reflexivity]|].
  vm_compute. reflexivity.
Qed.

(** The retry button pressed in the middle of the first attempt. *)
Lemma skip_semantics_witness :
  exists s1 fresh opening,
    iteration (skip_midway (S (attempt sample_start))) sample_params sample_start = Continue s1 /\
    attempt s1 = S (attempt sample_start) /\
    shouldStopRef s1 = false /\
    abortControllerRef s1 = Some fresh /\
    fresh <> first_controller /\ ctrl_aborted fresh = false /\
    adapterCalls (hook s1) =
      adapterCalls (hook sample_start) ++ opening ++
      ChatCompletionsCreate 1%nat ::
        button_calls (Some 1%nat) true (stream_events (skip_midway (S (attempt sample_start)))) /\
    Forall (fun call => is_chat_call call = false) opening /\
    ((forall value, ~ In (UserChangeModel value) [Chunk (js "<svg><circ")]) ->
     In (InterruptGenerate 1%nat)
        (button_calls (Some 1%nat) true
           (stream_events (skip_midway (S (attempt sample_start)))))) /\
    ((exists value, In (UserChangeModel value) [Chunk (js "<svg><circ")]) ->
     button_calls (Some 1%nat) true (stream_events (skip_midway (S (attempt sample_start)))) =
     button_calls (Some 1%nat) true [Chunk (js "<svg><circ")]) /\
    generateLoop 3 skip_midway sample_params sample_start =
      generateLoop 2 skip_midway sample_params s1 /\
    ((S (attempt sample_start) < maxRetries)%nat ->
     exists b, beginAttempt s1 = Some b /\ attempt b = S (S (attempt sample_start)) /\
               currentOutput b = [] /\ aiRawOutput b = [] /\
               abortControllerRef b = Some fresh) /\
    (S (attempt sample_start) = maxRetries ->
     generateLoop 3 skip_midway sample_params sample_start =
       Some (ExitMaxRetries, afterLoop s1)) /\
    (exists s_t, attempt s_t = attempt s1 /\
       (iteration transport_failure sample_params sample_start = Continue s_t \/
        exists e, iteration transport_failure sample_params sample_start = Return e s_t)).
Proof.
  apply (skip_semantics 1 skip_midway sample_params sample_start first_controller 1%nat
           AbortedException transport_failure [Chunk (js "<svg><circ")] []).
  - vm_compute. lia.
  - reflexivity.
  - reflexivity.
  - reflexivity.
  - vm_compute. lia.
  - apply sample_start_opens.
  - intros Hin. exact Hin.
  - reflexivity.
  - intros [Hd|[Hd|[]]]; discriminate.
  - reflexivity.
  - reflexivity.
  - apply transport_failure_recoverable.
Defined.

Example skip_midway_calls :
  match iteration (skip_midway 1) sample_params sample_start with
  | Continue s1 => Some (adapterCalls (hook s1), toasts s1)
  | Return _ _ => None
  end =
  Some ([CreateMLCEngine (js "m1"); ChatCompletionsCreate 1; InterruptGenerate 1],
        [ToastSkipping]).
Proof. vm_compute. reflexivity. Qed.

(** Against C3 as stated: the retry button is pressed while the tenth
    attempt streams; no eleventh attempt begins (the adapter has opened ten
    streams) and the call ends with the maximum-retries failure.  And when
    the stream interrupted by the retry button ends normally instead of
    with an abort error, the loop continues with the controller it had. *)
Lemma skip_in_tenth_ends :
  (In UserSkip (stream_events (skip_in_tenth 10)) /\
   option_map (fun r => (fst r, attempt (snd r), toasts (snd r),
                         length (List.filter is_chat_call (adapterCalls (hook (snd r))))))
     (handleGenerate skip_in_tenth sample_params state_init) =
   Some (ExitMaxRetries, 10%nat, [ToastSkipping; ToastMaxRetries], 10%nat)) /\
  (abortControllerRef sample_start = Some first_controller /\
   match iteration (skip_then_end 1) sample_params sample_start with
   | Continue s1 => Some (attempt s1, abortControllerRef s1)
   | Return _ _ => None
   end = Some (1%nat, Some first_controller)).
Proof.
  split; [split; [right; left; reflexivity | vm_compute; reflexivity]|].
  split; [reflexivity | vm_compute; reflexivity].
Qed.

Lemma sample_parts_ok :
  Forall (fun gb => ~ occurs svg_open (fst gb) /\ svg_block (snd gb)) sample_parts.
Proof.
  repeat constructor; simpl;
    first [apply find_lit_false; reflexivity | apply svg_here_is_block; reflexivity].
Qed.

(** Two blocks between other text, and a text without blocks. *)
Lemma extract_blocks_witness :
  svg_matches (assemble sample_parts sample_tail) = map snd sample_parts /\
  length (svg_matches (assemble sample_parts sample_tail)) = length sample_parts /\
  match_svg (assemble sample_parts sample_tail) =
    match sample_parts with [] => None | _ :: _ => Some (map snd sample_parts) end /\
  (Forall (fun gb => isSvg (snd gb) = true) sample_parts ->
   valid_blocks (assemble sample_parts sample_tail) = map snd sample_parts) /\
  valid_blocks (js "no graphics here") = [].
Proof.
  apply (extract_blocks sample_parts sample_tail (js "no graphics here")).
  - exact sample_parts_ok.
  - apply svg_exec_none_iff. reflexivity.
  - intros pre b post Heq Hb. exfalso.
    assert (Hno : no_block (js "no graphics here"))
      by (apply svg_exec_none_iff; reflexivity).
    exact (Hno pre b post Heq Hb).
Defined.



(** A viewBox of 32 when 64 is asked for. *)
Lemma size_mismatch_accepted_witness :
  exists s',
    generateLoop 2 small_viewBox_run sample_params sample_start = Some (ExitSuccess, s') /\
    In small_viewBox (extractedSVGs s') /\
    In (LogSizeMismatch (size sample_params)
          (parseFloat (split_ws (js "0 0 32 32") !! 2%nat))
          (parseFloat (split_ws (js "0 0 32 32") !! 3%nat))) (debugLogs s') /\
    attempt s' = S (attempt sample_start).
Proof.
  apply (size_mismatch_accepted 1 small_viewBox_run sample_params sample_start
           sample_begun (sample_streamed (small_viewBox_run 1))
           small_viewBox small_viewBox (js "0 0 32 32")).
  - vm_compute. lia.
  - reflexivity.
  - reflexivity.
  - left. reflexivity.
  - reflexivity.
  - reflexivity.
  - reflexivity.
Defined.

(** Two valid blocks in one response. *)
Lemma success_selects_last_witness :
  exists s',
    generateLoop 2 two_blocks_run sample_params sample_start = Some (ExitSuccess, s') /\
    extractedSVGs s' = valid_blocks (js "Here: <svg>1</svg> or <SVG>2</svg>.") /\
    selectedSVGIndex s' =
      (Z.of_nat (length (valid_blocks (js "Here: <svg>1</svg> or <SVG>2</svg>."))) - 1)%Z /\
    extractedSVGs s' !! Z.to_nat (selectedSVGIndex s') =
      last (valid_blocks (js "Here: <svg>1</svg> or <SVG>2</svg>.")) /\
    cachedModels s' = cachedModels sample_start ∪ {[ selectedModel sample_params ]} /\
    selectedModel sample_params ∈ cachedModels s'.
Proof.
  apply (success_selects_last 1 two_blocks_run sample_params sample_start
           sample_begun (sample_streamed (two_blocks_run 1))
           (js "Here: <svg>1</svg> or <SVG>2</svg>.")).
  - vm_compute. lia.
  - reflexivity.
  - reflexivity.
  - vm_compute. discriminate.
Defined.

Example two_blocks_selected :
  option_map (fun r => (fst r, extractedSVGs (snd r), selectedSVGIndex (snd r),
                        elements (cachedModels (snd r))))
    (handleGenerate two_blocks_run sample_params state_init) =
  Some (ExitSuccess, [js "<svg>1</svg>"; js "<SVG>2</svg>"], 1%Z, [js "m1"]).
Proof. vm_compute. reflexivity. Qed.

(** A hook that holds the engine of model m1. *)
Lemma engine_reuse_and_reset_witness :
  (exists e, engineRef loaded_hook = Some e /\
             initializeEngine quiet_create (js "m1") None loaded_hook =
               (loaded_hook, [], Ok e)) /\
  (engineRef (resetEngine loaded_hook) = None /\
   currentModelRef (resetEngine loaded_hook) = None /\
   hook (handleModelChange (js "m2") state_init) = resetEngine (hook state_init)) /\
  (adapterCalls (fst (fst (initializeEngine quiet_create (js "m1") None
                             (resetEngine loaded_hook)))) =
     adapterCalls loaded_hook ++ [CreateMLCEngine (js "m1")] /\
   snd (initializeEngine quiet_create (js "m1") None (resetEngine loaded_hook)) =
     create_result quiet_create) /\
  (hook_wf (resetEngine loaded_hook) /\
   hook_wf (fst (fst (initializeEngine quiet_create (js "m1") None loaded_hook))) /\
   hook_wf (interruptGenerate loaded_hook) /\
   hook_wf hook_init).
Proof.
  apply (engine_reuse_and_reset quiet_create (js "m1") (js "m1") None None (js "m2")
           loaded_hook state_init).
  - unfold hook_wf, loaded_hook; cbn. split; discriminate.
  - reflexivity.
  - reflexivity.
Defined.

(** Against C9 as stated: the adapter throws and [hasModelInCache]
    answers [false]. *)
Lemma has_swallows_error :
  adapter_hasModelInCache broken_storage (js "m1") = Throw network_error /\
  hasModelInCache broken_storage (js "m1") = Ok false.
Proof. split; reflexivity. Qed.

(** Storage layers in which one call throws: every call; the second call
    of [indexedDB.deleteDatabase]; the deletion of the second cache; the
    clearing of [sessionStorage]; the unregistration of the second service
    worker.  And one in which the deletion of the second database fails
    after the call has returned. *)
Lemma cache_errors_witness :
  (hasModelInCache broken_storage (js "m1") = Ok false /\
   deleteModelCache broken_storage (js "m1") = Throw network_error /\
   deleteAllModelCache broken_storage = Throw network_error) /\
  deleteAllModelCache (two_databases (Throw network_error) (Ok true)) =
    Throw network_error /\
  deleteAllModelCache (two_caches (Throw network_error)) = Throw network_error /\
  deleteAllModelCache session_fails = Throw network_error /\
  deleteAllModelCache (two_databases (Ok (Ok tt)) (Throw network_error)) =
    Throw network_error /\
  deleteAllModelCache (two_databases (Ok (Throw network_error)) (Ok true)) = Ok tt.
Proof.
  assert (Hdb : forall env name,
            indexedDB_defined env = true ->
            indexedDB_databases env = Ok [js "webllm"; name] ->
            indexedDB_deleteDatabase env (js "webllm") = Ok (Ok tt) ->
            (exists request, indexedDB_deleteDatabase env name = Ok request) ->
            databases_pass env).
  { intros env name _ Hnames Hfirst Hsecond _. eexists. split; [exact Hnames|].
    intros n [<-|[<-|[]]]; [eexists; exact Hfirst | exact Hsecond]. }
  assert (Hdb1 : forall env,
            indexedDB_databases env = Ok [js "webllm"] ->
            indexedDB_deleteDatabase env (js "webllm") = Ok (Ok tt) ->
            databases_pass env).
  { intros env Hnames Hfirst _. eexists. split; [exact Hnames|].
    intros n [<-|[]]. eexists. exact Hfirst. }
  assert (Hcaches : forall env name,
            caches_keys env = Ok [name] -> caches_delete env name = Ok true ->
            caches_pass env).
  { intros env name Hnames Hfirst _. eexists. split; [exact Hnames|].
    intros n [<-|[]]. eexists. exact Hfirst. }
  split; [|split; [|split; [|split; [|split]]]].
  - pose proof (cache_errors broken_storage (js "m1") network_error)
      as (Hhas & Hdelete & _ & _ & _ & Hall & _).
    split; [exact Hhas|]. split; [apply Hdelete; reflexivity | apply Hall; reflexivity].
  - pose proof (cache_errors (two_databases (Throw network_error) (Ok true)) (js "m1")
                  network_error) as (_ & _ & _ & _ & _ & _ & Hdelete & _).
    apply (Hdelete [js "webllm"] (js "webllm/wasm") []); try reflexivity.
    intros n [<-|[]]. eexists. reflexivity.
  - pose proof (cache_errors (two_caches (Throw network_error)) (js "m1") network_error)
      as (_ & _ & _ & _ & _ & _ & _ & _ & Hdelete & _).
    apply (Hdelete [js "webllm/model/m1"] (js "webllm/model/m2") []); try reflexivity.
    + apply Hdb1; reflexivity.
    + intros n [<-|[]]. eexists. reflexivity.
  - pose proof (cache_errors session_fails (js "m1") network_error)
      as (_ & _ & _ & _ & _ & _ & _ & _ & _ & _ & Hsession & _).
    apply Hsession; try reflexivity.
    + apply Hdb1; reflexivity.
    + apply (Hcaches _ (js "webllm/model")); reflexivity.
    + intros _. reflexivity.
  - pose proof (cache_errors (two_databases (Ok (Ok tt)) (Throw network_error)) (js "m1")
                  network_error)
      as (_ & _ & _ & _ & _ & _ & _ & _ & _ & _ & _ & _ & Hworker & _).
    apply (Hworker [1%nat] 2%nat []); try reflexivity.
    + apply (Hdb _ (js "webllm/wasm")); try reflexivity. eexists. reflexivity.
    + apply (Hcaches _ (js "webllm/model")); reflexivity.
    + intros _. reflexivity.
    + intros _. reflexivity.
    + intros n [<-|[]]. eexists. reflexivity.
  - pose proof (cache_errors (two_databases (Ok (Throw network_error)) (Ok true)) (js "m1")
                  network_error)
      as (_ & _ & _ & _ & _ & _ & _ & _ & _ & _ & _ & _ & _ & Hok & _).
    apply Hok. split; [|split; [|split; [|split]]].
    + apply (Hdb _ (js "webllm/wasm")); try reflexivity. eexists. reflexivity.
    + apply (Hcaches _ (js "webllm/model")); reflexivity.
    + intros _. reflexivity.
    + intros _. reflexivity.
    + intros _. exists [1%nat; 2%nat]. split; [reflexivity|].
      intros n [<-|[<-|[]]]; eexists; reflexivity.
Defined.

(** The failure of a deletion that [indexedDB.deleteDatabase] has started
    is not seen: the call returns normally. *)
Example request_failure_is_lost :
  indexedDB_deleteDatabase (two_databases (Ok (Throw network_error)) (Ok true))
    (js "webllm/wasm") = Ok (Throw network_error) /\
  deleteAllModelCache (two_databases (Ok (Throw network_error)) (Ok true)) = Ok tt.
Proof. split; vm_compute; reflexivity. Qed.


(** ** The further properties on sample runs *)


Example preview_grows :
  (extractedSVGs sample_preview,
   extractedSVGs
     (fst (run_stream (Some first_controller)
             [Chunk (js " or <SVG>2</svg>"); UserSkip; Chunk (js ".")] None []
             sample_preview))) =
  ([js "<svg>1</svg>"], [js "<svg>1</svg>"; js "<SVG>2</svg>"]).
Proof. vm_compute. reflexivity. Qed.

Lemma sample_result_run envs :
  handleGenerate envs sample_params state_init =
  Some (sample_exit envs, sample_result envs).
Proof.
  destruct (handleGenerate_total envs sample_params state_init) as (e & s' & Hrun).
  unfold sample_exit, sample_result. rewrite Hrun. reflexivity.
Qed.

(** A run that succeeds with two blocks. *)
Lemma handleGenerate_leaves_witness :
  (extractedSVGs (sample_result two_blocks_run) =
     valid_blocks (aiRawOutput (sample_result two_blocks_run)) /\
   extractedSVGs (sample_result two_blocks_run) <> [] /\
   Forall (fun block => isSvg block = true) (extractedSVGs (sample_result two_blocks_run)) /\
   selectedSVGIndex (sample_result two_blocks_run) =
     (Z.of_nat (length (extractedSVGs (sample_result two_blocks_run))) - 1)%Z /\
   cachedModels (sample_result two_blocks_run) =
     cachedModels state_init ∪ {[ selectedModel sample_params ]}) /\
  abortControllerRef (sample_result two_blocks_run) = None.
Proof.
  destruct (handleGenerate_leaves two_blocks_run sample_params state_init
              (sample_result two_blocks_run) (sample_exit two_blocks_run))
    as (Hsuccess & _ & Hcontroller).
  - apply sample_result_run.
  - split; [apply Hsuccess | apply Hcontroller; left]; vm_compute; reflexivity.
Defined.

(** Ten attempts without graphics: ten chat completions on one engine.
    And ten attempts skipped with the retry button, on an engine that the
    hook holds from the start. *)
Lemma adapter_budget_witness :
  (exists calls,
     adapterCalls (hook (sample_result no_graphics)) =
       adapterCalls (hook state_init) ++ calls /\
     (count_calls is_chat_call calls <= maxRetries)%nat /\
     (count_calls is_create_call calls <= maxRetries)%nat /\
     Forall (fun c => is_create_call c = true ->
                      c = CreateMLCEngine (selectedModel sample_params)) calls /\
     (forall engine,
        reusable_engine (hook state_init) (selectedModel sample_params) = Some engine ->
        (forall n, model_kept (stream_events (no_graphics n))) ->
        count_calls is_create_call calls = 0%nat /\
        reusable_engine (hook (sample_result no_graphics)) (selectedModel sample_params) =
          Some engine)) /\
  exists e s' calls,
    handleGenerate skip_midway sample_params sample_loaded = Some (e, s') /\
    adapterCalls (hook s') = adapterCalls (hook sample_loaded) ++ calls /\
    (count_calls is_chat_call calls <= maxRetries)%nat /\
    count_calls is_create_call calls = 0%nat /\
    reusable_engine (hook s') (selectedModel sample_params) = Some 7%nat.
Proof.
  split.
  - apply (adapter_budget no_graphics sample_params state_init (sample_result no_graphics)
             (sample_exit no_graphics)).
    apply sample_result_run.
  - destruct (handleGenerate_total skip_midway sample_params sample_loaded)
      as (e & s' & Hrun).
    destruct (adapter_budget skip_midway sample_params sample_loaded s' e Hrun)
      as (calls & Hcalls & Hchat & _ & _ & Hreuse).
    destruct (Hreuse 7%nat eq_refl) as [Hnone Hheld].
    { intros n value [Hd|[Hd|[]]]; discriminate. }
    exists e, s', calls. auto.
Defined.

Example skip_on_loaded_calls :
  option_map (fun r => (fst r,
                        count_calls is_create_call (adapterCalls (hook (snd r))),
                        count_calls is_chat_call (adapterCalls (hook (snd r))),
                        count_calls is_interrupt_call (adapterCalls (hook (snd r)))))
    (handleGenerate skip_midway sample_params sample_loaded) =
  Some (ExitMaxRetries, 1%nat, 10%nat, 10%nat).
Proof. vm_compute. reflexivity. Qed.

(** The model is changed during the first attempt: the engine is created
    again for the second. *)
Example change_in_first_calls :
  (count_calls is_create_call (adapterCalls (hook (sample_result change_in_first))),
   count_calls is_chat_call (adapterCalls (hook (sample_result change_in_first))),
   take 4 (adapterCalls (hook (sample_result change_in_first)))) =
  (2%nat, 10%nat,
   [CreateMLCEngine (js "m1"); ChatCompletionsCreate 1;
    CreateMLCEngine (js "m1"); ChatCompletionsCreate 1]).
Proof. vm_compute. reflexivity. Qed.

Example no_graphics_calls :
  (count_calls is_create_call (adapterCalls (hook (sample_result no_graphics))),
   count_calls is_chat_call (adapterCalls (hook (sample_result no_graphics)))) =
  (1%nat, 10%nat).
Proof. vm_compute. reflexivity. Qed.

(** A run that succeeds leaves the hook idle. *)
Lemma busy_flags_cleared_witness :
  isInitializing (hook (sample_result two_blocks_run)) = false /\
  isGenerating (hook (sample_result two_blocks_run)) = false.
Proof.
  apply (busy_flags_cleared two_blocks_run sample_params state_init
           (sample_result two_blocks_run) (sample_exit two_blocks_run)).
  - split; reflexivity.
  - apply sample_result_run.
Defined.

(** The older of two prompts is submitted again. *)
Lemma saveToHistory_moves_to_front_witness :
  (exists rest,
     Editor.promptHistory (Editor.saveToHistory (js "a cat") sample_history) =
       js "a cat" :: rest /\
     (js "a cat" ∉ rest) /\
     rest `sublist_of` Editor.promptHistory sample_history /\
     (forall q, q ∈ Editor.promptHistory sample_history -> q <> js "a cat" ->
        (length (Editor.promptHistory sample_history) < MAX_HISTORY)%nat \/
        (js "a cat" ∈ Editor.promptHistory sample_history /\
         length (Editor.promptHistory sample_history) <= MAX_HISTORY)%nat -> q ∈ rest)) /\
  (length (Editor.promptHistory (Editor.saveToHistory (js "a cat") sample_history)) <=
     MAX_HISTORY)%nat /\
  (NoDup (Editor.promptHistory sample_history) ->
   NoDup (Editor.promptHistory (Editor.saveToHistory (js "a cat") sample_history))) /\
  Editor.historyIndex (Editor.saveToHistory (js "a cat") sample_history) = (-1)%Z /\
  persisted_history (Editor.localStorage (Editor.saveToHistory (js "a cat") sample_history)) =
    Editor.promptHistory (Editor.saveToHistory (js "a cat") sample_history) /\
  Editor.saveToHistory (js "a cat") (Editor.saveToHistory (js "a cat") sample_history) =
    Editor.saveToHistory (js "a cat") sample_history.
Proof.
  apply (saveToHistory_moves_to_front (js "a cat") sample_history).
  reflexivity.
Defined.

Example history_moves :
  (Editor.promptHistory sample_history,
   Editor.promptHistory (Editor.saveToHistory (js "a cat") sample_history)) =
  ([js "a dog"; js "a cat"], [js "a cat"; js "a dog"]).
Proof. vm_compute. reflexivity. Qed.

Lemma mount_empty_ok : history_ok (Editor.mount storage_empty).
Proof.
  unfold history_ok. rewrite persisted_history_eq. cbn.
  repeat split; try constructor. lia.
Qed.

(** A visit with every kind of action, from a first visit. *)
Lemma history_invariant_witness :
  history_ok (Editor.run sample_actions (Editor.mount storage_empty)).
Proof.
  apply (history_invariant sample_actions (Editor.mount storage_empty)).
  exact mount_empty_ok.
Defined.

Lemma sample_history_index_ok : index_ok sample_history.
Proof. unfold index_ok. vm_compute. split; [discriminate | reflexivity]. Qed.

(** Three presses of [ArrowUp] in a history of two, then one of
    [ArrowDown]. *)
Lemma browse_history_witness :
  let history := Editor.promptHistory sample_history in
  let e1 := Editor.run (map (Editor.KeyDown false false first_render)
                          [arrow_up; arrow_up; arrow_up]) sample_history in
  let e2 := Editor.run (map (Editor.KeyDown false false first_render) [arrow_down]) e1 in
  (Editor.promptHistory e1 = history /\ Editor.promptHistory e2 = history) /\
  (index_ok e1 /\ index_ok e2) /\
  Editor.historyIndex e1 =
    Z.min (Editor.historyIndex sample_history + Z.of_nat 3) (Z.of_nat (length history) - 1) /\
  Editor.historyIndex e2 = Z.max (Editor.historyIndex e1 - Z.of_nat 1) (-1) /\
  (exists entry, Editor.prompt e1 = Some entry /\
                 history !! Z.to_nat (Editor.historyIndex e1) = Some entry) /\
  Editor.prompt e2 = shown_at history (Editor.historyIndex e2) /\
  is_Some (Editor.prompt e2).
Proof.
  destruct (browse_history false false first_render [arrow_up; arrow_up; arrow_up] [arrow_down]
              sample_history) as (Hh & Hi & Hi1 & Hi2 & Hp1 & Hp2).
  - exact sample_history_index_ok.
  - repeat constructor.
  - repeat constructor.
  - cbn zeta. split; [exact Hh|]. split; [exact Hi|]. split; [exact Hi1|].
    split; [exact Hi2|]. split.
    + apply Hp1; discriminate.
    + apply Hp2; [discriminate | vm_compute; reflexivity].
Defined.

Example browsing :
  (Editor.prompt
     (Editor.run (map (Editor.KeyDown false false first_render) [arrow_up; arrow_up; arrow_up])
        sample_history),
   Editor.prompt
     (Editor.run (map (Editor.KeyDown false false first_render)
                    [arrow_up; arrow_up; arrow_up; arrow_down]) sample_history)) =
  (Some (js "a cat"), Some (js "a dog")).
Proof. vm_compute. reflexivity. Qed.

(** Both entries are deleted while the index stands at the older one. *)
Lemma stale_index_gives_undefined_witness :
  let e' := Editor.run [Editor.ClickDelete 0; Editor.ClickDelete 0;
                        Editor.KeyDown false false first_render arrow_down] sample_browsed in
  length (Editor.promptHistory e') = (length (Editor.promptHistory sample_browsed) - 2)%nat /\
  Editor.historyIndex e' = Z.of_nat (length (Editor.promptHistory e')) /\
  Editor.prompt e' = None /\
  Editor.handleGenerate_prompt (Editor.present (js "m1") e') e' = Throw TypeError /\
  Editor.act (Editor.ClickGenerate (js "m1")) e' = e'.
Proof.
  apply (stale_index_gives_undefined false false first_render (js "m1") arrow_down 0 0
           sample_browsed).
  - reflexivity.
  - vm_compute. reflexivity.
  - vm_compute. lia.
  - vm_compute. lia.
Defined.

(** A line as [addLog] writes it. *)
Lemma log_line_round_trip_witness :
  timestampMatch (addLog_line (js "10:15:00") (js "info: Starting SVG generation")) =
    (if bool_decide (js "info: Starting SVG generation" <> []) &&
        forallb (fun c => negb (is_line_terminator c)) (js "info: Starting SVG generation")
     then Some (js "10:15:00", js "info: Starting SVG generation") else None) /\
  (forall log stamp text,
     timestampMatch log = Some (stamp, text) ->
     log = addLog_line stamp text /\ stamp <> [] /\ (bracket_close ∉ stamp) /\ text <> [] /\
     forallb (fun c => negb (is_line_terminator c)) text = true).
Proof.
  apply (log_line_round_trip (js "10:15:00") (js "info: Starting SVG generation")).
  - discriminate.
  - intros Hin. apply list_elem_of_In in Hin. vm_compute in Hin.
    repeat (destruct Hin as [Hin|Hin]; [discriminate|]). exact Hin.
Defined.

Example log_lines :
  (renderLog (addLog_line (js "10:15:00") (js "info: Starting SVG generation")),
   renderLog (addLog_line (js "10:15:00") (js "info: Prompt: a house
with a red roof"))) =
  (StampedLine (js "10:15:00") (Some LevelInfo) (js "Starting SVG generation"),
   PlainLine (js "[10:15:00] info: Prompt: a house
with a red roof")).
Proof. vm_compute. reflexivity. Qed.

(** Clearing [sessionStorage] throws after [localStorage] was cleared. *)
Lemma delete_all_erases_storage_witness :
  deleteAllModelCache session_fails = Throw network_error /\
  deleteAllModelCache_storage session_fails (Editor.localStorage sample_history) =
    storage_empty /\
  Models.cachedModels (Models.handleDeleteAllCache session_fails sample_models) =
    Models.cachedModels sample_models /\
  last (Models.toasts (Models.handleDeleteAllCache session_fails sample_models)) =
    Some ToastCacheDeleteFailed.
Proof.
  destruct (delete_all_erases_storage session_fails (Editor.localStorage sample_history)
              sample_models network_error) as (_ & _ & Hfails).
  - reflexivity.
  - reflexivity.
  - split; reflexivity.
  - split; reflexivity.
  - exact Hfails.
Defined.

Example history_erased :
  (persisted_history (Editor.localStorage sample_history),
   persisted_history
     (deleteAllModelCache_storage session_fails (Editor.localStorage sample_history))) =
  ([js "a dog"; js "a cat"], []).
Proof. vm_compute. reflexivity. Qed.


(** A typed prompt survives the deletion of an entry and a reload. *)
Lemma stored_prompt_in_step_witness :
  prompt_persisted
    (Editor.run [Editor.Type_ (js "a bird"); Editor.ClickDelete 0; Editor.Reload]
       sample_history) /\
  (forall index entry,
     Editor.promptHistory
       (Editor.run [Editor.Type_ (js "a bird"); Editor.ClickDelete 0; Editor.Reload]
          sample_history) !! index = Some entry ->
     Editor.prompt
       (Editor.act (Editor.ClickEntry index)
          (Editor.run [Editor.Type_ (js "a bird"); Editor.ClickDelete 0; Editor.Reload]
             sample_history)) = Some entry /\
     Editor.prompt
       (Editor.act Editor.Reload
          (Editor.act (Editor.ClickEntry index)
             (Editor.run [Editor.Type_ (js "a bird"); Editor.ClickDelete 0; Editor.Reload]
                sample_history))) =
     Editor.prompt
       (Editor.run [Editor.Type_ (js "a bird"); Editor.ClickDelete 0; Editor.Reload]
          sample_history)).
Proof.
  apply (stored_prompt_in_step
           [Editor.Type_ (js "a bird"); Editor.ClickDelete 0; Editor.Reload] sample_history).
  - vm_compute. reflexivity.
  - reflexivity.
Defined.

Example chosen_entry_not_stored :
  (Editor.prompt (Editor.run [Editor.Type_ (js "a bird"); Editor.ClickEntry 1] sample_history),
   Editor.prompt
     (Editor.run [Editor.Type_ (js "a bird"); Editor.ClickEntry 1; Editor.Reload]
        sample_history)) =
  (Some (js "a cat"), Some (js "a bird")).
Proof. vm_compute. reflexivity. Qed.

(** The cache of another model cannot be deleted; the cache of the model
    can. *)
Lemma deleteModelCache_only_matching_witness :
  deleteModelCache (two_caches (Throw network_error)) (js "m1") =
    deleteModelCache (two_caches (Ok true)) (js "m1") /\
  deleteModelCache (two_caches (Throw network_error)) (js "m1") = Ok tt /\
  (js "m1" ∉ Models.cachedModels
               (Models.handleDeleteCache (two_caches (Ok true)) (js "m1") sample_models)).
Proof.
  destruct (deleteModelCache_only_matching (two_caches (Ok true))
              (two_caches (Throw network_error)) (js "m1") sample_models)
    as (Hsame & _ & Hmark).
  - reflexivity.
  - split; reflexivity.
  - intros cacheName Hinc. unfold two_caches. cbn [caches_delete].
    rewrite Hinc. reflexivity.
  - split; [exact Hsame|]. split; [reflexivity|].
    intros Hin. apply Hmark in Hin as [_ Hfails]. apply Hfails; reflexivity.
Defined.

(** Stop pressed while the engine of the first attempt is created. *)
Lemma stop_while_loading_witness :
  exists e s' loading,
    generateLoop 3 stopped_while_loading sample_params sample_start = Some (e, s') /\
    attempt s' = S (attempt sample_start) /\
    adapterCalls (hook s') =
      adapterCalls (hook sample_start) ++
      CreateMLCEngine (selectedModel sample_params) ::
        loading ++ [ChatCompletionsCreate 1%nat] /\
    Forall (fun call => exists held, engineRef (hook sample_start) = Some held /\
                                     call = InterruptGenerate held) loading /\
    (forall err, stream_end (stopped_while_loading (S (attempt sample_start))) = Some err ->
                 isAbortError err = true -> e = ExitStoppedOnAbort) /\
    (stream_end (stopped_while_loading (S (attempt sample_start))) = None ->
     valid_blocks
       (streamed_text (stream_events (stopped_while_loading (S (attempt sample_start))))) <> [] ->
     e = ExitSuccess /\
     extractedSVGs s' =
       valid_blocks
         (streamed_text (stream_events (stopped_while_loading (S (attempt sample_start)))))) /\
    (forall cause,
       attempt_cause (stream_result (stopped_while_loading (S (attempt sample_start)))) =
         Some cause ->
       ((S (attempt sample_start) < maxRetries)%nat -> e = ExitStoppedAtEntry) /\
       (S (attempt sample_start) = maxRetries ->
        e = cause_exit cause /\ last (toasts s') = Some (cause_toast cause))).
Proof.
  apply (stop_while_loading 1 stopped_while_loading sample_params sample_start
           first_controller 1%nat).
  - vm_compute. lia.
  - reflexivity.
  - reflexivity.
  - reflexivity.
  - reflexivity.
  - reflexivity.
  - reflexivity.
  - right. left. reflexivity.
Defined.

Example stopped_while_loading_succeeds :
  option_map (fun r => (fst r, attempt (snd r), extractedSVGs (snd r), toasts (snd r),
                        adapterCalls (hook (snd r))))
    (handleGenerate stopped_while_loading sample_params state_init) =
  Some (ExitSuccess, 1%nat, [js "<svg></svg>"], [ToastStopped; ToastGenerated 1 None],
        [CreateMLCEngine (js "m1"); ChatCompletionsCreate 1]).
Proof. vm_compute. reflexivity. Qed.
